(** * smart_open.s3: file-like access to a range-addressable object store

    A shallow embedding of [smart_open/s3.py]: the raw range reader
    ([_SeekableRawReader]), the buffered [Reader], the [MultipartWriter],
    the retry wrapper [_retry_if_failed] and the bulk download [iter_bucket].

    Python objects are records, methods are functions in a state-and-exception
    monad whose state is the object together with the network.  The object
    store itself (boto3) is an external collaborator: it is a parameter, a
    record of transition functions on an abstract world [W].  Every call that
    leaves the process is also appended to a trace, so that "no request is
    issued" is a statement about the trace. *)

From Stdlib Require Import String Ascii.
From Stdlib.Strings Require Import Byte.
From Stdlib Require Import ZArith List Bool Lia Permutation DecimalString.
Import ListNotations.
Local Open Scope Z_scope.

Definition bytes := list byte.

(** ** Exceptions *)

(** The value stored under ['ActualObjectSize'] in an error response, seen
    through what [int(...)] makes of it. *)
Inductive IntArg :=
| IntLike (z : Z)
| NotIntLike.

(** [error.response['Error']] of a botocore [ClientError]: the two entries
    the reader looks at. *)
Record ErrorDict := {
  Message : option string;
  ActualObjectSize : option IntArg
}.

Inductive Exn :=
| ClientError (response_Error : option ErrorDict)
    (* botocore.client.ClientError; [None]: the response has no 'Error' key *)
| IOError (backend_error : option (option ErrorDict))
    (* IOError; [backend_error] is the attribute attached by [_get] *)
| EndpointConnectionError
| IncompleteReadError
| ValueError
| KeyError
| AttributeError
| AssertionError
| TypeError
| NotImplementedError
| UnsupportedOperation
| OtherError (name : string).

Inductive ExnClass :=
| C_ClientError
| C_IOError
| C_EndpointConnectionError
| C_IncompleteReadError
| C_ValueError
| C_KeyError
| C_AttributeError
| C_AssertionError
| C_TypeError
| C_NotImplementedError
| C_UnsupportedOperation
| C_Exception.

(** [isinstance(e, c)], with the subclass relation of the Python classes:
    [io.UnsupportedOperation] derives from both [OSError] (= [IOError]) and
    [ValueError]; everything derives from [Exception]. *)
Definition isinstance (e : Exn) (c : ExnClass) : bool :=
  match c, e with
  | C_Exception, _ => true
  | C_ClientError, ClientError _ => true
  | C_IOError, IOError _ => true
  | C_IOError, UnsupportedOperation => true
  | C_EndpointConnectionError, EndpointConnectionError => true
  | C_IncompleteReadError, IncompleteReadError => true
  | C_ValueError, ValueError => true
  | C_ValueError, UnsupportedOperation => true
  | C_KeyError, KeyError => true
  | C_AttributeError, AttributeError => true
  | C_AssertionError, AssertionError => true
  | C_TypeError, TypeError => true
  | C_NotImplementedError, NotImplementedError => true
  | C_UnsupportedOperation, UnsupportedOperation => true
  | _, _ => false
  end.

(** [except tuple(exceptions)] *)
Definition isinstance_any (e : Exn) (cs : list ExnClass) : bool :=
  existsb (isinstance e) cs.

Inductive Result (A : Type) :=
| Ok (a : A)
| Raise (e : Exn).
Arguments Ok {A} a.
Arguments Raise {A} e.

(** ** State and exception monad *)

Definition M (S A : Type) : Type := S -> Result A * S.

Definition ret {S A} (a : A) : M S A := fun s => (Ok a, s).

Definition raise {S A} (e : Exn) : M S A := fun s => (Raise e, s).

Definition bind {S A B} (m : M S A) (k : A -> M S B) : M S B :=
  fun s =>
    match m s with
    | (Ok a, s') => k a s'
    | (Raise e, s') => (Raise e, s')
    end.

(** [try: m  except <handles>: h]; the state reached when the exception was
    raised is kept, as mutations of Python objects are. *)
Definition try_except {S A} (m : M S A) (handles : Exn -> bool) (h : Exn -> M S A) : M S A :=
  fun s =>
    match m s with
    | (Ok a, s') => (Ok a, s')
    | (Raise e, s') => if handles e then h e s' else (Raise e, s')
    end.

(** [assert c] *)
Definition assert_ {S} (c : bool) : M S unit :=
  if c then ret tt else raise AssertionError.

Declare Scope monad_scope.
Delimit Scope monad_scope with monad.
Notation "x <- c1 ;; c2" := (bind c1 (fun x => c2))
  (at level 61, c1 at next level, right associativity) : monad_scope.
Notation "c1 ;; c2" := (bind c1 (fun _ => c2))
  (at level 61, right associativity) : monad_scope.
Local Open Scope monad_scope.

(** ** io.BytesIO *)

Record BytesIO := {
  bio_data : bytes;
  bio_pos : nat
}.

Definition BytesIO_new : BytesIO := {| bio_data := []; bio_pos := 0 |}.

Definition bio_tell (b : BytesIO) : Z := Z.of_nat (bio_pos b).

Definition bio_seek0 (b : BytesIO) : BytesIO :=
  {| bio_data := bio_data b; bio_pos := 0 |}.

(** [read(size)]: [None] or a negative size reads to the end. *)
Definition bio_read (b : BytesIO) (size : option Z) : bytes * BytesIO :=
  let rest := skipn (bio_pos b) (bio_data b) in
  let out := match size with
             | None => rest
             | Some n => if n <? 0 then rest else firstn (Z.to_nat n) rest
             end in
  (out, {| bio_data := bio_data b; bio_pos := bio_pos b + length out |}).

(** [write(b)] at the current position, overwriting and extending (with zero
    padding when the position is beyond the end). *)
Definition bio_write (b : BytesIO) (data : bytes) : Z * BytesIO :=
  let pad := repeat x00 (bio_pos b - length (bio_data b)) in
  let before := firstn (bio_pos b) (bio_data b) ++ pad in
  let after := skipn (bio_pos b + length data) (bio_data b) in
  (Z.of_nat (length data),
   {| bio_data := before ++ data ++ after; bio_pos := bio_pos b + length data |}).

(** What a consumer handed the object reads from it: the bytes from the
    current position on. *)
Definition bio_remaining (b : BytesIO) : bytes := skipn (bio_pos b) (bio_data b).

(** ** The network *)

(** Modelled from the spec: [smart_open.utils.make_range_string] is not under
    src/.  The request header is 'start-stop' or the suffix '-N' (section 6);
    it is kept as the pair it is rendered from. *)
Record RangeHeader := {
  range_start : option Z;
  range_stop : option Z
}.

Definition make_range_string (start stop : option Z) : RangeHeader :=
  {| range_start := start; range_stop := stop |}.

(** Modelled from the spec: [smart_open.utils.parse_content_range] is not
    under src/.  The response header echoes 'unit start-stop/total'
    (section 6); a header that does not have this shape is malformed, which is
    fatal (section 7). *)
Inductive ContentRangeHeader :=
| ContentRangeOf (units : string) (start stop length : Z)
| ContentRangeMalformed.

Definition parse_content_range (h : ContentRangeHeader)
  : Result (string * Z * Z * Z) :=
  match h with
  | ContentRangeOf u a b l => Ok (u, a, b, l)
  | ContentRangeMalformed => Raise ValueError
  end.

(** The response dictionary of [s3_object.get]. *)
Record GetResponse (B : Type) := {
  ContentRange : option ContentRangeHeader;
  Body : B;
  ContentLength : option Z
}.
Arguments ContentRange {B} _.
Arguments Body {B} _.
Arguments ContentLength {B} _.

Record PartDict := {
  ETag : string;
  PartNumber : Z
}.

(** Every interaction with the outside, in program order.  [EvHeadObject]
    is the metadata-only request of the store interface (section 6); it is
    listed for completeness, no function of this module issues it. *)
Inductive Event :=
| EvGetObject (version : option string) (range : option RangeHeader)
| EvHeadObject (version : option string)
| EvBodyRead (amt : option Z)
| EvBodyClose
| EvSleep (seconds : Z)
| EvInitiateMultipartUpload
| EvUploadPart (part_num : Z) (body : bytes)
| EvComplete (parts : list PartDict)
| EvAbort
| EvPut (body : bytes)
| EvListObjects (prefix : string) (token : option string)
| EvDownload (key : string)
| EvPoolCreate (processes : Z)
| EvNextResult
| EvPoolTerminate.

Record Net (W : Type) := {
  world : W;
  trace : list Event
}.
Arguments world {W} _.
Arguments trace {W} _.

Definition net0 {W} (w : W) : Net W := {| world := w; trace := [] |}.

(** The network [n] after the events [evs], the world now being [w]. *)
Definition logged {W} (n : Net W) (w : W) (evs : list Event) : Net W :=
  {| world := w; trace := trace n ++ evs |}.


(** Requests for object content or metadata sent to the store by a reader. *)
Definition is_store_request (ev : Event) : bool :=
  match ev with
  | EvGetObject _ _ | EvHeadObject _ => true
  | _ => false
  end.

(** The state a method runs in: the object [self] and the network. *)
Definition St (O W : Type) : Type := (O * Net W)%type.

Definition get_self {O W} : M (St O W) O := fun s => (Ok (fst s), s).

Definition set_self {O W} (o : O) : M (St O W) unit := fun s => (Ok tt, (o, snd s)).

Definition emit {O W} (ev : Event) : M (St O W) unit :=
  fun s => (Ok tt, (fst s, {| world := world (snd s); trace := trace (snd s) ++ [ev] |})).

(** A call to the outside: logged, answered by the world. *)
Definition call {O W A} (ev : Event) (f : W -> Result A * W) : M (St O W) A :=
  fun s =>
    let r := f (world (snd s)) in
    (fst r, (fst s, {| world := snd r; trace := trace (snd s) ++ [ev] |})).

(** Run a method of a sub-object held in a field of [self]. *)
Definition lift_field {O P W A} (proj : O -> P) (upd : O -> P -> O)
    (m : M (St P W) A) : M (St O W) A :=
  fun s =>
    let r := m (proj (fst s), snd s) in
    (fst r, (upd (fst s) (fst (snd r)), snd (snd r))).

Definition lift_result {S A} (r : Result A) : M S A := fun s => (r, s).

(** ** The store as seen by a reader *)

(** [s3_object.get(Range=..., VersionId=...)] and the returned streaming
    body.  A body of type [B] carries its own read state; reading it also
    goes through the world (the connection). *)
Record ReaderBackend (W B : Type) := {
  object_get : option string -> option RangeHeader -> W -> Result (GetResponse B) * W;
  body_read : B -> option Z -> W -> (Result bytes * B) * W;
  body_close : B -> W -> W
}.
Arguments object_get {W B} _ _ _ _.
Arguments body_read {W B} _ _ _ _.
Arguments body_close {W B} _ _ _.

(** What [self._body] can hold: [io.BytesIO()] or [response['Body']]. *)
Inductive BodyObj (B : Type) :=
| BytesIOBody (b : BytesIO)
| StreamingBody (s : B).
Arguments BytesIOBody {B} b.
Arguments StreamingBody {B} s.

(** Returned by AWS when we try to seek beyond EOF. *)
Definition _OUT_OF_RANGE : string := "Requested Range Not Satisfiable".

(** Modelled from the spec: [smart_open.constants] is not under src/; the
    three whence values follow the POSIX convention (section 4.1). *)
Definition WHENCE_START : Z := 0.
Definition WHENCE_CURRENT : Z := 1.
Definition WHENCE_END : Z := 2.
Definition WHENCE_CHOICES : list Z := [WHENCE_START; WHENCE_CURRENT; WHENCE_END].

Definition opt_string_eqb (a : option string) (b : string) : bool :=
  match a with
  | Some s => String.eqb s b
  | None => false
  end.

(** [x == n] for an [Optional[int]] *)
Definition opt_Z_eqb (a : option Z) (n : Z) : bool :=
  match a with
  | Some z => z =? n
  | None => false
  end.

(** Truth value of an [Optional[int]]: [None] and [0] are false. *)
Definition truthy (a : option Z) : bool :=
  match a with
  | Some z => negb (z =? 0)
  | None => false
  end.

Section Get.
Context {O W B : Type} (be : ReaderBackend W B).

Definition _get (version : option string) (range : option RangeHeader)
  : M (St O W) (GetResponse B) :=
  try_except
    (call (EvGetObject version range) (object_get be version range))
    (fun e => isinstance e C_ClientError)
    (fun error =>
       match error with
       | ClientError r => raise (IOError (Some r))
       | _ => raise error
       end).
End Get.

(** Given an IOError from [_get], return the 'Error' dictionary from boto. *)
Definition _unwrap_ioerror (ioe : Exn) : option ErrorDict :=
  match ioe with
  | IOError (Some (Some d)) => Some d
  | _ => None
  end.

Module _SeekableRawReader.

Record t (B : Type) := mk {
  _content_length : option Z;
  _version_id : option string;
  _position : Z;
  _body : option (BodyObj B)
}.
Arguments mk {B} _ _ _ _.
Arguments _content_length {B} _.
Arguments _version_id {B} _.
Arguments _position {B} _.
Arguments _body {B} _.

Definition __init__ {B} (version_id : option string) : t B :=
  mk None version_id 0 None.

Definition with_body {B} (r : t B) (b : option (BodyObj B)) : t B :=
  mk (_content_length r) (_version_id r) (_position r) b.

Definition with_position {B} (r : t B) (p : Z) : t B :=
  mk (_content_length r) (_version_id r) p (_body r).

Definition with_content_length {B} (r : t B) (cl : option Z) : t B :=
  mk cl (_version_id r) (_position r) (_body r).

Section Methods.
Context {W B : Type} (be : ReaderBackend W B).

Local Abbreviation S := (St (t B) W).

Definition set_body (b : option (BodyObj B)) : M S unit :=
  self <- get_self ;; set_self (with_body self b).

Definition set_position (p : Z) : M S unit :=
  self <- get_self ;; set_self (with_position self p).

Definition set_content_length (cl : option Z) : M S unit :=
  self <- get_self ;; set_self (with_content_length self cl).

(** [self._body.close()] *)
Definition close_body (b : BodyObj B) : M S unit :=
  match b with
  | BytesIOBody _ => ret tt
  | StreamingBody s => call EvBodyClose (fun w => (Ok tt, body_close be s w))
  end.

(** [self._body.read()] / [self._body.read(size)] *)
Definition read_body (b : BodyObj B) (amt : option Z) : M S bytes :=
  match b with
  | BytesIOBody bio =>
      let r := bio_read bio amt in
      set_body (Some (BytesIOBody (snd r))) ;; ret (fst r)
  | StreamingBody s =>
      fun st =>
        let r := body_read be s amt (world (snd st)) in
        (fst (fst r),
         (with_body (fst st) (Some (StreamingBody (snd (fst r)))),
          {| world := snd r; trace := trace (snd st) ++ [EvBodyRead amt] |}))
  end.

Definition _open_body (start stop : option Z) : M S unit :=
  self <- get_self ;;
  let start := match start, stop with
               | None, None => Some (_position self)
               | _, _ => start
               end in
  let range_string := make_range_string start stop in
  fun st =>
    match _get be (_version_id self) (Some range_string) st with
    | (Raise ioe, st') =>
        if isinstance ioe C_IOError then
          (* Handle requested content range exceeding content size. *)
          match _unwrap_ioerror ioe with
          | None => (Raise ioe, st')
          | Some error_response =>
              if negb (opt_string_eqb (Message error_response) _OUT_OF_RANGE)
              then (Raise ioe, st')
              else
                (size <-
                   match ActualObjectSize error_response with
                   | Some (IntLike z) => ret z
                   | Some NotIntLike => raise ValueError
                   | None =>
                       (* moto lacks ActualObjectSize *)
                       response <- _get be (_version_id self) None ;;
                       match ContentLength response with
                       | Some z => ret z
                       | None => raise KeyError
                       end
                   end ;;
                 set_position size ;;
                 set_content_length (Some size) ;;
                 set_body (Some (BytesIOBody BytesIO_new))) st'
          end
        else (Raise ioe, st')
    | (Ok response, st') =>
        (match ContentRange response with
         | None => raise KeyError
         | Some h =>
             parsed <- lift_result (parse_content_range h) ;;
             let '(units, start, stop, length) := parsed in
             set_content_length (Some length) ;;
             set_position start ;;
             set_body (Some (StreamingBody (Body response)))
         end) st'
    end.

Definition seek (offset : Z) (whence : Z) : M S Z :=
  if negb (existsb (Z.eqb whence) WHENCE_CHOICES) then raise ValueError
  else
    self <- get_self ;;
    (* Close old body explicitly. *)
    match _body self with
    | Some b => close_body b
    | None => ret tt
    end ;;
    set_body None ;;
    let start :=
      if whence =? WHENCE_START then Some (Z.max 0 offset)
      else if whence =? WHENCE_CURRENT then Some (Z.max 0 (offset + _position self))
      else None in
    let stop :=
      if whence =? WHENCE_START then None
      else if whence =? WHENCE_CURRENT then None
      else Some (Z.max 0 (- offset)) in
    let reached_eof :=
      match _content_length self with
      | None => false
      | Some cl =>
          if match start with Some s => s >=? cl | None => false end then true
          else if opt_Z_eqb stop 0 then true
          else false
      end in
    (if reached_eof then
       set_body (Some (BytesIOBody BytesIO_new)) ;;
       assert_ (truthy (_content_length self)) ;;
       set_position (match _content_length self with Some cl => cl | None => 0 end)
     else _open_body start stop) ;;
    self <- get_self ;;
    ret (_position self).

Definition _read_from_body (size : Z) : M S bytes :=
  self <- get_self ;;
  match _body self with
  | None => raise AssertionError
  | Some b => if size =? -1 then read_body b None else read_body b (Some size)
  end.

(** Read from the continuous connection with the remote peer. *)
Definition read (size : Z) : M S bytes :=
  self <- get_self ;;
  match _body self with
  | None => _open_body None None
  | Some _ => ret tt
  end ;;
  self <- get_self ;;
  assert_ (truthy (_content_length self)) ;;
  if match _content_length self with
     | Some cl => _position self >=? cl
     | None => false
     end
  then ret []
  else
    binary <- try_except (_read_from_body size)
                (fun e => isinstance e C_IncompleteReadError)
                (fun _ => _open_body None None ;; _read_from_body size) ;;
    self <- get_self ;;
    set_position (_position self + Z.of_nat (length binary)) ;;
    ret binary.
End Methods.
End _SeekableRawReader.

(** ** Byte strings: [find], [endswith] *)

Fixpoint startswith (s prefix : bytes) {struct prefix} : bool :=
  match prefix, s with
  | [], _ => true
  | _ :: _, [] => false
  | x :: p', y :: s' => Byte.eqb x y && startswith s' p'
  end.

(** [s.find(sub)]: index of the first occurrence, [None] for -1. *)
Fixpoint find (s sub : bytes) : option nat :=
  if startswith s sub then Some O
  else match s with
       | [] => None
       | _ :: s' => option_map S (find s' sub)
       end.

Definition endswith (s suffix : bytes) : bool :=
  startswith (rev s) (rev suffix).

Module ByteBuffer.

(** Modelled from the spec: [smart_open.bytebuffer.ByteBuffer] is not under
    src/.  Section 3: a contiguous byte region plus a configured chunk
    size, whose length is bytes appended minus bytes consumed; [fill]
    appends what the source returns for one chunk and reports how many
    bytes that was, [read n] consumes at most [n] bytes, [readline] consumes
    up to and including the delimiter or all remaining bytes if there is
    none, [empty] drops the contents. *)
Record t := mk {
  _bytes : bytes;
  _chunk_size : Z
}.

Definition __init__ (chunk_size : Z) : t := mk [] chunk_size.

Definition len (b : t) : Z := Z.of_nat (length (_bytes b)).

Definition read (b : t) (size : Z) : bytes * t :=
  (firstn (Z.to_nat size) (_bytes b),
   mk (skipn (Z.to_nat size) (_bytes b)) (_chunk_size b)).

Definition empty (b : t) : t := mk [] (_chunk_size b).

Definition readline (b : t) (terminator : bytes) : bytes * t :=
  match find (_bytes b) terminator with
  | None => read b (len b)
  | Some index => read b (Z.of_nat (index + length terminator))
  end.

Definition append (b : t) (new_bytes : bytes) : t :=
  mk (_bytes b ++ new_bytes) (_chunk_size b).

End ByteBuffer.

(** Modelled from the spec: [smart_open.constants.BINARY_NEWLINE] is not
    under src/; the default line delimiter is the newline byte. *)
Definition BINARY_NEWLINE : bytes := [x0a].

Module Reader.

Record t (B : Type) := mk {
  _buffer_size : Z;
  _version_id : option string;
  _raw_reader : _SeekableRawReader.t B;
  _current_pos : Z;
  _buffer : ByteBuffer.t;
  _eof : bool;
  _line_terminator : bytes
}.
Arguments mk {B} _ _ _ _ _ _ _.
Arguments _buffer_size {B} _.
Arguments _version_id {B} _.
Arguments _raw_reader {B} _.
Arguments _current_pos {B} _.
Arguments _buffer {B} _.
Arguments _eof {B} _.
Arguments _line_terminator {B} _.

Definition with_raw_reader {B} (r : t B) (raw : _SeekableRawReader.t B) : t B :=
  mk (_buffer_size r) (_version_id r) raw (_current_pos r) (_buffer r) (_eof r)
     (_line_terminator r).

Definition with_current_pos {B} (r : t B) (p : Z) : t B :=
  mk (_buffer_size r) (_version_id r) (_raw_reader r) p (_buffer r) (_eof r)
     (_line_terminator r).

Definition with_buffer {B} (r : t B) (b : ByteBuffer.t) : t B :=
  mk (_buffer_size r) (_version_id r) (_raw_reader r) (_current_pos r) b (_eof r)
     (_line_terminator r).

Definition with_eof {B} (r : t B) (e : bool) : t B :=
  mk (_buffer_size r) (_version_id r) (_raw_reader r) (_current_pos r) (_buffer r) e
     (_line_terminator r).

Section Methods.
Context {W B : Type} (be : ReaderBackend W B).

Local Abbreviation S := (St (t B) W).

(** A method of [self._raw_reader]. *)
Definition raw {A} (m : M (St (_SeekableRawReader.t B) W) A) : M S A :=
  lift_field _raw_reader with_raw_reader m.

Definition set_current_pos (p : Z) : M S unit :=
  self <- get_self ;; set_self (with_current_pos self p).

Definition set_buffer (b : ByteBuffer.t) : M S unit :=
  self <- get_self ;; set_self (with_buffer self b).

Definition set_eof (e : bool) : M S unit :=
  self <- get_self ;; set_self (with_eof self e).

(** Return the current position within the file. *)
Definition tell : M S Z :=
  self <- get_self ;; ret (_current_pos self).

Definition readable : M S bool := ret true.

Definition seekable : M S bool := ret true.


(** Unsupported. *)
Definition detach : M S unit := raise UnsupportedOperation.

(** Seek to the specified position; returns the position after seeking. *)
Definition seek (offset : Z) (whence : Z) : M S Z :=
  self <- get_self ;;
  (* Convert relative offset to absolute, since self._raw_reader
     doesn't know our current position. *)
  let whence' := if whence =? WHENCE_CURRENT then WHENCE_START else whence in
  let offset' := if whence =? WHENCE_CURRENT then offset + _current_pos self else offset in
  p <- raw (_SeekableRawReader.seek be offset' whence') ;;
  set_current_pos p ;;
  self <- get_self ;;
  set_buffer (ByteBuffer.empty (_buffer self)) ;;
  set_eof (match _SeekableRawReader._content_length (_raw_reader self) with
           | Some cl => p =? cl
           | None => false
           end) ;;
  ret p.

Definition __init__ (version_id : option string) (buffer_size : Z)
    (line_terminator : bytes) (defer_seek : bool) : M (St unit W) (t B) :=
  let self := mk buffer_size version_id (_SeekableRawReader.__init__ version_id)
                 0 (ByteBuffer.__init__ buffer_size) false line_terminator in
  fun st =>
    if negb defer_seek then
      let r := seek 0 WHENCE_START (self, snd st) in
      (match fst r with Ok _ => Ok (fst (snd r)) | Raise e => Raise e end,
       (tt, snd (snd r)))
    else (Ok self, st).

(** Remove at most size bytes from our buffer and return them. *)
Definition _read_from_buffer (size : Z) : M S bytes :=
  self <- get_self ;;
  let size := if size >=? 0 then size else ByteBuffer.len (_buffer self) in
  let r := ByteBuffer.read (_buffer self) size in
  set_buffer (snd r) ;;
  self <- get_self ;;
  set_current_pos (_current_pos self + Z.of_nat (length (fst r))) ;;
  ret (fst r).

(** [self._buffer.fill(self._raw_reader)] *)
Definition fill : M S Z :=
  self <- get_self ;;
  new_bytes <- raw (_SeekableRawReader.read be (ByteBuffer._chunk_size (_buffer self))) ;;
  self <- get_self ;;
  set_buffer (ByteBuffer.append (_buffer self) new_bytes) ;;
  ret (Z.of_nat (length new_bytes)).

(** The [while] loop of [_fill_buffer]; every turn either reaches EOF or
    adds a byte, so [n] turns are enough when the buffer is within [n]
    bytes of [size] (see [_fill_buffer_exit]). *)
Fixpoint _fill_buffer_loop (n : nat) (size : Z) : M S unit :=
  match n with
  | O => ret tt
  | Datatypes.S n' =>
      self <- get_self ;;
      if (ByteBuffer.len (_buffer self) <? size) && negb (_eof self) then
        bytes_read <- fill ;;
        (if bytes_read =? 0 then set_eof true else ret tt) ;;
        _fill_buffer_loop n' size
      else ret tt
  end.

Definition _fill_buffer (size : Z) : M S unit :=
  self <- get_self ;;
  let size := Z.max size (ByteBuffer._chunk_size (_buffer self)) in
  _fill_buffer_loop (Z.to_nat (size - ByteBuffer.len (_buffer self))) size.

(** Read up to size bytes from the object and return them. *)
Definition read (size : Z) : M S bytes :=
  if size =? 0 then ret []
  else if size <? 0 then
    (* call read() before setting _current_pos to make sure
       _content_length is set *)
    a <- _read_from_buffer (-1) ;;
    b <- raw (_SeekableRawReader.read be (-1)) ;;
    self <- get_self ;;
    match _SeekableRawReader._content_length (_raw_reader self) with
    | Some cl => set_current_pos cl
    | None => raise TypeError
    end ;;
    ret (a ++ b)
  else
    self <- get_self ;;
    (* Return unused data first *)
    if ByteBuffer.len (_buffer self) >=? size then _read_from_buffer size
    (* If the stream is finished, return what we have. *)
    else if _eof self then _read_from_buffer (-1)
    else _fill_buffer size ;; _read_from_buffer size.

(** This is the same as read(). *)
Definition read1 (size : Z) : M S bytes := read size.

(** The [while] loop of [readline].  A line may span any number of buffer
    fills, so the number of turns is not bounded by the state: [None]
    is the loop still running after [n] turns. *)
Fixpoint readline_loop (n : nat) (line : bytes) : S -> option (Result bytes * S) :=
  fun st =>
    let self := fst st in
    if _eof self && (ByteBuffer.len (_buffer self) =? 0) then Some (Ok line, st)
    else
      match n with
      | O => None
      | Datatypes.S n' =>
          let r := ByteBuffer.readline (_buffer self) (_line_terminator self) in
          let line_part := fst r in
          let st1 :=
            (with_current_pos (with_buffer self (snd r))
               (_current_pos self + Z.of_nat (length line_part)),
             snd st) in
          let line := line ++ line_part in
          if endswith line_part (_line_terminator self) then Some (Ok line, st1)
          else
            match _fill_buffer (-1) st1 with
            | (Ok _, st2) => readline_loop n' line st2
            | (Raise e, st2) => Some (Raise e, st2)
            end
      end.

(** Read up to and including the next newline.  Returns the bytes read. *)
Definition readline (n : nat) (limit : Z) : S -> option (Result bytes * S) :=
  fun st =>
    if negb (limit =? -1) then Some (Raise NotImplementedError, st)
    else readline_loop n [] st.

(** Read up to len(b) bytes into b, and return the number of bytes read.
    The result comes with the contents of [b] after the call:
    [b[:len(data)] = data]. *)
Definition readinto (b : bytes) : M S (Z * bytes) :=
  data <- read (Z.of_nat (length b)) ;;
  match data with
  | [] => ret (0, b)
  | _ :: _ => ret (Z.of_nat (length data), data ++ skipn (length data) b)
  end.

(** Do nothing. *)
Definition terminate : M S unit := ret tt.
End Methods.
End Reader.

(** ** Retrying *)

Definition _UPLOAD_ATTEMPTS : Z := 6.
Definition _SLEEP_SECONDS : Z := 10.

(** [time.sleep(seconds)]; a negative length is a [ValueError]. *)
Definition time_sleep {O W} (seconds : Z) : M (St O W) unit :=
  if seconds <? 0 then raise ValueError else emit (EvSleep seconds).

Section Retry.
Context {Obj W A : Type}.
Variable partial : M (St Obj W) A.
Variable sleep_seconds : Z.
Variable exceptions : list ExnClass.

(** [for attempt in range(n): ... else: raise IOError(...)] *)
Fixpoint _retry_loop (n : nat) : M (St Obj W) A :=
  match n with
  | O => raise (IOError None)
  | S n' =>
      try_except partial
        (fun e => isinstance_any e exceptions)
        (fun _ => time_sleep sleep_seconds ;; _retry_loop n')
  end.
End Retry.

Definition _retry_if_failed {O W A} (partial : M (St O W) A) (attempts : Z)
    (sleep_seconds : Z) (exceptions : option (list ExnClass)) : M (St O W) A :=
  let exceptions := match exceptions with
                    | None => [C_EndpointConnectionError]
                    | Some l => l
                    end in
  _retry_loop partial sleep_seconds exceptions (Z.to_nat attempts).

(** ** The store as seen by a multipart writer *)

(** [initiate_multipart_upload], [mp.Part(n).upload(Body=...)] (the response
    dictionary is reduced to its 'ETag' entry, if it has one),
    [mp.complete(MultipartUpload={'Parts': ...})], [mp.abort()] and
    [s3_object.put(Body=...)]. *)
Record WriterBackend (W MP : Type) := {
  initiate_multipart_upload : W -> Result MP * W;
  part_upload : MP -> Z -> bytes -> W -> Result (option string) * W;
  mp_complete : MP -> list PartDict -> W -> Result unit * W;
  mp_abort : MP -> W -> Result unit * W;
  object_put : bytes -> W -> Result unit * W
}.
Arguments initiate_multipart_upload {W MP} _ _.
Arguments part_upload {W MP} _ _ _ _ _.
Arguments mp_complete {W MP} _ _ _ _.
Arguments mp_abort {W MP} _ _ _.
Arguments object_put {W MP} _ _ _.

Definition DEFAULT_MIN_PART_SIZE : Z := 50 * 1024 ^ 2.
Definition MIN_MIN_PART_SIZE : Z := 5 * 1024 ^ 2.

Module MultipartWriter.

Record t (MP : Type) := mk {
  _min_part_size : Z;
  _mp : option MP;
  _buf : BytesIO;
  _total_bytes : Z;
  _total_parts : Z;
  _parts : list PartDict
}.
Arguments mk {MP} _ _ _ _ _ _.
Arguments _min_part_size {MP} _.
Arguments _mp {MP} _.
Arguments _buf {MP} _.
Arguments _total_bytes {MP} _.
Arguments _total_parts {MP} _.
Arguments _parts {MP} _.

Definition with_mp {MP} (s : t MP) (mp : option MP) : t MP :=
  mk (_min_part_size s) mp (_buf s) (_total_bytes s) (_total_parts s) (_parts s).

Definition with_buf {MP} (s : t MP) (b : BytesIO) : t MP :=
  mk (_min_part_size s) (_mp s) b (_total_bytes s) (_total_parts s) (_parts s).

Definition with_total_bytes {MP} (s : t MP) (n : Z) : t MP :=
  mk (_min_part_size s) (_mp s) (_buf s) n (_total_parts s) (_parts s).

Definition with_total_parts {MP} (s : t MP) (n : Z) : t MP :=
  mk (_min_part_size s) (_mp s) (_buf s) (_total_bytes s) n (_parts s).

Definition with_parts {MP} (s : t MP) (ps : list PartDict) : t MP :=
  mk (_min_part_size s) (_mp s) (_buf s) (_total_bytes s) (_total_parts s) ps.

Section Methods.
Context {W MP : Type} (be : WriterBackend W MP).

Local Abbreviation S := (St (t MP) W).

Definition __init__ (min_part_size : Z) : M (St unit W) (t MP) :=
  mp <- try_except
          (_retry_if_failed
             (call EvInitiateMultipartUpload (initiate_multipart_upload be))
             _UPLOAD_ATTEMPTS _SLEEP_SECONDS None)
          (fun e => isinstance e C_ClientError)
          (fun _ => raise ValueError) ;;
  ret (mk min_part_size (Some mp) BytesIO_new 0 0 []).

Definition closed : M S bool :=
  self <- get_self ;;
  ret (match _mp self with None => true | Some _ => false end).

(** Return True if the stream supports writing. *)
Definition writable : M S bool := ret true.

(** Return the current stream position. *)
Definition tell : M S Z :=
  self <- get_self ;; ret (_total_bytes self).

Definition detach : M S unit := raise UnsupportedOperation.

Definition _upload_next_part : M S unit :=
  self <- get_self ;;
  let part_num := _total_parts self + 1 in
  set_self (with_buf self (bio_seek0 (_buf self))) ;;
  match _mp self with
  | None => raise AttributeError
  | Some mp =>
      (* Network problems in the middle of an upload are particularly
         troublesome, so this part needs to be especially robust. *)
      upload <- _retry_if_failed
                  (self <- get_self ;;
                   let body := bio_remaining (_buf self) in
                   call (EvUploadPart part_num body) (part_upload be mp part_num body))
                  _UPLOAD_ATTEMPTS _SLEEP_SECONDS None ;;
      match upload with
      | None => raise KeyError
      | Some etag =>
          self <- get_self ;;
          set_self (with_parts self
                      (_parts self ++ [{| ETag := etag; PartNumber := part_num |}])) ;;
          self <- get_self ;;
          set_self (with_total_parts self (_total_parts self + 1)) ;;
          self <- get_self ;;
          set_self (with_buf self BytesIO_new)
      end
  end.

Definition close : M S unit :=
  self <- get_self ;;
  (if negb (bio_tell (_buf self) =? 0) then _upload_next_part else ret tt) ;;
  self <- get_self ;;
  match _mp self with
  | Some mp =>
      if negb (_total_bytes self =? 0) then
        _retry_if_failed
          (self <- get_self ;;
           call (EvComplete (_parts self)) (mp_complete be mp (_parts self)))
          _UPLOAD_ATTEMPTS _SLEEP_SECONDS None
      else
        (* AWS complains when the input is completely empty => abort the
           upload, no file created.  We work around this by creating an
           empty file explicitly. *)
        call EvAbort (mp_abort be mp) ;;
        call (EvPut []) (object_put be [])
  | None => ret tt
  end ;;
  self <- get_self ;;
  set_self (with_mp self None).

(** Write the given buffer to the S3 file. *)
Definition write (b : bytes) : M S Z :=
  self <- get_self ;;
  let r := bio_write (_buf self) b in
  let length := fst r in
  set_self (with_buf self (snd r)) ;;
  self <- get_self ;;
  set_self (with_total_bytes self (_total_bytes self + length)) ;;
  self <- get_self ;;
  (if bio_tell (_buf self) >=? _min_part_size self then _upload_next_part
   else ret tt) ;;
  ret length.

(** Cancel the underlying multipart upload. *)
Definition terminate : M S unit :=
  self <- get_self ;;
  match _mp self with
  | None => raise AssertionError
  | Some mp =>
      call EvAbort (mp_abort be mp) ;;
      self <- get_self ;;
      set_self (with_mp self None)
  end.

Definition __exit__ (exc : option Exn) : M S unit :=
  match exc with
  | Some _ => terminate
  | None => close
  end.
End Methods.
End MultipartWriter.

(** ** Bulk download *)

(** The response of [client.list_objects_v2]: the keys of its 'Contents'
    entries and the continuation token, each possibly absent. *)
Record ListResponse := {
  Contents : option (list string);
  NextContinuationToken : option string
}.

Record BucketBackend (W : Type) := {
  list_objects_v2 : string -> option string -> W -> Result ListResponse * W;
  download_fileobj : string -> W -> Result bytes * W
}.
Arguments list_objects_v2 {W} _ _ _ _.
Arguments download_fileobj {W} _ _ _.

Definition _accept_all (key : string) : bool := true.

(** Truth value of a token: [None] and the empty string are false. *)
Definition token_truthy (t : option string) : bool :=
  match t with
  | Some s => negb (String.eqb s "")
  | None => false
  end.

Section Bucket.
Context {W : Type} (be : BucketBackend W).

Local Abbreviation S := (St unit W).

(** The generator [_list_bucket], run to exhaustion: all keys it yields.
    One turn of its [while True] per page; [None] is the loop still running
    after [n] pages. *)
Fixpoint _list_bucket (n : nat) (prefix : string) (accept_key : string -> bool)
    (ctoken : option string) : S -> option (Result (list string) * S) :=
  fun st =>
    match n with
    | O => None
    | Datatypes.S n' =>
        let token := if token_truthy ctoken then ctoken else None in
        match call (EvListObjects prefix token) (list_objects_v2 be prefix token) st with
        | (Raise e, st1) => Some (Raise e, st1)
        | (Ok response, st1) =>
            let keys := match Contents response with
                        | Some content => filter accept_key content
                        | None => []
                        end in
            let ctoken := NextContinuationToken response in
            if negb (token_truthy ctoken) then Some (Ok keys, st1)
            else
              match _list_bucket n' prefix accept_key ctoken st1 with
              | Some (Ok more, st2) => Some (Ok (keys ++ more), st2)
              | other => other
              end
        end
    end.

Definition _download_fileobj (key_name : string) : M S bytes :=
  call (EvDownload key_name) (download_fileobj be key_name).

(** [for x in range(retries + 1)] of [_download_key], [n] turns left. *)
Fixpoint _download_key_loop (n : nat) (x : Z) (key_name : string) (retries : Z)
    : M S (option (string * bytes)) :=
  match n with
  | O => ret None
  | Datatypes.S n' =>
      try_except
        (content_bytes <- _download_fileobj key_name ;;
         ret (Some (key_name, content_bytes)))
        (fun e => isinstance e C_ClientError)
        (fun e =>
           (* Actually fail on last pass through the loop *)
           if x =? retries then raise e
           (* Otherwise, try again, as this might be a transient timeout *)
           else _download_key_loop n' (x + 1) key_name retries)
  end.

Definition _download_key (key_name : string) (bucket_name : option string)
    (retries : Z) : M S (option (string * bytes)) :=
  match bucket_name with
  | None => raise ValueError
  | Some _ => _download_key_loop (Z.to_nat (retries + 1)) 0 key_name retries
  end.

(** The [for ... in enumerate(result_iterator)] loop of [iter_bucket] over
    the results still to be delivered, in the order the pool delivers them.
    Returns the pairs yielded. *)
Fixpoint iter_results (pending : list string) (key_no : Z) (bucket_name : string)
    (key_limit : option Z) (retries : Z) : M S (list (string * bytes)) :=
  match pending with
  | [] => ret []
  | key_name :: rest =>
      emit EvNextResult ;;
      result <- _download_key key_name (Some bucket_name) retries ;;
      match result with
      | None => raise TypeError
      | Some (key, content) =>
          if match key_limit with
             | Some limit => key_no + 1 >=? limit
             | None => false
             end
          then
            (* we were asked to output only a limited number of keys *)
            ret [(key, content)]
          else
            more <- iter_results rest (key_no + 1) bucket_name key_limit retries ;;
            ret ((key, content) :: more)
      end
  end.

(** Modelled from the spec: [smart_open.concurrency.create_pool] is not
    under src/.  Section 4.6: a fixed-size worker pool consumes the listed
    keys and delivers each result once, in completion order, which need not
    be the listing order; the pool is torn down when the scope is left.
    The completion order is the parameter [order]; a download is accounted
    for when its result is delivered. *)
Definition iter_bucket (order : list string -> list string) (pages : nat)
    (bucket_name : string) (prefix : string) (accept_key : option (string -> bool))
    (key_limit : option Z) (workers : Z) (retries : Z)
    : S -> option (Result (list (string * bytes)) * S) :=
  fun st =>
    let accept_key := match accept_key with
                      | None => _accept_all
                      | Some f => f
                      end in
    let st0 := snd (emit (EvPoolCreate workers) st) in
    match _list_bucket pages prefix accept_key None st0 with
    | None => None
    | Some (Raise e, st1) => Some (Raise e, st1)
    | Some (Ok keys, st1) =>
        Some ((out <- iter_results (order keys) 0 bucket_name key_limit retries ;;
               emit EvPoolTerminate ;;
               ret out) st1)
    end.
End Bucket.

(** ** The store as seen by a single-part writer *)

(** [s3.meta.client.head_bucket(Bucket=bucket)] and
    [s3_object.put(Body=..., **upload_kwargs)]. *)
Record SinglepartBackend (W : Type) := {
  head_bucket : W -> Result unit * W;
  put_object : bytes -> W -> Result unit * W
}.
Arguments head_bucket {W} _ _.
Arguments put_object {W} _ _ _.

(** A call that concerns no object: it is answered by the world, and the
    trace, which lists the traffic about objects, does not record it. *)
Definition probe {O W A} (f : W -> Result A * W) : M (St O W) A :=
  fun s =>
    let r := f (world (snd s)) in
    (fst r, (fst s, {| world := snd r; trace := trace (snd s) |})).

Module SinglepartWriter.

Record t := mk {
  _buf : option BytesIO;
  _total_bytes : Z
}.

Definition with_buf (s : t) (b : option BytesIO) : t := mk b (_total_bytes s).

Definition with_total_bytes (s : t) (n : Z) : t := mk (_buf s) n.

Section Methods.
Context {W : Type} (be : SinglepartBackend W).

Local Abbreviation S := (St t W).

Definition __init__ : M (St unit W) t :=
  try_except (probe (head_bucket be))
    (fun e => isinstance e C_ClientError)
    (fun _ => raise ValueError) ;;
  ret (mk (Some BytesIO_new) 0).

Definition flush : M S unit := ret tt.

Definition close : M S unit :=
  self <- get_self ;;
  match _buf self with
  | None => ret tt
  | Some buf =>
      set_self (with_buf self (Some (bio_seek0 buf))) ;;
      try_except
        (self <- get_self ;;
         let body := match _buf self with
                     | Some buf => bio_remaining buf
                     | None => []
                     end in
         call (EvPut body) (put_object be body))
        (fun e => isinstance e C_ClientError)
        (fun _ => raise ValueError) ;;
      self <- get_self ;;
      set_self (with_buf self None)
  end.

Definition closed : M S bool :=
  self <- get_self ;;
  ret (match _buf self with None => true | Some _ => false end).

(** Return True if the stream supports writing. *)
Definition writable : M S bool := ret true.

(** Return the current stream position. *)
Definition tell : M S Z :=
  self <- get_self ;; ret (_total_bytes self).

Definition detach : M S unit := raise UnsupportedOperation.

(** Write the given buffer into the buffer.  Content of the buffer will be
    written to S3 on close as a single-part upload. *)
Definition write (b : bytes) : M S Z :=
  self <- get_self ;;
  match _buf self with
  | None => raise AttributeError
  | Some buf =>
      let r := bio_write buf b in
      let length := fst r in
      set_self (with_buf self (Some (snd r))) ;;
      self <- get_self ;;
      set_self (with_total_bytes self (_total_bytes self + length)) ;;
      ret length
  end.

(** Nothing to cancel in single-part uploads. *)
Definition terminate : M S unit := ret tt.

Definition __exit__ (exc : option Exn) : M S unit :=
  match exc with
  | Some _ => terminate
  | None => close
  end.
End Methods.
End SinglepartWriter.


(** ** URLs (lines 49-140) *)

Definition SCHEMES : list string := ["s3"; "s3n"; "s3u"; "s3a"]%string.
Definition DEFAULT_PORT : Z := 443.
Definition DEFAULT_HOST : string := "s3.amazonaws.com".

Record Uri := {
  scheme : string;
  bucket_id : string;
  key_id : string;
  port : Z;
  host : string;
  ordinary_calling_format : bool;
  access_id : option string;
  access_secret : option string
}.

(** What [parse_uri] reads of the result of [urllib.parse.urlsplit]. *)
Module SplitResult.
Record t := mk {
  scheme : string;
  netloc : string;
  path : string
}.
End SplitResult.

(** Python's [str] operations, for a separator of one character. *)
Module Str.

(** [sep in s] *)
Fixpoint contains (sep : ascii) (s : string) : bool :=
  match s with
  | EmptyString => false
  | String c rest => Ascii.eqb c sep || contains sep rest
  end.

(** [s.split(sep)] *)
Fixpoint split (sep : ascii) (s : string) : list string :=
  match s with
  | EmptyString => [EmptyString]
  | String c rest =>
      if Ascii.eqb c sep then EmptyString :: split sep rest
      else match split sep rest with
           | first :: others => String c first :: others
           | [] => [String c EmptyString]
           end
  end.

(** [s.split(sep, 1)] *)
Fixpoint split1 (sep : ascii) (s : string) : list string :=
  match s with
  | EmptyString => [EmptyString]
  | String c rest =>
      if Ascii.eqb c sep then [EmptyString; rest]
      else match split1 sep rest with
           | first :: others => String c first :: others
           | [] => [String c EmptyString]
           end
  end.

(** [a, b = parts]: [ValueError] unless there are exactly two. *)
Definition unpack2 (parts : list string) : Result (string * string) :=
  match parts with
  | [a; b] => Ok (a, b)
  | _ => Raise ValueError
  end.

End Str.

(** The rest of the function once [r] has returned. *)
Definition and_then {A B} (r : Result A) (k : A -> Result B) : Result B :=
  match r with
  | Ok a => k a
  | Raise e => Raise e
  end.

Section ParseUri.
(** [smart_open.utils.safe_urlsplit] and the builtin [int] applied to a
    [str]. *)
Context (safe_urlsplit : string -> Result SplitResult.t) (int : string -> Result Z).

Definition parse_uri (uri_as_string : string) : Result Uri :=
  and_then (safe_urlsplit uri_as_string) (fun split_uri =>
  if negb (existsb (String.eqb (SplitResult.scheme split_uri)) SCHEMES)
  then Raise AssertionError else
  let port := DEFAULT_PORT in
  let host := DEFAULT_HOST in
  let ordinary_calling_format := false in
  (* These defaults tell boto3 to look for credentials elsewhere *)
  let access_id := @None string in
  let access_secret := @None string in
  (* Common URI template [secret:key@][host[:port]@]bucket/object *)
  let uri := (SplitResult.netloc split_uri ++ SplitResult.path split_uri)%string in
  and_then
    (if Str.contains "@" uri && Str.contains ":" (hd EmptyString (Str.split "@" uri))
     then and_then (Str.unpack2 (Str.split1 "@" uri)) (fun '(auth, uri) =>
          and_then (Str.unpack2 (Str.split ":" auth)) (fun '(access_id, access_secret) =>
          Ok (Some access_id, Some access_secret, uri)))
     else Ok (access_id, access_secret, uri))
    (fun '(access_id, access_secret, uri) =>
  and_then (Str.unpack2 (Str.split1 "/" uri)) (fun '(head, key_id) =>
  and_then
    (if Str.contains "@" head && Str.contains ":" head then
       let ordinary_calling_format := true in
       and_then (Str.unpack2 (Str.split "@" head)) (fun '(host_port, bucket_id) =>
       and_then (Str.unpack2 (Str.split1 ":" host_port)) (fun '(host, port_str) =>
       and_then (int port_str) (fun port =>
       Ok (ordinary_calling_format, host, port, bucket_id))))
     else if Str.contains "@" head then
       let ordinary_calling_format := true in
       and_then (Str.unpack2 (Str.split "@" head)) (fun '(host, bucket_id) =>
       Ok (ordinary_calling_format, host, port, bucket_id))
     else
       let bucket_id := head in
       Ok (ordinary_calling_format, host, port, bucket_id))
    (fun '(ordinary_calling_format, host, port, bucket_id) =>
  Ok {| scheme := SplitResult.scheme split_uri;
        bucket_id := bucket_id;
        key_id := key_id;
        port := port;
        host := host;
        ordinary_calling_format := ordinary_calling_format;
        access_id := access_id;
        access_secret := access_secret |})))).

End ParseUri.

(** ** A simulated store

    One object behind a handle, served with HTTP range semantics, with
    injectable faults: connections that drop in the middle of a body and
    requests that do not reach the endpoint.  It instantiates the backends
    above, so that the embedding can be run. *)

Module Sim.

Record World := {
  object : option bytes;         (* the object's content, if it exists *)
  uploads : list (Z * bytes);    (* parts of the open multipart session *)
  interruptions : list bool;     (* upcoming body reads: [true] drops *)
  unreachable : nat;             (* upcoming requests that cannot connect *)
  size_hint : bool               (* 416 responses carry ActualObjectSize *)
}.

Definition with_object (w : World) (o : option bytes) : World :=
  {| object := o; uploads := uploads w; interruptions := interruptions w;
     unreachable := unreachable w; size_hint := size_hint w |}.

Definition with_uploads (w : World) (u : list (Z * bytes)) : World :=
  {| object := object w; uploads := u; interruptions := interruptions w;
     unreachable := unreachable w; size_hint := size_hint w |}.

Definition with_interruptions (w : World) (i : list bool) : World :=
  {| object := object w; uploads := uploads w; interruptions := i;
     unreachable := unreachable w; size_hint := size_hint w |}.

Definition with_unreachable (w : World) (n : nat) : World :=
  {| object := object w; uploads := uploads w; interruptions := interruptions w;
     unreachable := n; size_hint := size_hint w |}.


(** A store holding [data], without faults. *)
Definition holding (data : bytes) : World :=
  {| object := Some data; uploads := []; interruptions := []; unreachable := 0;
     size_hint := true |}.

Definition vacant : World :=
  {| object := None; uploads := []; interruptions := []; unreachable := 0;
     size_hint := true |}.

(** [data[a:b+1]] *)
Definition slice (data : bytes) (a b : Z) : bytes :=
  firstn (Z.to_nat (b - a + 1)) (skipn (Z.to_nat a) data).

Definition not_satisfiable (w : World) (n : Z) : Exn :=
  ClientError (Some {| Message := Some _OUT_OF_RANGE;
                       ActualObjectSize := if size_hint w then Some (IntLike n) else None |}).

Definition no_such_key : Exn :=
  ClientError (Some {| Message := Some "The specified key does not exist."%string;
                       ActualObjectSize := None |}).

Definition partial_content (data : bytes) (a b : Z) : GetResponse bytes :=
  {| ContentRange := Some (ContentRangeOf "bytes" a b (Z.of_nat (length data)));
     Body := slice data a b;
     ContentLength := Some (b - a + 1) |}.

Definition get (version : option string) (range : option RangeHeader) (w : World)
  : Result (GetResponse bytes) * World :=
  match unreachable w with
  | S k => (Raise EndpointConnectionError, with_unreachable w k)
  | O =>
      match object w with
      | None => (Raise no_such_key, w)
      | Some data =>
          let n := Z.of_nat (length data) in
          match range with
          | Some {| range_start := Some a; range_stop := stop |} =>
              if a >=? n then (Raise (not_satisfiable w n), w)
              else
                let b := match stop with
                         | Some s => Z.min s (n - 1)
                         | None => n - 1
                         end in
                (Ok (partial_content data a b), w)
          | Some {| range_start := None; range_stop := Some k |} =>
              if (k =? 0) || (n =? 0) then (Raise (not_satisfiable w n), w)
              else (Ok (partial_content data (Z.max 0 (n - k)) (n - 1)), w)
          | _ =>
              (Ok {| ContentRange := None; Body := data; ContentLength := Some n |}, w)
          end
      end
  end.

Definition stream_read (b : bytes) (amt : option Z) (w : World)
  : (Result bytes * bytes) * World :=
  let served :=
    match amt with
    | None => (Ok b, [])
    | Some n => if n <? 0 then (Ok b, [])
                else (Ok (firstn (Z.to_nat n) b), skipn (Z.to_nat n) b)
    end in
  match interruptions w with
  | true :: rest => ((Raise IncompleteReadError, b), with_interruptions w rest)
  | false :: rest => (served, with_interruptions w rest)
  | [] => (served, w)
  end.

Definition reader : ReaderBackend World bytes :=
  {| object_get := get;
     body_read := stream_read;
     body_close := fun _ w => w |}.

(** The ETag the store hands out for a part: here a name made of the part
    number. *)
Definition etag_of (n : Z) : string :=
  String.append "etag-" (NilZero.string_of_int (Z.to_int n)).

Definition connecting {A} (w : World) (k : World -> Result A * World)
  : Result A * World :=
  match unreachable w with
  | S n => (Raise EndpointConnectionError, with_unreachable w n)
  | O => k w
  end.

Fixpoint part_body (u : list (Z * bytes)) (n : Z) : option bytes :=
  match u with
  | [] => None
  | (m, b) :: u' => if m =? n then Some b else part_body u' n
  end.

(** The object assembled from the listed parts; [None] if a part was never
    uploaded or its ETag does not match. *)
Fixpoint assemble (u : list (Z * bytes)) (parts : list PartDict) : option bytes :=
  match parts with
  | [] => Some []
  | p :: ps =>
      match part_body u (PartNumber p), assemble u ps with
      | Some b, Some rest =>
          if String.eqb (ETag p) (etag_of (PartNumber p)) then Some (b ++ rest) else None
      | _, _ => None
      end
  end.

Definition rejected (msg : string) : Exn :=
  ClientError (Some {| Message := Some msg; ActualObjectSize := None |}).

Definition writer : WriterBackend World unit :=
  {| initiate_multipart_upload := fun w =>
       connecting w (fun w => (Ok tt, with_uploads w []));
     part_upload := fun _ n body w =>
       connecting w (fun w => (Ok (Some (etag_of n)), with_uploads w ((n, body) :: uploads w)));
     mp_complete := fun _ parts w =>
       connecting w (fun w =>
         match parts, assemble (uploads w) parts with
         | [], _ => (Raise (rejected "The XML you provided was not well-formed"), w)
         | _, None => (Raise (rejected "One or more of the specified parts could not be found"), w)
         | _, Some data => (Ok tt, with_uploads (with_object w (Some data)) [])
         end);
     mp_abort := fun _ w => connecting w (fun w => (Ok tt, with_uploads w []));
     object_put := fun body w => connecting w (fun w => (Ok tt, with_object w (Some body))) |}.

(** A bucket: keys with their contents, listed [page_size] keys at a time;
    the continuation token is the last key of the previous page. *)
Record Bucket := {
  entries : list (string * bytes);
  page_size : nat;
  transient : list bool          (* upcoming downloads: [true] fails *)
}.

Fixpoint after (t : string) (keys : list string) : list string :=
  match keys with
  | [] => []
  | k :: ks => if String.eqb k t then ks else after t ks
  end.

Definition list_page (prefix : string) (token : option string) (w : Bucket)
  : Result ListResponse * Bucket :=
  let all := filter (String.prefix prefix) (map fst (entries w)) in
  let rest := match token with
              | Some t => after t all
              | None => all
              end in
  let page := firstn (page_size w) rest in
  (Ok {| Contents := match page with [] => None | _ => Some page end;
         NextContinuationToken :=
           match skipn (page_size w) rest with
           | [] => None
           | _ => Some (last page ""%string)
           end |}, w).

Fixpoint lookup (key : string) (es : list (string * bytes)) : option bytes :=
  match es with
  | [] => None
  | (k, c) :: es' => if String.eqb k key then Some c else lookup key es'
  end.

Definition download (key : string) (w : Bucket) : Result bytes * Bucket :=
  let served := match lookup key (entries w) with
                | Some c => Ok c
                | None => Raise no_such_key
                end in
  match transient w with
  | true :: rest =>
      (Raise (rejected "RequestTimeout"),
       {| entries := entries w; page_size := page_size w; transient := rest |})
  | false :: rest =>
      (served, {| entries := entries w; page_size := page_size w; transient := rest |})
  | [] => (served, w)
  end.

Definition bucket : BucketBackend Bucket :=
  {| list_objects_v2 := list_page; download_fileobj := download |}.

End Sim.

(** * Vocabulary of the statements

    States, predicates and relations the properties below are stated with,
    and the concrete inputs they are tried on. *)

Module RawReaderSpec.
Import _SeekableRawReader.

Section Vocabulary.
Context {W B : Type} (be : ReaderBackend W B).

(** The network after closing the body held by a reader, if any: a local
    matter for [io.BytesIO], the end of the connection for a response
    body; no request either way. *)
Definition after_close (b : option (BodyObj B)) (n : Net W) : Net W :=
  match b with
  | Some (StreamingBody s) =>
      {| world := body_close be s (world n); trace := trace n ++ [EvBodyClose] |}
  | _ => n
  end.

(** The state of a reader known to be at the end of the object. *)
Definition at_eof (self : t B) (cl : Z) : t B :=
  mk (Some cl) (_version_id self) cl (Some (BytesIOBody BytesIO_new)).

(** The range [_open_body] asks for. *)
Definition requested_range (self : t B) (start stop : option Z) : RangeHeader :=
  make_range_string
    (match start, stop with
     | None, None => Some (_position self)
     | _, _ => start
     end) stop.

(** What [_get] raises for what the store raised. *)
Definition wrapped (e : Exn) : Exn :=
  match e with
  | ClientError r => IOError (Some r)
  | _ => e
  end.

Definition amount (size : Z) : option Z := if size =? -1 then None else Some size.

End Vocabulary.

Definition digits : bytes := list_byte_of_string "0123456789".

(** A reader freshly made for the simulated object. *)
Definition fresh (w : Sim.World) : St (t bytes) Sim.World := (__init__ None, net0 w).

(** A reader on the simulated object [data], opened at [p] < length, with
    the interruptions [i] still to come. *)
Definition positioned (data : bytes) (p : Z) (i : list bool) : St (t bytes) Sim.World :=
  (mk (Some (Z.of_nat (length data))) None p
      (Some (StreamingBody (skipn (Z.to_nat p) data))),
   net0 (Sim.with_interruptions (Sim.holding data) i)).

(** The bytes [read(size)] is asked for at position [p]. *)
Definition requested (data : bytes) (p size : Z) : bytes :=
  if size <? 0 then skipn (Z.to_nat p) data
  else firstn (Z.to_nat size) (skipn (Z.to_nat p) data).

(** The states of a raw reader on the simulated object [data] without
    faults to come: nothing open yet, a response body holding the bytes from
    the position on, or the empty body of the EOF state. *)
Definition sim_inv (data : bytes) (rst : St (t bytes) Sim.World) : Prop :=
  Sim.object (world (snd rst)) = Some data
  /\ Sim.unreachable (world (snd rst)) = O
  /\ Sim.interruptions (world (snd rst)) = []
  /\ 0 <= _position (fst rst)
  /\ match _body (fst rst) with
     | None => True
     | Some (StreamingBody rem) =>
         _content_length (fst rst) = Some (Z.of_nat (length data))
         /\ rem = skipn (Z.to_nat (_position (fst rst))) data
     | Some (BytesIOBody b) =>
         exists cl, _content_length (fst rst) = Some cl /\ cl <= _position (fst rst)
     end.

(** The bytes between the position and the end of the object. *)
Definition sim_mu (data : bytes) (rst : St (t bytes) Sim.World) : nat :=
  Z.to_nat (Z.of_nat (length data) - _position (fst rst)).

End RawReaderSpec.

Module ReaderSpec.
Import Reader.

Section Vocabulary.
Context {W B : Type} (be : ReaderBackend W B).

(** What the buffer-filling code leaves alone: the logical position and the
    delimiter. *)
Definition cursor (st : St (t B) W) : Z * bytes :=
  (_current_pos (fst st), _line_terminator (fst st)).


(** The raw reader of a buffered reader, with the network. *)
Definition raw_state (st : St (t B) W) : St (_SeekableRawReader.t B) W :=
  (_raw_reader (fst st), snd st).

Definition chunk (st : St (t B) W) : Z := ByteBuffer._chunk_size (_buffer (fst st)).

(** The raw reader makes progress: in the states [I], which it does not
    leave, a read of [size] bytes that returns bytes lowers the measure
    [mu], and no read raises it. *)
Definition progresses (I : St (_SeekableRawReader.t B) W -> Prop)
    (mu : St (_SeekableRawReader.t B) W -> nat) (size : Z) : Prop :=
  forall rst, I rst ->
    match _SeekableRawReader.read be size rst with
    | (Ok binary, rst') =>
        I rst' /\ (mu rst' <= mu rst)%nat /\ (binary = [] \/ (mu rst' < mu rst)%nat)
    | (Raise _, _) => True
    end.

End Vocabulary.


Definition opened (w : Sim.World) (buffer_size : Z) : St (t bytes) Sim.World :=
  match @__init__ Sim.World bytes Sim.reader None buffer_size BINARY_NEWLINE false
          (tt, net0 w) with
  | (Ok self, st) => (self, snd st)
  | (Raise _, st) =>
      (mk buffer_size None (_SeekableRawReader.__init__ None) 0
          (ByteBuffer.__init__ buffer_size) false BINARY_NEWLINE, snd st)
  end.

End ReaderSpec.

Module RetrySpec.

Section Vocabulary.
Context {Obj W A : Type}.
Variable partial : M (St Obj W) A.
Variable sleep_seconds : Z.
Variable exceptions : list ExnClass.

Definition slept (st : St Obj W) : St Obj W :=
  snd (emit (EvSleep sleep_seconds) st).

(** [retried k st st']: starting in [st] the operation was invoked [k] times,
    each invocation raised an exception of the retryable set and was followed
    by one sleep of [sleep_seconds]; [st'] is the state after the last
    sleep. *)
Inductive retried : nat -> St Obj W -> St Obj W -> Prop :=
| retried_none (st : St Obj W) : retried O st st
| retried_again (k : nat) (st st1 st2 : St Obj W) (e : Exn) :
    partial st = (Raise e, st1) ->
    isinstance_any e exceptions = true ->
    retried k (slept st1) st2 ->
    retried (S k) st st2.

End Vocabulary.

(** Starting a multipart upload on the simulated store. *)
Definition initiate : M (St unit Sim.World) unit :=
  call EvInitiateMultipartUpload (initiate_multipart_upload Sim.writer).

(** The store is there, but the next [n] requests cannot reach it. *)
Definition offline (n : nat) : St unit Sim.World :=
  (tt, net0 (Sim.with_unreachable Sim.vacant n)).

End RetrySpec.

Module WriterSpec.
Import MultipartWriter.

Section Vocabulary.
Context {W MP : Type} (be : WriterBackend W MP).

(** The writer after its staged bytes went out as part [_total_parts + 1]. *)
Definition flushed (self : t MP) (etag : string) : t MP :=
  mk (_min_part_size self) (_mp self) BytesIO_new (_total_bytes self)
     (_total_parts self + 1)
     (_parts self ++ [{| ETag := etag; PartNumber := _total_parts self + 1 |}]).

(** The second phase of [close]: completion, or the empty-object fallback. *)
Definition finish (self : t MP) : M (St (t MP) W) unit :=
  match _mp self with
  | Some mp =>
      if negb (_total_bytes self =? 0) then
        _retry_if_failed
          (bind get_self (fun self =>
             call (EvComplete (_parts self)) (mp_complete be mp (_parts self))))
          _UPLOAD_ATTEMPTS _SLEEP_SECONDS None
      else
        bind (call EvAbort (mp_abort be mp)) (fun _ => call (EvPut []) (object_put be []))
  | None => ret tt
  end.

(** The staged bytes are among the bytes written. *)
Definition staged (st : St (t MP) W) : Prop :=
  bio_tell (_buf (fst st)) <= _total_bytes (fst st).

End Vocabulary.

(** A writer freshly constructed on the simulated store. *)
Definition created (min_part_size : Z) (w : Sim.World) : St (t unit) Sim.World :=
  match @__init__ Sim.World unit Sim.writer min_part_size (tt, net0 w) with
  | (Ok self, st) => (self, snd st)
  | (Raise _, st) => (mk min_part_size None BytesIO_new 0 0 [], snd st)
  end.

Definition abc : bytes := list_byte_of_string "abc".

End WriterSpec.

Module BucketSpec.

Section Vocabulary.
Context {W : Type} (be : BucketBackend W).




End Vocabulary.

(** Ten objects under one prefix, listed four at a time. *)
Definition ten_keys : list string :=
  ["k0"; "k1"; "k2"; "k3"; "k4"; "k5"; "k6"; "k7"; "k8"; "k9"]%string.

Definition ten : Sim.Bucket :=
  {| Sim.entries := map (fun k => (k, list_byte_of_string k)) ten_keys;
     Sim.page_size := 4;
     Sim.transient := [] |}.

End BucketSpec.

Module SinglepartSpec.
Import SinglepartWriter.

Section Vocabulary.
Context {W : Type} (be : SinglepartBackend W).

(** A client that writes the chunks [chunks] one after the other. *)
Fixpoint write_all (chunks : list bytes) : M (St t W) unit :=
  match chunks with
  | [] => ret tt
  | b :: rest => write b ;; write_all rest
  end.

(** The staging buffer is written sequentially: its position is its end. *)
Definition appending (self : t) : Prop :=
  match _buf self with
  | Some buf => bio_pos buf = length (bio_data buf)
  | None => True
  end.

(** What [close] raises for what the put raised. *)
Definition close_error (e : Exn) : Exn :=
  if isinstance e C_ClientError then ValueError else e.

End Vocabulary.

(** The simulated store behind a single-part writer; the bucket exists. *)
Definition store : SinglepartBackend Sim.World :=
  {| head_bucket := fun w => Sim.connecting w (fun w => (Ok tt, w));
     put_object := object_put Sim.writer |}.

(** The same store when the bucket cannot be accessed. *)
Definition forbidden : SinglepartBackend Sim.World :=
  {| head_bucket := fun w => (Raise (Sim.rejected "Forbidden"), w);
     put_object := fun _ w => (Raise (Sim.rejected "Forbidden"), w) |}.

Definition hello : bytes := list_byte_of_string "hello, ".
Definition world_ : bytes := list_byte_of_string "world".

End SinglepartSpec.

Module UploadSpec.
Import MultipartWriter.

Inductive Call :=
| Write (b : bytes)
| Close
| Terminate.

Section Vocabulary.
Context {W MP : Type} (be : WriterBackend W MP).

(** A client that writes the chunks [chunks] one after the other. *)
Fixpoint write_all (chunks : list bytes) : M (St (t MP) W) unit :=
  match chunks with
  | [] => ret tt
  | b :: rest => write be b ;; write_all rest
  end.

Definition perform (c : Call) : M (St (t MP) W) unit :=
  match c with
  | Write b => write be b ;; ret tt
  | Close => close be
  | Terminate => terminate be
  end.

(** A client that makes the calls [calls] in turn and goes on after an
    exception: the state it ends in. *)
Fixpoint session (calls : list Call) (st : St (t MP) W) : St (t MP) W :=
  match calls with
  | [] => st
  | c :: rest => session rest (snd (perform c st))
  end.

(** Numbered 1, 2, ... in order. *)
Definition in_sequence (parts : list PartDict) : Prop :=
  map PartNumber parts = map Z.of_nat (seq 1 (length parts)).

(** The parts recorded so far are numbered 1, 2, ... in upload order, and
    [_total_parts] counts them. *)
Definition numbered (self : t MP) : Prop :=
  in_sequence (_parts self) /\ _total_parts self = Z.of_nat (length (_parts self)).

(** A completion request lists parts numbered in sequence. *)
Definition complete_in_sequence (ev : Event) : Prop :=
  match ev with
  | EvComplete parts => in_sequence parts
  | _ => True
  end.

(** The parts are numbered in sequence, in the writer and in every
    completion request sent so far. *)
Definition orderly (st : St (t MP) W) : Prop :=
  numbered (fst st) /\ Forall complete_in_sequence (trace (snd st)).

End Vocabulary.

(** The parts 1..k as the simulated store names them. *)
Definition sim_parts (k : nat) : list PartDict :=
  map (fun i => {| ETag := Sim.etag_of (Z.of_nat i); PartNumber := Z.of_nat i |}) (seq 1 k).

(** The states of a writer on the simulated store without faults, after the
    bytes [written] went in: the parts uploaded so far, put together,
    followed by what is staged, are the bytes written. *)
Definition sim_inv (written : bytes) (st : St (t unit) Sim.World) : Prop :=
  _mp (fst st) = Some tt
  /\ Sim.unreachable (world (snd st)) = O
  /\ bio_pos (_buf (fst st)) = length (bio_data (_buf (fst st)))
  /\ _total_bytes (fst st) = Z.of_nat (length written)
  /\ exists k flushed,
       _parts (fst st) = sim_parts k
       /\ _total_parts (fst st) = Z.of_nat k
       /\ Sim.assemble (Sim.uploads (world (snd st))) (sim_parts k) = Some flushed
       /\ written = flushed ++ bio_data (_buf (fst st)).

End UploadSpec.

Module AccessSpec.

(** The raw reader on the simulated object [data], without faults to come:
    the position is within the object, a response body holds the bytes from
    the position on, and the empty body stands at the end. *)
Definition tracking (data : bytes) (rst : St (_SeekableRawReader.t bytes) Sim.World) : Prop :=
  let n := Z.of_nat (length data) in
  let self := fst rst in
  Sim.object (world (snd rst)) = Some data
  /\ Sim.unreachable (world (snd rst)) = O
  /\ Sim.interruptions (world (snd rst)) = []
  /\ 0 <= _SeekableRawReader._position self <= n
  /\ match _SeekableRawReader._body self with
     | None =>
         _SeekableRawReader._content_length self = None
         \/ _SeekableRawReader._content_length self = Some n
     | Some (StreamingBody rem) =>
         _SeekableRawReader._content_length self = Some n
         /\ rem = skipn (Z.to_nat (_SeekableRawReader._position self)) data
     | Some (BytesIOBody _) =>
         _SeekableRawReader._content_length self = Some n
         /\ _SeekableRawReader._position self = n
     end.

(** The buffered reader on the simulated object [data]: the buffer holds
    the bytes of the object between the logical position and the position of
    the raw reader, and the end-of-stream flag is raised only at the end. *)
Definition synced (data : bytes) (st : St (Reader.t bytes) Sim.World) : Prop :=
  let self := fst st in
  let rp := _SeekableRawReader._position (Reader._raw_reader self) in
  let buf := ByteBuffer._bytes (Reader._buffer self) in
  data <> []
  /\ tracking data (ReaderSpec.raw_state st)
  /\ 0 < ReaderSpec.chunk st
  /\ 0 <= Reader._current_pos self
  /\ Reader._current_pos self + Z.of_nat (length buf) = rp
  /\ skipn (Z.to_nat (Reader._current_pos self)) data = buf ++ skipn (Z.to_nat rp) data
  /\ (Reader._eof self = true -> rp = Z.of_nat (length data)).

(** Where a seek lands in a file of [n] bytes. *)
Definition clamp (n target : Z) : Z := Z.min (Z.max 0 target) n.

Definition target (n pos offset whence : Z) : Z :=
  if whence =? WHENCE_START then offset
  else if whence =? WHENCE_CURRENT then pos + offset
  else n + offset.

(** A file in memory, for comparison: its bytes and a position. *)
Inductive Op :=
| Seek (offset whence : Z)
| Read (size : Z).

Inductive Answer :=
| Position (p : Z)
| Bytes (b : bytes).

(** A call a reader accepts: the whence of a seek is one of the three. *)
Definition well_formed (op : Op) : Prop :=
  match op with
  | Seek _ whence => In whence WHENCE_CHOICES
  | Read _ => True
  end.

Definition file_step (data : bytes) (pos : Z) (op : Op) : Answer * Z :=
  match op with
  | Seek offset whence =>
      let p := clamp (Z.of_nat (length data)) (target (Z.of_nat (length data)) pos offset whence) in
      (Position p, p)
  | Read size =>
      let out := RawReaderSpec.requested data pos size in
      (Bytes out, pos + Z.of_nat (length out))
  end.

Fixpoint file_run (data : bytes) (pos : Z) (ops : list Op) : list Answer :=
  match ops with
  | [] => []
  | op :: rest =>
      fst (file_step data pos op) :: file_run data (snd (file_step data pos op)) rest
  end.

Definition reader_step (op : Op) (st : St (Reader.t bytes) Sim.World)
  : Result Answer * St (Reader.t bytes) Sim.World :=
  match op with
  | Seek offset whence =>
      bind (Reader.seek Sim.reader offset whence) (fun p => ret (Position p)) st
  | Read size =>
      bind (Reader.read Sim.reader size) (fun b => ret (Bytes b)) st
  end.

(** The answers a reader gives to the calls [ops]; it stops at the first
    exception. *)
Fixpoint reader_run (ops : list Op) (st : St (Reader.t bytes) Sim.World)
  : Result (list Answer) :=
  match ops with
  | [] => Ok []
  | op :: rest =>
      match reader_step op st with
      | (Ok a, st') =>
          match reader_run rest st' with
          | Ok more => Ok (a :: more)
          | Raise e => Raise e
          end
      | (Raise e, _) => Raise e
      end
  end.

(** The simulated store holds [data] and answers without faults. *)
Definition serving (data : bytes) (w : Sim.World) : Prop :=
  Sim.object w = Some data /\ Sim.unreachable w = O /\ Sim.interruptions w = [].

(** A reader constructed on the simulated store. *)
Definition constructed (w : Sim.World) (buffer_size : Z) (defer_seek : bool)
  : Result (Reader.t bytes) * St unit Sim.World :=
  @Reader.__init__ Sim.World bytes Sim.reader None buffer_size BINARY_NEWLINE defer_seek
    (tt, net0 w).

End AccessSpec.

Module ListingSpec.

Section Vocabulary.
Context {W : Type} (be : BucketBackend W).

(** [failing key k w wk]: starting in the world [w], [k] downloads of [key]
    in a row were refused with a client error, leaving the world [wk]. *)
Inductive failing (key : string) : nat -> W -> W -> Prop :=
| failing_none (w : W) : failing key O w w
| failing_again (k : nat) (w w1 wk : W) (r : option ErrorDict) :
    download_fileobj be key w = (Raise (ClientError r), w1) ->
    failing key k w1 wk ->
    failing key (S k) w wk.

(** The store serves every download of the keys [keys] with the content
    [content_of] gives, and [good] holds of the world throughout. *)
Definition holds (good : W -> Prop) (content_of : string -> bytes) (keys : list string)
  : Prop :=
  forall key w, In key keys -> good w ->
    exists w', download_fileobj be key w = (Ok (content_of key), w') /\ good w'.

(** How many pairs [iter_bucket] yields of [n] results: all of them without
    a limit, and with a limit as many as the limit says, but at least one. *)
Definition yielded (key_limit : option Z) (n : nat) : nat :=
  match key_limit with
  | None => n
  | Some limit => Nat.min n (Z.to_nat (Z.max 1 limit))
  end.

Definition is_download (ev : Event) : option string :=
  match ev with
  | EvDownload key => Some key
  | _ => None
  end.

(** The keys downloads were requested for, in order. *)
Fixpoint downloads (evs : list Event) : list string :=
  match evs with
  | [] => []
  | EvDownload key :: rest => key :: downloads rest
  | _ :: rest => downloads rest
  end.

(** The listing requests sent, in order: the continuation token of each. *)
Fixpoint listings (evs : list Event) : list (option string) :=
  match evs with
  | [] => []
  | EvListObjects _ token :: rest => token :: listings rest
  | _ :: rest => listings rest
  end.

End Vocabulary.

(** The keys of a simulated bucket under a prefix, in listing order. *)
Definition sim_keys (prefix : string) (w : Sim.Bucket) : list string :=
  filter (String.prefix prefix) (map fst (Sim.entries w)).

(** The keys of a simulated bucket are distinct and none is empty. *)
Definition proper (w : Sim.Bucket) : Prop :=
  NoDup (map fst (Sim.entries w)) /\ ~ In ""%string (map fst (Sim.entries w))
  /\ (1 <= Sim.page_size w)%nat.

(** A bucket whose first download times out. *)
Definition flaky : Sim.Bucket :=
  {| Sim.entries := Sim.entries BucketSpec.ten;
     Sim.page_size := 3;
     Sim.transient := [true; true] |}.

End ListingSpec.

Module UriSpec.

(** None of the characters [chars] occurs in [s]. *)
Definition free (chars : list ascii) (s : string) : bool :=
  forallb (fun c => negb (Str.contains c s)) chars.

(** The template [[id:secret@][host[:port]@]bucket/key] filled in. *)
Definition location (credentials : option (string * string))
    (server : option (string * option string)) (bucket key : string) : string :=
  let rest := (bucket ++ "/" ++ key)%string in
  let rest := match server with
              | Some (h, Some p) => ((h ++ ":" ++ p) ++ "@" ++ rest)%string
              | Some (h, None) => (h ++ "@" ++ rest)%string
              | None => rest
              end in
  match credentials with
  | Some (id, secret) => ((id ++ ":" ++ secret) ++ "@" ++ rest)%string
  | None => rest
  end.

(** The fillings [parse_uri] reads back as they were meant.  The bucket has
    no slash and no at sign; the credentials have no at sign and no colon;
    the host has none of the three, the port no at sign and no slash.  A
    port needs credentials before it.  A host without a port needs a bucket
    without a colon.  And a bare [bucket/key] whose key has an at sign must
    have no colon before it. *)
Definition grammar (credentials : option (string * string))
    (server : option (string * option string)) (bucket key : string) : bool :=
  free ["/"; "@"]%char bucket
  && match credentials with
     | Some (id, secret) => free ["@"; ":"]%char id && free ["@"; ":"]%char secret
     | None => true
     end
  && match server with
     | Some (h, Some p) =>
         match credentials with Some _ => true | None => false end
         && free ["@"; ":"; "/"]%char h && free ["@"; "/"]%char p
     | Some (h, None) => free ["@"; ":"; "/"]%char h && free [":"]%char bucket
     | None =>
         match credentials with
         | Some _ => true
         | None =>
             negb (Str.contains "@" key)
             || (free [":"]%char bucket
                 && free [":"]%char (hd EmptyString (Str.split "@" key)))
         end
     end.

Section Vocabulary.
Context (int : string -> Result Z).

(** The port of a filling: the default one unless the server names one. *)
Definition port_of (server : option (string * option string)) : Result Z :=
  match server with
  | Some (_, Some p) => int p
  | _ => Ok DEFAULT_PORT
  end.

End Vocabulary.

(** The [Uri] of a filling. *)
Definition parsed (scheme : string) (credentials : option (string * string))
    (server : option (string * option string)) (port : Z) (bucket key : string) : Uri :=
  {| scheme := scheme;
     bucket_id := bucket;
     key_id := key;
     port := port;
     host := match server with Some (h, _) => h | None => DEFAULT_HOST end;
     ordinary_calling_format := match server with Some _ => true | None => false end;
     access_id := option_map fst credentials;
     access_secret := option_map snd credentials |}.

(** Stand-ins for the two functions [parse_uri] calls, good for URLs of the
    form [scheme://location] and for ports in plain decimal digits. *)
Definition plain_urlsplit (url : string) : Result SplitResult.t :=
  match Str.split1 ":" url with
  | [scheme; String "/" (String "/" rest)] =>
      match Str.split1 "/" rest with
      | [netloc; path] => Ok (SplitResult.mk scheme netloc (String "/" path))
      | _ => Ok (SplitResult.mk scheme rest EmptyString)
      end
  | _ => Ok (SplitResult.mk EmptyString EmptyString url)
  end.

Fixpoint digits (s : string) (acc : Z) : option Z :=
  match s with
  | EmptyString => Some acc
  | String c rest =>
      let d := Z.of_nat (nat_of_ascii c) - 48 in
      if (0 <=? d) && (d <=? 9) then digits rest (10 * acc + d) else None
  end.

Definition decimal (s : string) : Result Z :=
  match s with
  | EmptyString => Raise ValueError
  | _ => match digits s 0 with
         | Some n => Ok n
         | None => Raise ValueError
         end
  end.

End UriSpec.

(** * Properties *)

(** Unfolding the monad. *)
Ltac run :=
  unfold bind, ret, raise, get_self, set_self, emit, call, assert_, try_except,
    lift_result, lift_field in *;
  cbn [fst snd] in *.

Module RawReaderProps.
Import _SeekableRawReader RawReaderSpec.

Section Generic.
Context {W B : Type} (be : ReaderBackend W B).

Lemma after_close_requests (b : option (BodyObj B)) (n : Net W) :
  filter is_store_request (trace (after_close be b n)) = filter is_store_request (trace n).
Proof.
  destruct b as [[bio | s] | ]; cbn; trivial.
  rewrite filter_app; cbn. apply app_nil_r.
Qed.

(** With the length known and not zero, a seek to an absolute start at or
    past it is settled locally. *)
Lemma seek_start_past_known_length (self : t B) (n : Net W) (cl offset : Z) :
  _content_length self = Some cl -> cl <> 0 -> cl <= Z.max 0 offset ->
  seek be offset WHENCE_START (self, n)
  = (Ok cl, (at_eof self cl, after_close be (_body self) n)).
Proof.
  intros Hcl Hnz Hge. unfold seek, at_eof. cbn [existsb WHENCE_CHOICES].
  change (WHENCE_START =? WHENCE_START) with true. cbn [orb negb].
  run. rewrite Hcl.
  assert (E : (Z.max 0 offset >=? cl) = true) by (apply Z.geb_le; lia).
  assert (T : (cl =? 0) = false) by (apply Z.eqb_neq; exact Hnz).
  destruct self as [c v p [[bio | s] | ]]; cbn in *; subst c;
    unfold close_body, set_body, with_body, with_position; run; cbn;
    rewrite E; cbn; rewrite T; cbn; reflexivity.
Qed.

(** The same for a suffix seek of zero bytes. *)
Lemma seek_suffix_zero_known_length (self : t B) (n : Net W) (cl offset : Z) :
  _content_length self = Some cl -> cl <> 0 -> 0 <= offset ->
  seek be offset WHENCE_END (self, n)
  = (Ok cl, (at_eof self cl, after_close be (_body self) n)).
Proof.
  intros Hcl Hnz Hge. unfold seek, at_eof. cbn [existsb WHENCE_CHOICES].
  change (WHENCE_END =? WHENCE_START) with false.
  change (WHENCE_END =? WHENCE_CURRENT) with false.
  change (WHENCE_END =? WHENCE_END) with true. cbn [orb negb].
  run. rewrite Hcl.
  assert (E : Z.max 0 (- offset) = 0) by lia.
  assert (T : (cl =? 0) = false) by (apply Z.eqb_neq; exact Hnz).
  destruct self as [c v p [[bio | s] | ]]; cbn in *; subst c;
    unfold close_body, set_body, with_body, with_position; run; cbn;
    rewrite E; cbn; rewrite T; cbn; reflexivity.
Qed.

(** At the end of an object of known, non-zero length every read is
    empty and changes nothing: neither the reader nor the network. *)
Lemma read_at_eof (self : t B) (n : Net W) (cl size : Z) :
  cl <> 0 ->
  read be size (at_eof self cl, n) = (Ok [], (at_eof self cl, n)).
Proof.
  intros Hnz. unfold read, at_eof. run. cbn.
  assert (T : (cl =? 0) = false) by (apply Z.eqb_neq; exact Hnz).
  rewrite T. cbn.
  assert (E : (cl >=? cl) = true) by (apply Z.geb_le; lia).
  rewrite E. reflexivity.
Qed.

(** The same for a seek relative to the current position. *)
Lemma seek_current_past_known_length (self : t B) (n : Net W) (cl offset : Z) :
  _content_length self = Some cl -> cl <> 0 -> cl <= Z.max 0 (offset + _position self) ->
  seek be offset WHENCE_CURRENT (self, n)
  = (Ok cl, (at_eof self cl, after_close be (_body self) n)).
Proof.
  intros Hcl Hnz Hge. unfold seek, at_eof. cbn [existsb WHENCE_CHOICES].
  change (WHENCE_CURRENT =? WHENCE_START) with false.
  change (WHENCE_CURRENT =? WHENCE_CURRENT) with true. cbn [orb negb].
  run. rewrite Hcl.
  assert (T : (cl =? 0) = false) by (apply Z.eqb_neq; exact Hnz).
  destruct self as [c v p [[bio | s] | ]]; cbn in *; subst c;
    unfold close_body, set_body, with_body, with_position; run; cbn;
    (replace (Z.max 0 (offset + p) >=? cl) with true by (symmetry; apply Z.geb_le; lia));
    cbn; rewrite T; cbn; reflexivity.
Qed.

(** With the length known to be zero the same seeks, which are all at or
    past the end, fail at the assertion; nothing is requested. *)
Lemma seek_known_empty_asserts (self : t B) (n : Net W) (offset whence : Z) :
  _content_length self = Some 0 ->
  whence = WHENCE_START \/ whence = WHENCE_CURRENT \/ (whence = WHENCE_END /\ 0 <= offset) ->
  seek be offset whence (self, n)
  = (Raise AssertionError,
     (with_body self (Some (BytesIOBody BytesIO_new)), after_close be (_body self) n)).
Proof.
  intros Hcl Hw. unfold seek.
  destruct Hw as [-> | [-> | [-> Ho]]]; cbn [existsb WHENCE_CHOICES];
    [ change (WHENCE_START =? WHENCE_START) with true
    | change (WHENCE_CURRENT =? WHENCE_START) with false;
      change (WHENCE_CURRENT =? WHENCE_CURRENT) with true
    | change (WHENCE_END =? WHENCE_START) with false;
      change (WHENCE_END =? WHENCE_CURRENT) with false;
      change (WHENCE_END =? WHENCE_END) with true ];
    cbn [orb negb]; run; rewrite Hcl;
    destruct self as [c v p [[bio | s] | ]]; cbn in *; subst c;
    unfold close_body, set_body, with_body, with_position; run; cbn.
  1-3: replace (Z.max 0 offset >=? 0) with true by (symmetry; apply Z.geb_le; lia);
       reflexivity.
  1-3: replace (Z.max 0 (offset + p) >=? 0) with true by (symmetry; apply Z.geb_le; lia);
       reflexivity.
  1-3: replace (Z.max 0 (- offset)) with 0 by lia; reflexivity.
Qed.

(** And every read then fails at the assertion of [read]. *)
Lemma read_known_empty_asserts (self : t B) (n : Net W) (size : Z) (b : BodyObj B) :
  _content_length self = Some 0 -> _body self = Some b ->
  read be size (self, n) = (Raise AssertionError, (self, n)).
Proof.
  intros Hcl Hb. unfold read. run. rewrite Hb. cbn. rewrite Hcl. reflexivity.
Qed.

Lemma _get_eq {O : Type} (o : O) (n : Net W) (v : option string)
    (range : option RangeHeader) :
  @_get O W B be v range (o, n)
  = (match fst (object_get be v range (world n)) with
     | Ok r => Ok r
     | Raise e => Raise (wrapped e)
     end,
     (o, logged n (snd (object_get be v range (world n))) [EvGetObject v range])).
Proof.
  unfold _get, logged. run.
  destruct (object_get be v range (world n)) as [[r | e] w1]; cbn; trivial.
  destruct e; cbn; reflexivity.
Qed.


(** [_open_body] when the store serves the range. *)
Lemma open_body_partial_content (self : t B) (n : Net W) (start stop : option Z)
    (response : GetResponse B) (w1 : W) (u : string) (a b l : Z) :
  object_get be (_version_id self) (Some (requested_range self start stop)) (world n)
    = (Ok response, w1) ->
  ContentRange response = Some (ContentRangeOf u a b l) ->
  _open_body be start stop (self, n)
  = (Ok tt,
     (mk (Some l) (_version_id self) a (Some (StreamingBody (Body response))),
      logged n w1 [EvGetObject (_version_id self) (Some (requested_range self start stop))])).
Proof.
  intros Hget Hcr. unfold _open_body.
  unfold bind at 1. unfold get_self at 1. cbn [fst snd].
  fold (requested_range self start stop).
  rewrite _get_eq, Hget. cbn [fst snd]. rewrite Hcr.
  unfold set_position, set_content_length, set_body. run. cbn.
  destruct self; reflexivity.
Qed.

(** [self._body.read] on a response body. *)
Lemma read_from_streaming_body (self : t B) (n : Net W) (s : B) (size : Z) :
  _body self = Some (StreamingBody s) ->
  let amt := if size =? -1 then None else Some size in
  _read_from_body be size (self, n)
  = (fst (fst (body_read be s amt (world n))),
     (with_body self (Some (StreamingBody (snd (fst (body_read be s amt (world n)))))),
      logged n (snd (body_read be s amt (world n))) [EvBodyRead amt])).
Proof.
  intros Hb amt. unfold _read_from_body. run. rewrite Hb. subst amt.
  destruct (size =? -1); reflexivity.
Qed.

(** After [_open_body] the length is known and a body is installed. *)
Lemma open_body_ok_known (start stop : option Z) (st st' : St (t B) W) :
  _open_body be start stop st = (Ok tt, st') ->
  exists cl b, _content_length (fst st') = Some cl /\ _body (fst st') = Some b.
Proof.
  destruct st as [self n].
  unfold _open_body. unfold bind at 1. unfold get_self at 1. cbn [fst snd].
  rewrite _get_eq.
  destruct (object_get be (_version_id self) _ (world n)) as [[response | e] w1];
    cbn [fst snd].
  - destruct (ContentRange response) as [[u a b l | ] | ]; run; cbn;
      [intros [= <-]; eexists _, _; split; reflexivity | discriminate | discriminate].
  - destruct (isinstance (wrapped e) C_IOError); [ | discriminate].
    destruct (_unwrap_ioerror (wrapped e)) as [d | ]; [ | discriminate].
    destruct (negb (opt_string_eqb (Message d) _OUT_OF_RANGE)); [discriminate | ].
    destruct (ActualObjectSize d) as [[z | ] | ].
    + unfold set_position, set_content_length, set_body. run. cbn.
      intros [= <-]. eexists _, _; split; reflexivity.
    + run. discriminate.
    + unfold bind at 1. unfold bind at 1. rewrite _get_eq.
      destruct (object_get be (_version_id self) None _) as [[response | e2] w2];
        cbn [fst snd]; [ | discriminate].
      destruct (ContentLength response) as [z | ]; [ | run; discriminate].
      unfold set_position, set_content_length, set_body. run. cbn.
      intros [= <-]. eexists _, _; split; reflexivity.
Qed.

Lemma read_from_body_length (size : Z) (st st' : St (t B) W) (r : Result bytes) :
  _read_from_body be size st = (r, st') ->
  _content_length (fst st') = _content_length (fst st).
Proof.
  unfold _read_from_body. run. destruct (_body (fst st)) as [[bio | s] | ].
  - destruct (size =? -1); unfold read_body, set_body; run; intros [= _ <-]; reflexivity.
  - destruct (size =? -1); unfold read_body; intros [= _ <-]; reflexivity.
  - intros [= _ <-]. reflexivity.
Qed.

(** A [read] that returns has the length known: the buffered reader, which
    copies it into its position after a read to the end, never copies
    [None]. *)
Lemma read_ok_length_known (size : Z) (st st' : St (t B) W) (binary : bytes) :
  read be size st = (Ok binary, st') ->
  exists cl, _content_length (fst st') = Some cl.
Proof.
  unfold read. unfold bind at 1. unfold get_self at 1. cbn [fst snd].
  unfold bind at 1.
  destruct (match _body (fst st) with
            | Some _ => ret tt
            | None => _open_body be None None
            end st) as [[[] | e] s1] eqn:P1; [ | discriminate].
  unfold bind at 1. unfold get_self at 1. cbn [fst snd].
  destruct (_content_length (fst s1)) as [cl | ] eqn:Hcl; [ | discriminate].
  cbn [truthy]. destruct (cl =? 0); [discriminate | ]. cbn [negb assert_].
  unfold bind at 1. unfold ret at 1.
  destruct (_position (fst s1) >=? cl).
  - intros [= _ <-]. exists cl. exact Hcl.
  - unfold bind at 1. unfold try_except.
    destruct (_read_from_body be size s1) as [[b1 | e] s2] eqn:R1.
    + apply read_from_body_length in R1. unfold set_position. run.
      intros [= _ <-]. cbn. exists cl. rewrite R1. exact Hcl.
    + destruct (isinstance e C_IncompleteReadError); [ | discriminate].
      unfold bind at 1.
      destruct (_open_body be None None s2) as [[[] | e2] s3] eqn:O; [ | discriminate].
      destruct (open_body_ok_known _ _ _ _ O) as (cl3 & b3 & H3 & _).
      destruct (_read_from_body be size s3) as [[b2 | e3] s4] eqn:R2; [ | discriminate].
      apply read_from_body_length in R2. unfold set_position. run.
      intros [= _ <-]. cbn. exists cl3. rewrite R2. exact H3.
Qed.

(** C3.  When the open body raises the incomplete-read error, [read] sends
    exactly one new range request, starting at the current position, and
    reads once more with the same size: what that second read gives is what
    [read] gives.  Bytes are returned to the caller and the position advances
    by their number; an exception of the second read, a second interruption
    included, reaches the caller. *)
Theorem read_incomplete_retried_once (self : t B) (n : Net W) (size cl : Z)
    (s s1 s2 : B) (w1 w2 w3 : W) (response : GetResponse B) (u : string)
    (a b l : Z) (r2 : Result bytes) :
  _body self = Some (StreamingBody s) ->
  _content_length self = Some cl -> cl <> 0 -> _position self < cl ->
  body_read be s (amount size) (world n) = ((Raise IncompleteReadError, s1), w1) ->
  object_get be (_version_id self)
    (Some (make_range_string (Some (_position self)) None)) w1 = (Ok response, w2) ->
  ContentRange response = Some (ContentRangeOf u a b l) ->
  body_read be (Body response) (amount size) w2 = ((r2, s2), w3) ->
  read be size (self, n)
  = (r2,
     (mk (Some l) (_version_id self)
         (match r2 with
          | Ok binary => a + Z.of_nat (length binary)
          | Raise _ => a
          end)
         (Some (StreamingBody s2)),
      logged n w3
        [EvBodyRead (amount size);
         EvGetObject (_version_id self) (Some (make_range_string (Some (_position self)) None));
         EvBodyRead (amount size)])).
Proof.
  intros Hb Hcl Hnz Hlt Hr1 Hget Hcr Hr2. unfold read.
  unfold bind at 1. unfold get_self at 1. cbn [fst snd]. rewrite Hb.
  unfold bind at 1. unfold ret at 1.
  unfold bind at 1. unfold get_self at 1. cbn [fst snd].
  rewrite Hcl. cbn [truthy].
  assert (T : (cl =? 0) = false) by (apply Z.eqb_neq; exact Hnz).
  assert (E : (_position self >=? cl) = false) by (rewrite Z.geb_leb; apply Z.leb_gt; lia).
  rewrite T, E. cbn [negb assert_].
  unfold bind at 1. unfold ret at 1.
  unfold bind at 1. unfold try_except.
  rewrite (read_from_streaming_body self n s size Hb).
  fold (amount size). rewrite Hr1. cbn [fst snd isinstance].
  unfold bind at 1.
  assert (Hrange : requested_range (with_body self (Some (StreamingBody s1))) None None
                   = make_range_string (Some (_position self)) None)
    by (destruct self; reflexivity).
  erewrite open_body_partial_content; cycle 1.
  - rewrite Hrange. cbn [world logged _version_id with_body]. exact Hget.
  - exact Hcr.
  - rewrite Hrange. cbn [_version_id with_body].
    rewrite read_from_streaming_body with (s := Body response) by reflexivity.
    fold (amount size). cbn [world logged]. rewrite Hr2. cbn [fst snd].
    unfold logged. cbn [trace world]. rewrite <- !app_assoc. cbn [app].
    destruct r2 as [binary | e]; run; cbn; reflexivity.
Qed.
End Generic.



(** C1.  An empty object: the first seek learns from the store that the
    length is 0 and leaves the reader at EOF.  From then on the length is
    known, and a seek to start 0 >= 0, which the specification has end at
    EOF without a request, raises [AssertionError]; so does a suffix seek of
    zero, and so does every read.  None of them sends a request.  (For a
    known length other than 0 the specified behaviour holds:
    [seek_start_past_known_length], [seek_current_past_known_length],
    [seek_suffix_zero_known_length], [read_at_eof].) *)
Theorem seek_eof_on_known_empty_object :
  let opened := snd (seek Sim.reader 0 WHENCE_START (fresh (Sim.holding []))) in
  _content_length (fst opened) = Some 0
  /\ _position (fst opened) = 0
  /\ seek Sim.reader 0 WHENCE_START opened = (Raise AssertionError, opened)
  /\ seek Sim.reader 0 WHENCE_END opened = (Raise AssertionError, opened)
  /\ read Sim.reader (-1) opened = (Raise AssertionError, opened)
  /\ read Sim.reader 1 opened = (Raise AssertionError, opened).
Proof. vm_compute. repeat split; reflexivity. Qed.

Lemma read_incomplete_retried_once_witness :
  let opened i := snd (seek Sim.reader 3 WHENCE_START
                         (fresh (Sim.with_interruptions (Sim.holding digits) i))) in
  fst (read Sim.reader 4 (opened [true])) = Ok (list_byte_of_string "3456")
  /\ fst (read Sim.reader 4 (opened [true; true])) = Raise IncompleteReadError.
Proof.
  split.
  - exact (f_equal fst
             (read_incomplete_retried_once Sim.reader
                (mk (Some 10) None 3 (Some (StreamingBody (list_byte_of_string "3456789"))))
                {| world := Sim.with_interruptions (Sim.holding digits) [true];
                   trace := [EvGetObject None (Some (make_range_string (Some 3) None))] |}
                4 10 _ _ _ _ _ _ _ _ _ _ _ _
                eq_refl eq_refl (proj1 (Z.eqb_neq 10 0) eq_refl) eq_refl
                eq_refl eq_refl eq_refl eq_refl)).
  - exact (f_equal fst
             (read_incomplete_retried_once Sim.reader
                (mk (Some 10) None 3 (Some (StreamingBody (list_byte_of_string "3456789"))))
                {| world := Sim.with_interruptions (Sim.holding digits) [true; true];
                   trace := [EvGetObject None (Some (make_range_string (Some 3) None))] |}
                4 10 _ _ _ _ _ _ _ _ _ _ _ _
                eq_refl eq_refl (proj1 (Z.eqb_neq 10 0) eq_refl) eq_refl
                eq_refl eq_refl eq_refl eq_refl)).
Defined.

Lemma slice_to_end (data : bytes) (p : Z) :
  0 <= p -> Sim.slice data p (Z.of_nat (length data) - 1) = skipn (Z.to_nat p) data.
Proof.
  intros Hp. unfold Sim.slice. apply firstn_all2. rewrite length_skipn. lia.
Qed.

Lemma sim_get_from (data : bytes) (p : Z) (w : Sim.World) :
  0 <= p < Z.of_nat (length data) ->
  Sim.object w = Some data -> Sim.unreachable w = O ->
  Sim.get None (Some (make_range_string (Some p) None)) w
  = (Ok {| ContentRange := Some (ContentRangeOf "bytes" p (Z.of_nat (length data) - 1)
                                   (Z.of_nat (length data)));
           Body := skipn (Z.to_nat p) data;
           ContentLength := Some (Z.of_nat (length data) - 1 - p + 1) |}, w).
Proof.
  intros Hp Ho Hu. unfold Sim.get. rewrite Hu, Ho. cbn.
  replace (p >=? Z.of_nat (length data)) with false
    by (symmetry; rewrite Z.geb_leb; apply Z.leb_gt; lia).
  unfold Sim.partial_content. rewrite slice_to_end by lia. reflexivity.
Qed.

Ltac rewrite_body_read :=
  match goal with
  | |- context [_read_from_body Sim.reader ?size (?self, ?n)] =>
      let H := fresh "H" in
      pose proof (read_from_streaming_body Sim.reader self n _ size eq_refl) as H;
      cbv zeta in H; unfold bytes in *; rewrite H; clear H
  end.

Ltac enter_read :=
  unfold read, positioned;
  unfold bind at 1; unfold get_self at 1; cbn [fst snd _body];
  unfold bind at 1; unfold ret at 1;
  unfold bind at 1; unfold get_self at 1; cbn [fst snd _content_length _position truthy];
  match goal with
  | |- context [Z.of_nat (length ?d) =? 0] =>
      replace (Z.of_nat (length d) =? 0) with false by (symmetry; apply Z.eqb_neq; lia)
  end;
  match goal with
  | |- context [?p >=? Z.of_nat (length ?d)] =>
      replace (p >=? Z.of_nat (length d)) with false
        by (symmetry; rewrite Z.geb_leb; apply Z.leb_gt; lia)
  end;
  cbn [negb assert_];
  unfold bind at 1; unfold ret at 1;
  unfold bind at 1; unfold try_except;
  rewrite_body_read;
  cbn [body_read Sim.reader Sim.stream_read world net0 Sim.with_interruptions
       Sim.interruptions Sim.holding fst snd isinstance].

(** On the simulated store an uninterrupted read returns the requested
    bytes of the object. *)
Lemma sim_read_clean (data : bytes) (p size : Z) :
  0 <= p < Z.of_nat (length data) ->
  fst (read Sim.reader size (positioned data p [])) = Ok (requested data p size).
Proof.
  intros Hp. enter_read. cbn. unfold requested. destruct (size =? -1) eqn:E.
  - apply Z.eqb_eq in E. subst size. reflexivity.
  - cbn. destruct (size <? 0); reflexivity.
Qed.

(** A read interrupted once returns the same bytes. *)
Lemma sim_read_dropped_once (data : bytes) (p size : Z) :
  0 <= p < Z.of_nat (length data) ->
  fst (read Sim.reader size (positioned data p [true])) = Ok (requested data p size).
Proof.
  intros Hp. enter_read. unfold bind at 1.
  erewrite open_body_partial_content; cycle 1.
  - refine (sim_get_from data p _ Hp _ _); reflexivity.
  - reflexivity.
  - rewrite_body_read.
    cbn. unfold requested. destruct (size =? -1) eqn:E.
    + apply Z.eqb_eq in E. subst size. reflexivity.
    + cbn. destruct (size <? 0); reflexivity.
Qed.

(** A read interrupted twice in a row raises the second interruption. *)
Lemma sim_read_dropped_twice (data : bytes) (p size : Z) (i : list bool) :
  0 <= p < Z.of_nat (length data) ->
  fst (read Sim.reader size (positioned data p (true :: true :: i)))
  = Raise IncompleteReadError.
Proof.
  intros Hp. enter_read. unfold bind at 1.
  erewrite open_body_partial_content; cycle 1.
  - refine (sim_get_from data p _ Hp _ _); reflexivity.
  - reflexivity.
  - rewrite_body_read. cbn. reflexivity.
Qed.

Lemma skipn_firstn_position (data : bytes) (p k : nat) :
  skipn k (skipn p data)
  = skipn (Z.to_nat (Z.of_nat p + Z.of_nat (length (firstn k (skipn p data))))) data.
Proof.
  rewrite skipn_skipn, <- Nat2Z.inj_add, Nat2Z.id, length_firstn, length_skipn.
  destruct (Nat.le_ge_cases k (length data - p)) as [H | H].
  - rewrite Nat.min_l by exact H. f_equal. lia.
  - rewrite Nat.min_r by exact H. rewrite !skipn_all2 by lia. reflexivity.
Qed.

Lemma sim_read_body_open (data : bytes) (chunk : Z) (rst : St (t bytes) Sim.World) :
  0 < chunk -> sim_inv data rst -> _body (fst rst) <> None ->
  match read Sim.reader chunk rst with
  | (Ok binary, rst') =>
      sim_inv data rst' /\ (sim_mu data rst' <= sim_mu data rst)%nat
      /\ (binary = [] \/ (sim_mu data rst' < sim_mu data rst)%nat)
  | (Raise _, _) => True
  end.
Proof.
  intros Hc (Ho & Hu & Hi & Hp & Hb) Hbody.
  destruct rst as [[cl v p body] [w tr]].
  cbn [fst snd world _position _body _content_length] in *.
  destruct body as [[bio | rem] | ]; [ | | contradiction].
  - destruct Hb as (c & -> & Hle). unfold read. run. cbn.
    destruct (c =? 0); cbn; [trivial | ].
    replace (p >=? c) with true by (symmetry; apply Z.geb_le; lia).
    unfold sim_inv, sim_mu. cbn. repeat split; trivial; try lia.
    + exists c; split; [reflexivity | exact Hle].
    + left; reflexivity.
  - destruct Hb as (-> & ->). unfold read. run. cbn.
    destruct (Z.of_nat (length data) =? 0); cbn; [trivial | ].
    destruct (p >=? Z.of_nat (length data)) eqn:G.
    + unfold sim_inv, sim_mu. cbn. repeat split; trivial; try lia.
      left; reflexivity.
    + rewrite Z.geb_leb in G. apply Z.leb_gt in G.
      unfold _read_from_body, read_body. run. cbn.
      replace (chunk =? -1) with false by (symmetry; apply Z.eqb_neq; lia).
      cbn. unfold Sim.stream_read. rewrite Hi.
      replace (chunk <? 0) with false by (symmetry; apply Z.ltb_ge; lia).
      cbn.
      assert (L : (1 <= length (firstn (Z.to_nat chunk) (skipn (Z.to_nat p) data)))%nat)
        by (rewrite length_firstn, length_skipn; lia).
      unfold sim_inv, sim_mu. cbn. repeat split; trivial; try lia.
      rewrite <- (Z2Nat.id p) at 2 by lia. apply skipn_firstn_position.
Qed.

Lemma sim_open_body (data : bytes) (rst : St (t bytes) Sim.World) :
  sim_inv data rst -> _body (fst rst) = None ->
  match _open_body Sim.reader None None rst with
  | (Ok _, rst') =>
      sim_inv data rst' /\ _body (fst rst') <> None
      /\ (sim_mu data rst' <= sim_mu data rst)%nat
  | (Raise _, _) => True
  end.
Proof.
  intros (Ho & Hu & Hi & Hp & _) Hb.
  destruct rst as [[cl v p body] [w tr]].
  cbn [fst snd world _position _body _content_length] in *. subst body.
  set (n := Z.of_nat (length data)).
  assert (Hget : Sim.get v (Some (make_range_string (Some p) None)) w
                 = if p >=? n then (Raise (Sim.not_satisfiable w n), w)
                   else (Ok (Sim.partial_content data p (n - 1)), w))
    by (unfold Sim.get; rewrite Hu, Ho; reflexivity).
  assert (Hall : Sim.get v None w
                 = (Ok {| ContentRange := None; Body := data; ContentLength := Some n |}, w))
    by (unfold Sim.get; rewrite Hu, Ho; reflexivity).
  unfold _open_body. unfold bind at 1. unfold get_self at 1. cbn [fst snd _position].
  rewrite _get_eq. cbn [object_get Sim.reader world _version_id]. rewrite Hget.
  destruct (p >=? n) eqn:G.
  - apply Z.geb_le in G.
    cbn [fst snd wrapped Sim.not_satisfiable isinstance _unwrap_ioerror Message
         opt_string_eqb].
    rewrite String.eqb_refl. cbn [negb ActualObjectSize].
    destruct (Sim.size_hint w).
    + unfold set_position, set_content_length, set_body. run. cbn.
      unfold sim_inv, sim_mu. cbn. fold n.
      repeat split; trivial; try lia; try discriminate.
      eexists; split; [reflexivity | lia].
    + unfold bind at 1. unfold bind at 1. rewrite _get_eq.
      cbn [object_get Sim.reader world logged _version_id]. rewrite Hall.
      cbn [fst snd ContentLength].
      unfold set_position, set_content_length, set_body. run. cbn.
      unfold sim_inv, sim_mu. cbn. fold n.
      repeat split; trivial; try lia; try discriminate.
      eexists; split; [reflexivity | lia].
  - rewrite Z.geb_leb in G. apply Z.leb_gt in G.
    cbn [fst snd ContentRange Sim.partial_content parse_content_range lift_result].
    unfold set_position, set_content_length, set_body. run. cbn.
    unfold sim_inv, sim_mu. cbn. fold n.
    repeat split; trivial; try lia; try discriminate.
    unfold Sim.slice. rewrite firstn_all2 by (rewrite length_skipn; lia). reflexivity.
Qed.

(** On the simulated store every read of a positive number of bytes makes
    progress. *)
Lemma sim_progresses (data : bytes) (chunk : Z) (rst : St (t bytes) Sim.World) :
  0 < chunk -> sim_inv data rst ->
  match read Sim.reader chunk rst with
  | (Ok binary, rst') =>
      sim_inv data rst' /\ (sim_mu data rst' <= sim_mu data rst)%nat
      /\ (binary = [] \/ (sim_mu data rst' < sim_mu data rst)%nat)
  | (Raise _, _) => True
  end.
Proof.
  intros Hc Hinv. destruct (_body (fst rst)) as [b | ] eqn:Hb.
  - apply sim_read_body_open; [exact Hc | exact Hinv | congruence].
  - pose proof (sim_open_body data rst Hinv Hb) as Ho.
    assert (E : read Sim.reader chunk rst
                = match _open_body Sim.reader None None rst with
                  | (Ok _, rst') => read Sim.reader chunk rst'
                  | (Raise e, rst') => (Raise e, rst')
                  end).
    { unfold read at 1. unfold bind at 1. unfold get_self at 1. cbn [fst snd]. rewrite Hb.
      unfold bind at 1.
      destruct (_open_body Sim.reader None None rst) as [[[] | e] rst'] eqn:O;
        [ | reflexivity].
      destruct (open_body_ok_known Sim.reader _ _ _ _ O) as (cl & b & _ & Hb').
      symmetry. unfold read. unfold bind at 1. unfold get_self at 1. cbn [fst snd].
      rewrite Hb'. unfold bind at 1. unfold ret at 1. reflexivity. }
    rewrite E. destruct (_open_body Sim.reader None None rst) as [[[] | e] rst'];
      [ | trivial].
    destruct Ho as (Hinv' & Hb' & Hm).
    pose proof (sim_read_body_open data chunk rst' Hc Hinv' Hb') as H.
    destruct (read Sim.reader chunk rst') as [[binary | e] rst'']; [ | trivial].
    destruct H as (H1 & H2 & H3). split; [exact H1 | ]. split; [lia | ].
    destruct H3 as [H3 | H3]; [left; exact H3 | right; lia].
Qed.
End RawReaderProps.

Module BytesProps.

Lemma startswith_iff (s p : bytes) :
  startswith s p = true <-> exists t, s = p ++ t.
Proof.
  revert s. induction p as [ | x p IH]; intros s; cbn.
  - split; [intros _; exists s; reflexivity | trivial].
  - destruct s as [ | y s].
    + split; [discriminate | intros [t Ht]; discriminate].
    + rewrite andb_true_iff, IH. split.
      * intros [Hxy [t Ht]]. apply Byte.byte_dec_bl in Hxy. subst. exists t; reflexivity.
      * intros [t Ht]. injection Ht as -> ->. split.
        -- apply Byte.byte_dec_lb; reflexivity.
        -- exists t; reflexivity.
Qed.

Lemma endswith_iff (s suffix : bytes) :
  endswith s suffix = true <-> exists h, s = h ++ suffix.
Proof.
  unfold endswith. rewrite startswith_iff. split.
  - intros [t Ht]. exists (rev t).
    rewrite <- (rev_involutive s), Ht, rev_app_distr, rev_involutive. reflexivity.
  - intros [h ->]. exists (rev h). apply rev_app_distr.
Qed.


(** [find] returns the first place where [sub] starts. *)
Lemma find_Some (s sub : bytes) (i : nat) :
  find s sub = Some i ->
  exists h t, s = h ++ sub ++ t /\ length h = i
              /\ forall j, (j < i)%nat -> startswith (skipn j s) sub = false.
Proof.
  revert i. induction s as [ | y s IH]; intros i; cbn [find].
  - destruct (startswith [] sub) eqn:E; [ | discriminate].
    intros [= <-]. apply startswith_iff in E. destruct E as [t Ht].
    exists [], t. repeat split; trivial. intros j Hj. inversion Hj.
  - destruct (startswith (y :: s) sub) eqn:E.
    + intros [= <-]. apply startswith_iff in E. destruct E as [t Ht].
      exists [], t. repeat split; trivial. intros j Hj. inversion Hj.
    + destruct (find s sub) as [k | ] eqn:F; [ | discriminate].
      cbn. intros [= <-]. destruct (IH k eq_refl) as (h & t & Hs & Hl & Hno).
      exists (y :: h), t. repeat split.
      * cbn. rewrite Hs. reflexivity.
      * cbn. rewrite Hl. reflexivity.
      * intros [ | j] Hj; cbn; [exact E | apply Hno; lia].
Qed.

Lemma find_None (s sub : bytes) :
  find s sub = None -> forall j, startswith (skipn j s) sub = false.
Proof.
  induction s as [ | y s IH]; cbn [find].
  - destruct (startswith [] sub) eqn:E; [discriminate | ].
    intros _ [ | j]; exact E.
  - destruct (startswith (y :: s) sub) eqn:E; [discriminate | ].
    destruct (find s sub) eqn:F; [discriminate | ].
    intros _ [ | j]; cbn; [exact E | apply IH; reflexivity].
Qed.

(** Nowhere in [s] does the byte [c] occur, when [[c]] starts at no index. *)
Lemma no_start_not_In (c : byte) (s : bytes) (k : nat) :
  (forall j, (j < k)%nat -> startswith (skipn j s) [c] = false) ->
  ~ In c (firstn k s).
Proof.
  revert k. induction s as [ | y s IH]; intros k Hno.
  - rewrite firstn_nil. intros [].
  - destruct k as [ | k]; [intros [] | ]. cbn. intros [Hy | Hin].
    + specialize (Hno O (Nat.lt_0_succ k)). cbn in Hno. subst y.
      rewrite (@Byte.byte_dec_lb c c eq_refl) in Hno. discriminate.
    + apply (IH k); [ | exact Hin]. intros j Hj. apply (Hno (S j)). lia.
Qed.

Lemma readline_part (b : ByteBuffer.t) (terminator : bytes) :
  let part := fst (ByteBuffer.readline b terminator) in
  (endswith part terminator = true \/ ByteBuffer.len (snd (ByteBuffer.readline b terminator)) = 0)
  /\ forall c, terminator = [c] ->
       (endswith part terminator = true ->
          exists body, part = body ++ [c] /\ ~ In c body)
       /\ (endswith part terminator = false -> ~ In c part).
Proof.
  unfold ByteBuffer.readline. destruct b as [s chunk]. cbn [ByteBuffer._bytes].
  destruct (find s terminator) as [i | ] eqn:F.
  - destruct (find_Some _ _ _ F) as (h & t & Hs & Hl & Hno).
    assert (P : fst (ByteBuffer.read (ByteBuffer.mk s chunk)
                       (Z.of_nat (i + length terminator))) = h ++ terminator).
    { unfold ByteBuffer.read. cbn. rewrite Nat2Z.id, Hs, app_assoc.
      rewrite firstn_app, firstn_all2 by (rewrite length_app; lia).
      replace (i + length terminator - length (h ++ terminator))%nat with O
        by (rewrite length_app; lia).
      cbn. apply app_nil_r. }
    cbn zeta. rewrite P.
    assert (E : endswith (h ++ terminator) terminator = true)
      by (apply endswith_iff; exists h; reflexivity).
    split; [left; exact E | ].
    intros c ->. split; [ | rewrite E; discriminate].
    intros _. exists h. split; [reflexivity | ].
    replace h with (firstn i s)
      by (rewrite Hs, <- Hl, firstn_app, Nat.sub_diag, firstn_all; cbn; apply app_nil_r).
    apply no_start_not_In. exact Hno.
  - pose proof (find_None _ _ F) as Hno.
    unfold ByteBuffer.read, ByteBuffer.len. cbn. rewrite Nat2Z.id, firstn_all, skipn_all.
    split; [right; reflexivity | ].
    intros c ->. split.
    + intros E. apply endswith_iff in E. destruct E as [h Hh]. exfalso.
      specialize (Hno (length h)). rewrite Hh, skipn_app, skipn_all, Nat.sub_diag in Hno.
      cbn in Hno. rewrite (@Byte.byte_dec_lb c c eq_refl) in Hno. discriminate.
    + intros _. rewrite <- (firstn_all s). apply no_start_not_In.
      intros j _. apply Hno.
Qed.

End BytesProps.

Module ReaderProps.
Import Reader ReaderSpec.

Section Generic.
Context {W B : Type} (be : ReaderBackend W B).

Lemma fill_cursor (st : St (t B) W) :
  cursor (snd (fill be st)) = cursor st.
Proof.
  unfold fill, raw, set_buffer, cursor. run.
  destruct (_SeekableRawReader.read be (ByteBuffer._chunk_size (_buffer (fst st)))
              (_raw_reader (fst st), snd st)) as [[new_bytes | e] st1];
    cbn; reflexivity.
Qed.

Lemma _fill_buffer_loop_cursor (n : nat) (size : Z) (st : St (t B) W) :
  cursor (snd (_fill_buffer_loop be n size st)) = cursor st.
Proof.
  revert st. induction n as [ | n IH]; intros st; cbn [_fill_buffer_loop].
  - reflexivity.
  - unfold bind at 1. unfold get_self at 1. cbn [fst snd].
    destruct ((ByteBuffer.len (_buffer (fst st)) <? size) && negb (_eof (fst st)));
      [ | reflexivity].
    unfold bind at 1. pose proof (fill_cursor st) as Hf.
    destruct (fill be st) as [[bytes_read | e] st1]; cbn [snd] in Hf; [ | exact Hf].
    unfold bind at 1.
    destruct (bytes_read =? 0).
    + unfold set_eof. run. rewrite IH. rewrite <- Hf. reflexivity.
    + unfold ret at 1. rewrite IH. exact Hf.
Qed.

Lemma _fill_buffer_cursor (size : Z) (st : St (t B) W) :
  cursor (snd (_fill_buffer be size st)) = cursor st.
Proof.
  unfold _fill_buffer. unfold bind, get_self. cbn [fst snd].
  apply _fill_buffer_loop_cursor.
Qed.

(** The loop of [_fill_buffer] is given enough turns: when it returns
    normally its condition is false, the buffer holds [size] bytes or the
    stream has ended. *)
Lemma _fill_buffer_loop_exit (n : nat) (size : Z) (st st' : St (t B) W) :
  size - ByteBuffer.len (_buffer (fst st)) <= Z.of_nat n ->
  _fill_buffer_loop be n size st = (Ok tt, st') ->
  (ByteBuffer.len (_buffer (fst st')) <? size) && negb (_eof (fst st')) = false.
Proof.
  revert st. induction n as [ | n IH]; intros st Hn; cbn [_fill_buffer_loop].
  - intros [= <-]. replace (ByteBuffer.len (_buffer (fst st)) <? size) with false
      by (symmetry; apply Z.ltb_ge; lia). reflexivity.
  - unfold bind at 1. unfold get_self at 1. cbn [fst snd].
    destruct ((ByteBuffer.len (_buffer (fst st)) <? size) && negb (_eof (fst st))) eqn:C.
    + unfold bind at 1.
      destruct (fill be st) as [[bytes_read | e] st1] eqn:F; [ | discriminate].
      assert (G : bytes_read = 0
                  \/ ByteBuffer.len (_buffer (fst st1))
                     >= ByteBuffer.len (_buffer (fst st)) + 1).
      { revert F. unfold fill, raw, set_buffer. run.
        destruct (_SeekableRawReader.read be (ByteBuffer._chunk_size (_buffer (fst st)))
                    (_raw_reader (fst st), snd st)) as [[new_bytes | e] st2];
          [ | discriminate].
        cbn. intros [= <- <-]. cbn. unfold ByteBuffer.len, ByteBuffer.append. cbn.
        rewrite length_app. destruct new_bytes; cbn; [left; reflexivity | right; lia]. }
      unfold bind at 1. destruct (bytes_read =? 0) eqn:Z0.
      * unfold set_eof. run. intros H.
        destruct n as [ | n]; cbn [_fill_buffer_loop] in H.
        -- injection H as <-. cbn. apply andb_false_r.
        -- revert H. run. cbn. rewrite andb_false_r. intros [= <-]. cbn.
           apply andb_false_r.
      * unfold ret at 1. apply IH.
        destruct G as [G | G]; [apply Z.eqb_neq in Z0; contradiction | lia].
    + intros [= <-]. exact C.
Qed.

Lemma _fill_buffer_exit (size : Z) (st st' : St (t B) W) :
  _fill_buffer be size st = (Ok tt, st') ->
  (ByteBuffer.len (_buffer (fst st'))
     <? Z.max size (ByteBuffer._chunk_size (_buffer (fst st))))
  && negb (_eof (fst st')) = false.
Proof.
  unfold _fill_buffer. unfold bind, get_self. cbn [fst snd].
  apply _fill_buffer_loop_exit. lia.
Qed.



Lemma readline_loop_exit (n : nat) (line : bytes) (st : St (t B) W) :
  _eof (fst st) = true -> ByteBuffer.len (_buffer (fst st)) = 0 ->
  readline_loop be n line st = Some (Ok line, st).
Proof.
  intros He Hl. destruct n; cbn [readline_loop]; rewrite He, Hl; reflexivity.
Qed.

(** Once the stream has ended, one turn is enough, and nothing is
    requested. *)
Lemma readline_loop_at_eof (n : nat) (line : bytes) (st : St (t B) W) :
  _eof (fst st) = true ->
  exists line' self',
    readline_loop be (S n) line st = Some (Ok line', (self', snd st)).
Proof.
  intros Heof. cbn [readline_loop]. rewrite Heof. cbn [andb].
  destruct (ByteBuffer.len (_buffer (fst st)) =? 0) eqn:L.
  { exists line, (fst st). destruct st; reflexivity. }
  set (r := ByteBuffer.readline (_buffer (fst st)) (_line_terminator (fst st))).
  destruct (endswith (fst r) (_line_terminator (fst st))) eqn:E.
  { eexists _, _. reflexivity. }
  assert (Hempty : ByteBuffer.len (snd r) = 0).
  { pose proof (BytesProps.readline_part (_buffer (fst st)) (_line_terminator (fst st)))
      as [[H | H] _]; cbn zeta in H; fold r in H; [congruence | exact H]. }
  unfold _fill_buffer. unfold bind at 1. unfold get_self at 1. cbn [fst snd].
  cbn [with_current_pos with_buffer _buffer _eof _line_terminator _current_pos].
  match goal with
  | |- context [_fill_buffer_loop be ?k ?z ?s] =>
      assert (F : _fill_buffer_loop be k z s = (Ok tt, s))
  end.
  { match goal with |- _fill_buffer_loop be ?k _ _ = _ => destruct k end;
      cbn [_fill_buffer_loop]; [reflexivity | ].
    run. cbn. rewrite Heof, andb_false_r. reflexivity. }
  rewrite F. rewrite readline_loop_exit; [eexists _, _; reflexivity | exact Heof | exact Hempty].
Qed.

Section Termination.
Variable I : St (_SeekableRawReader.t B) W -> Prop.
Variable mu : St (_SeekableRawReader.t B) W -> nat.

Lemma fill_progress (st : St (t B) W) :
  progresses be I mu (chunk st) -> I (raw_state st) ->
  match fill be st with
  | (Ok k, st') =>
      I (raw_state st') /\ chunk st' = chunk st /\ _eof (fst st') = _eof (fst st)
      /\ (mu (raw_state st') <= mu (raw_state st))%nat
      /\ (k = 0 \/ (mu (raw_state st') < mu (raw_state st))%nat)
  | (Raise _, _) => True
  end.
Proof.
  intros Hp Hi. specialize (Hp _ Hi). unfold fill, raw, set_buffer. run.
  unfold chunk, raw_state in *.
  destruct (_SeekableRawReader.read be (ByteBuffer._chunk_size (_buffer (fst st)))
              (_raw_reader (fst st), snd st)) as [[binary | e] [raw' n']]; cbn;
    [ | trivial].
  destruct Hp as (Hi' & Hle & Hm). repeat split; trivial.
  destruct Hm as [-> | Hm]; [left; reflexivity | right; exact Hm].
Qed.

Lemma _fill_buffer_loop_progress (n : nat) (size : Z) (st : St (t B) W) :
  progresses be I mu (chunk st) -> I (raw_state st) ->
  match _fill_buffer_loop be n size st with
  | (Ok _, st') =>
      I (raw_state st') /\ chunk st' = chunk st
      /\ (mu (raw_state st') <= mu (raw_state st))%nat
      /\ (_eof (fst st') = true
          \/ (_eof (fst st) = false
              /\ ((n = O \/ size <= ByteBuffer.len (_buffer (fst st)))
                  \/ (mu (raw_state st') < mu (raw_state st))%nat)))
  | (Raise _, _) => True
  end.
Proof.
  revert st. induction n as [ | n IH]; intros st Hp Hi; cbn [_fill_buffer_loop].
  - unfold ret. repeat split; trivial.
    destruct (_eof (fst st));
      [left; reflexivity | right; split; [reflexivity | left; left; reflexivity]].
  - unfold bind at 1. unfold get_self at 1. cbn [fst snd].
    destruct (ByteBuffer.len (_buffer (fst st)) <? size) eqn:L; cbn [andb].
    2:{ unfold ret. repeat split; trivial.
        destruct (_eof (fst st)); [left; reflexivity | right; split; [reflexivity | ]].
        left; right; apply Z.ltb_ge; exact L. }
    destruct (_eof (fst st)) eqn:E; cbn [negb].
    { unfold ret. repeat split; trivial. left; exact E. }
    unfold bind at 1. pose proof (fill_progress st Hp Hi) as Hf.
    destruct (fill be st) as [[k | e] st1]; [ | trivial].
    destruct Hf as (Hi1 & Hc1 & He1 & Hle1 & Hk).
    unfold bind at 1. destruct (k =? 0) eqn:K.
    + unfold set_eof. run.
      set (st1' := (with_eof (fst st1) true, snd st1)).
      assert (Hi1' : I (raw_state st1')) by exact Hi1.
      assert (Hp1' : progresses be I mu (chunk st1'))
        by (unfold chunk in *; cbn; rewrite Hc1; exact Hp).
      specialize (IH st1' Hp1' Hi1').
      destruct (_fill_buffer_loop be n size st1') as [[u | e] st2]; [ | trivial].
      destruct IH as (Hi2 & Hc2 & Hm2 & He2).
      assert (Heof2 : _eof (fst st2) = true)
        by (destruct He2 as [H | [H _]]; [exact H | discriminate H]).
      repeat split; trivial.
      * rewrite Hc2. exact Hc1.
      * unfold raw_state in *. cbn in *. lia.
      * left; exact Heof2.
    + unfold ret at 1.
      assert (Hp1 : progresses be I mu (chunk st1)) by (rewrite Hc1; exact Hp).
      specialize (IH st1 Hp1 Hi1).
      destruct (_fill_buffer_loop be n size st1) as [[u | e] st2]; [ | trivial].
      destruct IH as (Hi2 & Hc2 & Hm2 & He2).
      apply Z.eqb_neq in K. destruct Hk as [Hk | Hk]; [contradiction | ].
      repeat split; trivial.
      * rewrite Hc2. exact Hc1.
      * lia.
      * destruct He2 as [H | [H _]]; [left; exact H | right].
        split; [reflexivity | right; lia].
Qed.

Lemma _fill_buffer_progress (st : St (t B) W) :
  progresses be I mu (chunk st) -> I (raw_state st) -> 0 < chunk st ->
  ByteBuffer.len (_buffer (fst st)) = 0 ->
  match _fill_buffer be (-1) st with
  | (Ok _, st') =>
      I (raw_state st') /\ chunk st' = chunk st
      /\ (_eof (fst st') = true \/ (mu (raw_state st') < mu (raw_state st))%nat)
  | (Raise _, _) => True
  end.
Proof.
  intros Hp Hi Hc Hl. unfold _fill_buffer. unfold bind, get_self. cbn [fst snd].
  fold (chunk st). rewrite Hl.
  pose proof (_fill_buffer_loop_progress (Z.to_nat (Z.max (-1) (chunk st) - 0))
                (Z.max (-1) (chunk st)) st Hp Hi) as H.
  destruct (_fill_buffer_loop be _ _ st) as [[u | e] st']; [ | trivial].
  destruct H as (Hi' & Hc' & _ & He). repeat split; trivial.
  destruct He as [He | [_ [[He | He] | He]]];
    [left; exact He | lia | lia | right; exact He].
Qed.

(** [readline] terminates: while the raw reader makes progress, [mu + 2]
    turns are enough for a result, a line or an exception. *)
Lemma readline_loop_terminates (n : nat) (line : bytes) (st : St (t B) W) :
  progresses be I mu (chunk st) -> I (raw_state st) -> 0 < chunk st ->
  (mu (raw_state st) + 2 <= n)%nat ->
  exists r, readline_loop be n line st = Some r.
Proof.
  revert line st. induction n as [ | n IH]; intros line st Hp Hi Hc Hn; [lia | ].
  destruct (_eof (fst st)) eqn:Heof.
  { destruct (readline_loop_at_eof n line st Heof) as (l & s' & H).
    eexists; exact H. }
  cbn [readline_loop]. rewrite Heof. cbn [andb].
  set (r := ByteBuffer.readline (_buffer (fst st)) (_line_terminator (fst st))).
  destruct (endswith (fst r) (_line_terminator (fst st))) eqn:E; [eexists; reflexivity | ].
  assert (Hempty : ByteBuffer.len (snd r) = 0).
  { pose proof (BytesProps.readline_part (_buffer (fst st)) (_line_terminator (fst st)))
      as [[H | H] _]; cbn zeta in H; fold r in H; [congruence | exact H]. }
  set (st1 := (with_current_pos (with_buffer (fst st) (snd r))
                 (_current_pos (fst st) + Z.of_nat (length (fst r))), snd st)).
  assert (Hc1 : chunk st1 = chunk st).
  { unfold chunk, st1, r. cbn. unfold ByteBuffer.readline.
    destruct (find _ _); reflexivity. }
  pose proof (_fill_buffer_progress st1) as Hf.
  rewrite Hc1 in Hf. specialize (Hf Hp Hi Hc Hempty).
  destruct (_fill_buffer be (-1) st1) as [[u | e] st2]; [ | eexists; reflexivity].
  destruct Hf as (Hi2 & Hc2 & Hm).
  destruct Hm as [He2 | Hm].
  - destruct n as [ | n]; [lia | ].
    destruct (readline_loop_at_eof n (line ++ fst r) st2 He2) as (l & s' & H).
    eexists; exact H.
  - apply IH.
    + rewrite Hc2. exact Hp.
    + exact Hi2.
    + rewrite Hc2. exact Hc.
    + change (raw_state st1) with (raw_state st) in Hm. lia.
Qed.

End Termination.

(** What a read to the end copies into the position is a number. *)
Lemma read_all_length_known (st st' : St (t B) W) (binary : bytes) :
  raw (_SeekableRawReader.read be (-1)) st = (Ok binary, st') ->
  exists cl, _SeekableRawReader._content_length (_raw_reader (fst st')) = Some cl.
Proof.
  unfold raw, lift_field.
  destruct (_SeekableRawReader.read be (-1) (_raw_reader (fst st), snd st))
    as [r rst'] eqn:R. cbn [fst snd]. intros [= -> <-]. cbn.
  exact (RawReaderProps.read_ok_length_known be (-1) _ _ _ R).
Qed.


(** C9.  [read(0)] returns no bytes and leaves the whole state as it was:
    the reader (position, buffer, EOF flag, raw reader) and the network, to
    which nothing is sent.  This holds in every state; one of them is the
    reader constructed with [defer_seek], whose construction sent nothing
    either. *)
Theorem read_zero_is_noop (st : St (t B) W) :
  read be 0 st = (Ok [], st)
  /\ fst (tell (snd (read be 0 st))) = fst (tell st)
  /\ forall version buffer_size line_terminator (n : Net W),
       exists self,
         __init__ be version buffer_size line_terminator true (tt, n) = (Ok self, (tt, n))
         /\ _SeekableRawReader._body (_raw_reader self) = None
         /\ read be 0 (self, n) = (Ok [], (self, n)).
Proof.
  repeat split. intros version buffer_size line_terminator n.
  eexists. repeat split.
Qed.
End Generic.



(** On the simulated store, without faults to come, [readline] always
    reaches a result: as many turns as the object has bytes, and two more,
    are enough. *)
Lemma sim_readline_terminates (data : bytes) (st : St (t bytes) Sim.World) :
  RawReaderSpec.sim_inv data (raw_state st) -> 0 < chunk st ->
  exists r, readline Sim.reader (length data + 2) (-1) st = Some r.
Proof.
  intros Hi Hc. unfold readline. cbn [Z.eqb Pos.eqb negb].
  apply (readline_loop_terminates Sim.reader (RawReaderSpec.sim_inv data)
           (RawReaderSpec.sim_mu data)); trivial.
  - intros rst Hr. apply RawReaderProps.sim_progresses; assumption.
  - unfold RawReaderSpec.sim_mu. destruct Hi as (_ & _ & _ & Hp & _).
    unfold raw_state in *. cbn [fst] in *. lia.
Qed.
End ReaderProps.

Module RetryProps.
Import RetrySpec.

Section Generic.
Context {Obj W A : Type}.
Variable partial : M (St Obj W) A.
Variable sleep_seconds : Z.
Variable exceptions : list ExnClass.

Lemma _retry_loop_step (n : nat) (st st1 : St Obj W) (e : Exn) :
  0 <= sleep_seconds ->
  partial st = (Raise e, st1) ->
  isinstance_any e exceptions = true ->
  _retry_loop partial sleep_seconds exceptions (S n) st
  = _retry_loop partial sleep_seconds exceptions n (slept sleep_seconds st1).
Proof.
  intros Hs Hp He. cbn [_retry_loop]. unfold try_except. rewrite Hp, He.
  unfold time_sleep. replace (sleep_seconds <? 0) with false
    by (symmetry; apply Z.ltb_ge; exact Hs).
  reflexivity.
Qed.

Lemma _retry_loop_spec (n k : nat) (st stk : St Obj W) :
  0 <= sleep_seconds ->
  retried partial sleep_seconds exceptions k st stk ->
  (k <= n)%nat ->
  _retry_loop partial sleep_seconds exceptions n st
  = _retry_loop partial sleep_seconds exceptions (n - k) stk.
Proof.
  intros Hs Hr. revert n. induction Hr as [st | k st st1 st2 e Hp He Hr IH]; intros n Hk.
  - rewrite Nat.sub_0_r. reflexivity.
  - destruct n as [ | n]; [lia | ].
    rewrite (_retry_loop_step n st st1 e Hs Hp He). cbn [Nat.sub].
    apply IH. lia.
Qed.

Lemma _retry_loop_S (n : nat) :
  _retry_loop partial sleep_seconds exceptions (S n)
  = try_except partial (fun e => isinstance_any e exceptions)
      (fun _ => bind (time_sleep sleep_seconds)
                  (fun _ => _retry_loop partial sleep_seconds exceptions n)).
Proof. reflexivity. Qed.

(** Retrying only adds to the trace, if the operation only adds to it. *)
Lemma _retry_loop_extends (n : nat) (st : St Obj W) :
  (forall s, exists evs, trace (snd (snd (partial s))) = trace (snd s) ++ evs) ->
  exists evs,
    trace (snd (snd (_retry_loop partial sleep_seconds exceptions n st)))
    = trace (snd st) ++ evs.
Proof.
  intros Hp. revert st. induction n as [ | n IH]; intros st; cbn [_retry_loop].
  - exists []. symmetry. apply app_nil_r.
  - unfold try_except. destruct (Hp st) as [evs Hevs].
    destruct (partial st) as [[a | e] st1]; cbn [fst snd] in *;
      [exists evs; exact Hevs | ].
    destruct (isinstance_any e exceptions); [ | exists evs; exact Hevs].
    unfold bind, time_sleep. destruct (sleep_seconds <? 0); cbn [raise fst snd].
    + exists evs; exact Hevs.
    + cbn. destruct (IH (fst st1, {| world := world (snd st1);
                                     trace := trace (snd st1) ++ [EvSleep sleep_seconds] |}))
        as [evs' Hevs'].
      exists (evs ++ [EvSleep sleep_seconds] ++ evs').
      cbn [fst snd trace] in Hevs'. rewrite Hevs', Hevs, <- !app_assoc. reflexivity.
Qed.

(** The first thing a retried operation sends is the first thing the
    operation sends. *)
Lemma _retry_loop_first (n : nat) (st : St Obj W) (ev : Event) :
  (forall s, exists evs, trace (snd (snd (partial s))) = trace (snd s) ++ evs) ->
  (exists evs, trace (snd (snd (partial st))) = trace (snd st) ++ ev :: evs) ->
  exists evs,
    trace (snd (snd (_retry_loop partial sleep_seconds exceptions (S n) st)))
    = trace (snd st) ++ ev :: evs.
Proof.
  intros Hext [evs Hevs]. rewrite _retry_loop_S. unfold try_except.
  destruct (partial st) as [[a | e] st1]; cbn [fst snd] in *;
    [exists evs; exact Hevs | ].
  destruct (isinstance_any e exceptions); [ | exists evs; exact Hevs].
  unfold bind, time_sleep. destruct (sleep_seconds <? 0); cbn [raise fst snd].
  - exists evs; exact Hevs.
  - cbn. destruct (_retry_loop_extends n
                     (fst st1, {| world := world (snd st1);
                                  trace := trace (snd st1) ++ [EvSleep sleep_seconds] |})
                     Hext) as [evs' Hevs'].
    exists (evs ++ [EvSleep sleep_seconds] ++ evs').
    cbn [fst snd trace] in Hevs'. rewrite Hevs', Hevs, <- !app_assoc. reflexivity.
Qed.

(** Sleeping and retrying never touch the object the operation belongs to,
    if the operation itself does not. *)
Lemma _retry_loop_self (n : nat) (st : St Obj W) :
  (forall s, fst (snd (partial s)) = fst s) ->
  fst (snd (_retry_loop partial sleep_seconds exceptions n st)) = fst st.
Proof.
  intros Hp. revert st. induction n as [ | n IH]; intros st; cbn [_retry_loop].
  - reflexivity.
  - unfold try_except. specialize (Hp st).
    destruct (partial st) as [[a | e] st1]; cbn [fst snd] in *; [exact Hp | ].
    destruct (isinstance_any e exceptions); [ | exact Hp].
    unfold bind, time_sleep. destruct (sleep_seconds <? 0); cbn; [exact Hp | ].
    rewrite IH. exact Hp.
Qed.

End Generic.

(** C6.  Let the operation have failed [k] times in a row with exceptions of
    the retryable set, each failure followed by one sleep of the configured
    length ([retried]).  If fewer than [attempts] attempts were used, the next
    invocation decides: its result is returned, and an exception outside the
    retryable set is raised as it is, at once, with no sleep and no further
    invocation.  If [k] is the number of attempts, no further invocation is
    made and [IOError] is raised.  By default the retryable set is
    [EndpointConnectionError] alone. *)
Theorem retry_if_failed_spec {Obj W A : Type} (partial : M (St Obj W) A)
    (attempts sleep_seconds : Z) (exceptions : option (list ExnClass))
    (k : nat) (st stk : St Obj W) :
  0 <= sleep_seconds ->
  let retryable := match exceptions with
                   | None => [C_EndpointConnectionError]
                   | Some l => l
                   end in
  retried partial sleep_seconds retryable k st stk ->
  (Z.of_nat k < attempts ->
   forall r st',
     partial stk = (r, st') ->
     match r with
     | Ok _ => True
     | Raise e => isinstance_any e retryable = false
     end ->
     _retry_if_failed partial attempts sleep_seconds exceptions st = (r, st'))
  /\ (Z.of_nat k = Z.max 0 attempts ->
      _retry_if_failed partial attempts sleep_seconds exceptions st
      = (Raise (IOError None), stk))
  /\ (forall e, isinstance_any e [C_EndpointConnectionError] = true
                <-> e = EndpointConnectionError).
Proof.
  intros Hs retryable Hr. unfold _retry_if_failed. fold retryable. repeat split.
  - intros Hk r st' Hp Hmatch.
    rewrite (_retry_loop_spec partial sleep_seconds retryable (Z.to_nat attempts) k st stk
               Hs Hr) by lia.
    destruct (Z.to_nat attempts - k)%nat as [ | m] eqn:E; [lia | ].
    cbn [_retry_loop]. unfold try_except. rewrite Hp.
    destruct r as [a | e]; [reflexivity | ]. rewrite Hmatch. reflexivity.
  - intros Hk.
    rewrite (_retry_loop_spec partial sleep_seconds retryable (Z.to_nat attempts) k st stk
               Hs Hr) by lia.
    replace (Z.to_nat attempts - k)%nat with O by lia. reflexivity.
  - destruct e; cbn; discriminate || reflexivity.
  - intros ->. reflexivity.
Qed.

Lemma retry_if_failed_spec_witness :
  _retry_if_failed initiate _UPLOAD_ATTEMPTS _SLEEP_SECONDS None (offline 2)
  = (Ok tt,
     (tt, {| world := Sim.vacant;
             trace := [EvInitiateMultipartUpload; EvSleep 10;
                       EvInitiateMultipartUpload; EvSleep 10;
                       EvInitiateMultipartUpload] |}))
  /\ fst (_retry_if_failed initiate _UPLOAD_ATTEMPTS _SLEEP_SECONDS None (offline 6))
     = Raise (IOError None).
Proof.
  assert (Hs : 0 <= _SLEEP_SECONDS) by discriminate.
  split.
  - assert (R : retried initiate _SLEEP_SECONDS [C_EndpointConnectionError] 2 (offline 2)
                  (tt, {| world := Sim.vacant;
                          trace := [EvInitiateMultipartUpload; EvSleep 10;
                                    EvInitiateMultipartUpload; EvSleep 10] |})).
    { eapply retried_again; [reflexivity | reflexivity | ].
      eapply retried_again; [reflexivity | reflexivity | ].
      apply retried_none. }
    exact (proj1 (retry_if_failed_spec initiate _UPLOAD_ATTEMPTS _SLEEP_SECONDS None
                    2 (offline 2) _ Hs R) eq_refl (Ok tt) _ eq_refl I).
  - assert (R : retried initiate _SLEEP_SECONDS [C_EndpointConnectionError] 6 (offline 6)
                  (tt, {| world := Sim.vacant;
                          trace := [EvInitiateMultipartUpload; EvSleep 10;
                                    EvInitiateMultipartUpload; EvSleep 10;
                                    EvInitiateMultipartUpload; EvSleep 10;
                                    EvInitiateMultipartUpload; EvSleep 10;
                                    EvInitiateMultipartUpload; EvSleep 10;
                                    EvInitiateMultipartUpload; EvSleep 10] |})).
    { do 6 (eapply retried_again; [reflexivity | reflexivity | ]).
      apply retried_none. }
    exact (f_equal fst
             (proj1 (proj2 (retry_if_failed_spec initiate _UPLOAD_ATTEMPTS _SLEEP_SECONDS
                              None 6 (offline 6) _ Hs R)) eq_refl)).
Defined.

End RetryProps.

Module WriterProps.
Import MultipartWriter WriterSpec.

Section Generic.
Context {W MP : Type} (be : WriterBackend W MP).

(** A retried request that is answered at the first attempt. *)
Lemma retry_answered {Obj A : Type} (partial : M (St Obj W) A) (st st' : St Obj W)
    (r : Result A) :
  partial st = (r, st') ->
  match r with
  | Ok _ => True
  | Raise e => isinstance e C_EndpointConnectionError = false
  end ->
  _retry_if_failed partial _UPLOAD_ATTEMPTS _SLEEP_SECONDS None st = (r, st').
Proof.
  intros Hp Hr. unfold _retry_if_failed.
  change (Z.to_nat _UPLOAD_ATTEMPTS) with 6%nat. cbn [_retry_loop].
  unfold try_except at 1. rewrite Hp. destruct r as [a | e]; [reflexivity | ].
  unfold isinstance_any. cbn [existsb]. rewrite Hr. reflexivity.
Qed.

Lemma _upload_next_part_ok (self : t MP) (n : Net W) (mp : MP) (etag : string) (w1 : W) :
  _mp self = Some mp ->
  part_upload be mp (_total_parts self + 1) (bio_data (_buf self)) (world n)
    = (Ok (Some etag), w1) ->
  _upload_next_part be (self, n)
  = (Ok tt, (flushed self etag,
             logged n w1 [EvUploadPart (_total_parts self + 1) (bio_data (_buf self))])).
Proof.
  intros Hmp Hup. unfold _upload_next_part.
  unfold bind at 1. unfold get_self at 1. cbn [fst snd].
  unfold bind at 1. unfold set_self at 1. cbn [fst snd]. rewrite Hmp.
  unfold bind at 1.
  erewrite retry_answered with (r := Ok (Some etag)); [ | | exact I]; cycle 1.
  - run. cbn. unfold bio_remaining. cbn. rewrite Hup. reflexivity.
  - run. unfold flushed. destruct self; cbn in *. rewrite Hmp. reflexivity.
Qed.

Lemma _upload_next_part_resets (st st' : St (t MP) W) :
  _upload_next_part be st = (Ok tt, st') -> _buf (fst st') = BytesIO_new.
Proof.
  unfold _upload_next_part.
  unfold bind at 1. unfold get_self at 1. cbn [fst snd].
  unfold bind at 1. unfold set_self at 1. cbn [fst snd].
  destruct (_mp (fst st)) as [mp | ]; [ | discriminate].
  unfold bind at 1.
  match goal with
  | |- context [_retry_if_failed ?p ?a ?b ?c ?s] => destruct (_retry_if_failed p a b c s) as [[[etag | ] | e] s1]
  end; try discriminate.
  run. intros [= <-]. reflexivity.
Qed.

Lemma finish_self (self : t MP) (st : St (t MP) W) :
  fst (snd (finish be self st)) = fst st.
Proof.
  unfold finish. destruct (_mp self) as [mp | ]; [ | reflexivity].
  destruct (negb (_total_bytes self =? 0)).
  - unfold _retry_if_failed. apply RetryProps._retry_loop_self.
    intros s. run. reflexivity.
  - run. destruct (mp_abort be mp (world (snd st))) as [[u | e] w1]; reflexivity.
Qed.

Lemma close_eq (st : St (t MP) W) :
  close be st
  = bind (if negb (bio_tell (_buf (fst st)) =? 0) then _upload_next_part be else ret tt)
      (fun _ => bind get_self (fun self =>
         bind (finish be self) (fun _ =>
           bind get_self (fun self => set_self (with_mp self None))))) st.
Proof. reflexivity. Qed.

(** C10.  After a [close] that returned normally the writer is closed, and
    closing it again changes nothing at all: the writer (parts, byte count,
    part count) and the network, trace included, are the same, so no part
    upload, completion, abort or put is issued. *)
Theorem close_twice (st st1 : St (t MP) W) :
  close be st = (Ok tt, st1) ->
  closed st1 = (Ok true, st1) /\ close be st1 = (Ok tt, st1).
Proof.
  rewrite close_eq. unfold bind at 1.
  destruct ((if negb (bio_tell (_buf (fst st)) =? 0) then _upload_next_part be else ret tt) st)
    as [[[] | e] s1] eqn:P1; [ | discriminate].
  assert (Hbuf : bio_tell (_buf (fst s1)) = 0).
  { destruct (bio_tell (_buf (fst st)) =? 0) eqn:T; cbn [negb] in P1.
    - injection P1 as <-. apply Z.eqb_eq. exact T.
    - apply _upload_next_part_resets in P1. rewrite P1. reflexivity. }
  unfold bind at 1. unfold get_self at 1. cbn [fst snd].
  unfold bind at 1. pose proof (finish_self (fst s1) s1) as Hf.
  destruct (finish be (fst s1) s1) as [[[] | e] s2]; [ | discriminate].
  cbn [snd] in Hf. run. intros [= <-]. split.
  - unfold closed. run. reflexivity.
  - rewrite close_eq. cbn [fst snd with_mp _buf _mp]. rewrite Hf, Hbuf.
    cbn [Z.eqb negb]. run. cbn. unfold finish. cbn. reflexivity.
Qed.

Lemma _upload_next_part_staging (st : St (t MP) W) :
  bio_tell (_buf (fst (snd (_upload_next_part be st)))) = 0
  /\ _total_bytes (fst (snd (_upload_next_part be st))) = _total_bytes (fst st).
Proof.
  destruct (_upload_next_part be st) as [r st'] eqn:E. cbn [snd]. revert E.
  unfold _upload_next_part.
  unfold bind at 1. unfold get_self at 1. cbn [fst snd].
  unfold bind at 1. unfold set_self at 1. cbn [fst snd].
  destruct (_mp (fst st)) as [mp | ]; [ | intros [= _ <-]; split; reflexivity].
  unfold bind at 1.
  match goal with
  | |- context [_retry_if_failed ?p ?a ?b ?c ?s] =>
      pose proof (RetryProps._retry_loop_self p b [C_EndpointConnectionError]
                    (Z.to_nat a) s) as Hself;
      change (_retry_loop p b [C_EndpointConnectionError] (Z.to_nat a) s)
        with (_retry_if_failed p a b c s) in Hself;
      destruct (_retry_if_failed p a b c s) as [[[etag | ] | e] s1]
  end; cbn [fst snd] in Hself; run; intros [= _ <-]; cbn [fst];
    try rewrite Hself by (intros s; reflexivity); split; reflexivity.
Qed.

Lemma write_staged (b : bytes) (st : St (t MP) W) :
  staged st -> staged (snd (write be b st)).
Proof.
  unfold staged. intros H.
  destruct (write be b st) as [r st'] eqn:E. cbn [snd]. revert E. unfold write.
  unfold bind at 1. unfold get_self at 1. cbn [fst snd].
  unfold bind at 1. unfold set_self at 1. cbn [fst snd].
  unfold bind at 1. unfold get_self at 1. cbn [fst snd].
  unfold bind at 1. unfold set_self at 1. cbn [fst snd].
  unfold bind at 1. unfold get_self at 1. cbn [fst snd].
  cbn [with_total_bytes with_buf _buf _total_bytes _min_part_size].
  unfold bind at 1.
  match goal with
  | |- context [if ?c then _ else _] => destruct c
  end.
  - match goal with
    | |- context [_upload_next_part be ?s] =>
        generalize (_upload_next_part_staging s);
        destruct (_upload_next_part be s) as [[u | e] s1]
    end; cbn [fst snd]; intros [H1 H2]; run; intros [= _ <-];
      rewrite H1, H2; cbn; unfold bio_tell in *; lia.
  - run. intros [= _ <-]. cbn. unfold bio_tell in *. cbn. lia.
Qed.

(** A freshly constructed writer has staged nothing. *)
Lemma init_staged (min_part_size : Z) (st st' : St unit W) (self : t MP) :
  __init__ be min_part_size st = (Ok self, st') -> staged (self, snd st').
Proof.
  unfold __init__. unfold bind at 1.
  match goal with
  | |- context [try_except ?m ?h ?k st] => destruct (try_except m h k st) as [[mp | e] s1]
  end; [ | discriminate].
  unfold ret. intros [= <- <-]. unfold staged. cbn. lia.
Qed.


Lemma _upload_next_part_first_event (self : t MP) (n : Net W) (mp : MP) :
  _mp self = Some mp ->
  exists evs,
    trace (snd (snd (_upload_next_part be (self, n))))
    = trace n ++ EvUploadPart (_total_parts self + 1) (bio_data (_buf self)) :: evs.
Proof.
  intros Hmp. unfold _upload_next_part.
  unfold bind at 1. unfold get_self at 1. cbn [fst snd].
  unfold bind at 1. unfold set_self at 1. cbn [fst snd]. rewrite Hmp.
  unfold bind at 1. unfold _retry_if_failed.
  change (Z.to_nat _UPLOAD_ATTEMPTS) with 6%nat.
  match goal with
  | |- context [_retry_loop ?p ?s ?x 6 ?st0] =>
      generalize (RetryProps._retry_loop_first p s x 5 st0
                    (EvUploadPart (_total_parts self + 1) (bio_data (_buf self))));
      destruct (_retry_loop p s x 6 st0) as [[[etag | ] | e] s1]
  end; cbn [fst snd]; intros H;
    (destruct H as [evs Hevs];
     [intros s; run; eexists; reflexivity
     | run; exists []; reflexivity
     | run; exists evs; exact Hevs]).
Qed.

(** A write flushes exactly when the staging buffer, after the bytes were
    appended, has reached the minimum part size: below it nothing is sent;
    at or above it the first thing sent is the upload of the whole buffer as
    the next part. *)
Lemma write_flush_rule (self : t MP) (n : Net W) (b : bytes) (mp : MP) :
  _mp self = Some mp ->
  let buf' := snd (bio_write (_buf self) b) in
  (bio_tell buf' < _min_part_size self ->
   write be b (self, n)
   = (Ok (Z.of_nat (length b)),
      (with_total_bytes (with_buf self buf') (_total_bytes self + Z.of_nat (length b)), n)))
  /\ (_min_part_size self <= bio_tell buf' ->
      exists evs,
        trace (snd (snd (write be b (self, n))))
        = trace n ++ EvUploadPart (_total_parts self + 1) (bio_data buf') :: evs).
Proof.
  intros Hmp buf'. split; intros Hsize.
  - unfold write. run. cbn [with_total_bytes with_buf _buf _min_part_size].
    fold buf'.
    replace (bio_tell buf' >=? _min_part_size self) with false
      by (symmetry; rewrite Z.geb_leb; apply Z.leb_gt; exact Hsize).
    reflexivity.
  - destruct (write be b (self, n)) as [r st'] eqn:E. cbn [snd]. revert E. unfold write.
    unfold bind at 1. unfold get_self at 1. cbn [fst snd].
    unfold bind at 1. unfold set_self at 1. cbn [fst snd].
    unfold bind at 1. unfold get_self at 1. cbn [fst snd].
    unfold bind at 1. unfold set_self at 1. cbn [fst snd].
    unfold bind at 1. unfold get_self at 1. cbn [fst snd].
    cbn [with_total_bytes with_buf _buf _total_bytes _min_part_size].
    fold buf'.
    replace (bio_tell buf' >=? _min_part_size self) with true
      by (symmetry; rewrite Z.geb_leb; apply Z.leb_le; exact Hsize).
    unfold bind at 1.
    match goal with
    | |- context [_upload_next_part be (?s, n)] =>
        generalize (_upload_next_part_first_event s n mp Hmp);
        destruct (_upload_next_part be (s, n)) as [[u | e] s1]
    end; cbn [fst snd with_total_bytes with_buf _buf _total_parts];
      intros U; run; intros [= _ <-]; exact U.
Qed.
End Generic.


Lemma close_twice_witness :
  let st1 := snd ((write Sim.writer abc ;; close Sim.writer)%monad (created 5 Sim.vacant)) in
  closed st1 = (Ok true, st1) /\ close Sim.writer st1 = (Ok tt, st1).
Proof.
  exact (close_twice Sim.writer
           (snd (write Sim.writer abc (created 5 Sim.vacant)))
           _ eq_refl).
Defined.

(** C5.  Minimum part size 5, three writes of 3 bytes each, then [close], on
    a store that answers every request.  Two parts are uploaded, numbered 1
    and 2 in write order: the first holds the first two writes (6 bytes), the
    second the third write (3 bytes); completion lists them in that order;
    [tell] is 9 after [close], and the object holds the 9 bytes.  Nothing is
    uploaded by the first write (3 < 5).  In general a write flushes exactly
    when the staging buffer has reached the minimum part size. *)
Theorem three_writes_two_parts (b1 b2 b3 : bytes) :
  length b1 = 3%nat -> length b2 = 3%nat -> length b3 = 3%nat ->
  let part1 := {| ETag := Sim.etag_of 1; PartNumber := 1 |} in
  let part2 := {| ETag := Sim.etag_of 2; PartNumber := 2 |} in
  (write Sim.writer b1 ;; write Sim.writer b2 ;; write Sim.writer b3 ;;
   close Sim.writer ;; tell)%monad (created 5 Sim.vacant)
  = (Ok 9,
     (mk 5 None BytesIO_new 9 2 [part1; part2],
      {| world := Sim.with_object Sim.vacant (Some (b1 ++ b2 ++ b3));
         trace := [EvInitiateMultipartUpload;
                   EvUploadPart 1 (b1 ++ b2);
                   EvUploadPart 2 b3;
                   EvComplete [part1; part2]] |}))
  /\ trace (snd (snd (write Sim.writer b1 (created 5 Sim.vacant))))
     = [EvInitiateMultipartUpload]
  /\ (forall (W MP : Type) (be : WriterBackend W MP) (self : t MP) (n : Net W)
             (b : bytes) (mp : MP),
        _mp self = Some mp ->
        let buf' := snd (bio_write (_buf self) b) in
        (bio_tell buf' < _min_part_size self ->
         write be b (self, n)
         = (Ok (Z.of_nat (length b)),
            (with_total_bytes (with_buf self buf')
               (_total_bytes self + Z.of_nat (length b)), n)))
        /\ (_min_part_size self <= bio_tell buf' ->
            exists evs,
              trace (snd (snd (write be b (self, n))))
              = trace n ++ EvUploadPart (_total_parts self + 1) (bio_data buf') :: evs)).
Proof.
  intros H1 H2 H3.
  destruct b1 as [ | x1 [ | x2 [ | x3 [ | ]]]]; try discriminate.
  destruct b2 as [ | y1 [ | y2 [ | y3 [ | ]]]]; try discriminate.
  destruct b3 as [ | z1 [ | z2 [ | z3 [ | ]]]]; try discriminate.
  split; [vm_compute; reflexivity | ].
  split; [vm_compute; reflexivity | ].
  intros W MP be self n b mp Hmp. exact (write_flush_rule be self n b mp Hmp).
Qed.

Lemma three_writes_two_parts_witness :
  fst ((write Sim.writer abc ;; write Sim.writer abc ;; write Sim.writer abc ;;
        close Sim.writer ;; tell)%monad (created 5 Sim.vacant)) = Ok 9.
Proof.
  exact (f_equal fst (proj1 (three_writes_two_parts abc abc abc eq_refl eq_refl eq_refl))).
Defined.
End WriterProps.

Module BucketProps.
Import BucketSpec.

Section Generic.
Context {W : Type} (be : BucketBackend W).




End Generic.

Lemma ten_keys_NoDup : NoDup ten_keys.
Proof.
  unfold ten_keys.
  repeat (apply NoDup_cons; [cbn; intuition discriminate | ]). apply NoDup_nil.
Qed.


End BucketProps.

Module BytesIOProps.

(** Writing at the end of an [io.BytesIO] appends. *)
Lemma bio_write_append (b : BytesIO) (data : bytes) :
  bio_pos b = length (bio_data b) ->
  bio_write b data
  = (Z.of_nat (length data),
     {| bio_data := bio_data b ++ data; bio_pos := length (bio_data b ++ data) |}).
Proof.
  intros H. unfold bio_write. rewrite H, Nat.sub_diag, firstn_all. cbn [repeat].
  rewrite app_nil_r, skipn_all2 by lia. rewrite app_nil_r, length_app. reflexivity.
Qed.

(** After any write the position is within the data. *)
Lemma bio_write_within (b : BytesIO) (data : bytes) :
  (bio_pos (snd (bio_write b data)) <= length (bio_data (snd (bio_write b data))))%nat.
Proof.
  unfold bio_write. cbn [snd bio_pos bio_data].
  rewrite !length_app, length_firstn, repeat_length. lia.
Qed.

End BytesIOProps.

Module SinglepartProps.
Import SinglepartWriter SinglepartSpec.

Section Generic.
Context {W : Type} (be : SinglepartBackend W).

Lemma write_appends (self : t) (n : Net W) (buf : BytesIO) (b : bytes) :
  _buf self = Some buf -> bio_pos buf = length (bio_data buf) ->
  write b (self, n)
  = (Ok (Z.of_nat (length b)),
     (mk (Some {| bio_data := bio_data buf ++ b; bio_pos := length (bio_data buf ++ b) |})
         (_total_bytes self + Z.of_nat (length b)), n)).
Proof.
  intros Hb Ha. unfold write. run. rewrite Hb.
  rewrite (BytesIOProps.bio_write_append buf b Ha). reflexivity.
Qed.

Lemma write_all_appends (chunks : list bytes) (total : Z) (n : Net W) (buf : BytesIO) :
  bio_pos buf = length (bio_data buf) ->
  write_all chunks (mk (Some buf) total, n)
  = (Ok tt,
     (mk (Some {| bio_data := bio_data buf ++ concat chunks;
                  bio_pos := length (bio_data buf ++ concat chunks) |})
         (total + Z.of_nat (length (concat chunks))), n)).
Proof.
  revert total buf. induction chunks as [ | b rest IH]; intros total buf Ha; cbn [write_all concat].
  - unfold ret. rewrite app_nil_r, Z.add_0_r, <- Ha. destruct buf; reflexivity.
  - unfold bind. rewrite (write_appends (mk (Some buf) total) n buf b eq_refl Ha).
    cbn [_total_bytes]. rewrite IH by reflexivity. cbn [bio_data].
    rewrite <- !app_assoc, (length_app b), Nat2Z.inj_add, Z.add_assoc. reflexivity.
Qed.

(** [close] of an open writer: one put of the whole buffer, wherever its
    position is. *)
Lemma close_open (self : t) (n : Net W) (buf : BytesIO) :
  _buf self = Some buf ->
  close be (self, n)
  = (match fst (put_object be (bio_data buf) (world n)) with
     | Ok _ => Ok tt
     | Raise e => Raise (close_error e)
     end,
     (mk (match fst (put_object be (bio_data buf) (world n)) with
          | Ok _ => None
          | Raise _ => Some (bio_seek0 buf)
          end) (_total_bytes self),
      logged n (snd (put_object be (bio_data buf) (world n))) [EvPut (bio_data buf)])).
Proof.
  intros Hb. unfold close. run. rewrite Hb. cbn. unfold bio_remaining. cbn.
  unfold logged, close_error.
  destruct (put_object be (bio_data buf) (world n)) as [[[] | e] w1]; cbn.
  - reflexivity.
  - destruct e; reflexivity.
Qed.

(** Whatever was written, in as many pieces as it came, goes out with
    [close] as the body of one put, and nothing is sent before: the trace
    grows by that single request.  When the store accepts it the writer is
    closed; a client error becomes [ValueError], any other exception is
    passed on, and in both cases the writer stays open with its bytes. *)
Theorem close_puts_everything (chunks : list bytes) (n : Net W) :
  let body := concat chunks in
  let answer := put_object be body (world n) in
  (write_all chunks ;; close be) (mk (Some BytesIO_new) 0, n)
  = (match fst answer with
     | Ok _ => Ok tt
     | Raise e => Raise (close_error e)
     end,
     (mk (match fst answer with
          | Ok _ => None
          | Raise _ => Some {| bio_data := body; bio_pos := 0 |}
          end) (Z.of_nat (length body)),
      logged n (snd answer) [EvPut body])).
Proof.
  cbv zeta. unfold bind at 1.
  rewrite (write_all_appends chunks 0 n BytesIO_new eq_refl). cbn [bio_data BytesIO_new app].
  erewrite close_open by reflexivity. reflexivity.
Qed.

(** A [close] that failed can be repeated: the writer is still open, and
    the second [close] sends the same bytes again. *)
Theorem close_again_resends (self : t) (n : Net W) (buf : BytesIO) (e : Exn)
    (st1 : St t W) :
  _buf self = Some buf ->
  close be (self, n) = (Raise e, st1) ->
  closed st1 = (Ok false, st1)
  /\ trace (snd st1) = trace n ++ [EvPut (bio_data buf)]
  /\ trace (snd (snd (close be st1))) = trace (snd st1) ++ [EvPut (bio_data buf)]
  /\ fst (tell st1) = fst (tell (self, n)).
Proof.
  intros Hb. rewrite (close_open self n buf Hb).
  destruct (fst (put_object be (bio_data buf) (world n))) as [[] | e0] eqn:P; [discriminate | ].
  intros [= _ <-]. repeat split.
  erewrite close_open by reflexivity. reflexivity.
Qed.

(** After a [close] that returned the writer is closed for good: [closed]
    is true, another [close] does nothing at all, [write] raises
    [AttributeError] and leaves everything as it was, and [tell] still gives
    the number of bytes written. *)
Theorem closed_for_good (st st1 : St t W) :
  close be st = (Ok tt, st1) ->
  closed st1 = (Ok true, st1)
  /\ close be st1 = (Ok tt, st1)
  /\ (forall b, write b st1 = (Raise AttributeError, st1))
  /\ fst (tell st1) = fst (tell st).
Proof.
  destruct st as [self n]. destruct (_buf self) as [buf | ] eqn:Hb.
  - rewrite (close_open self n buf Hb).
    destruct (fst (put_object be (bio_data buf) (world n))) as [[] | e0]; [ | discriminate].
    intros [= <-]. repeat split.
  - unfold close. run. rewrite Hb. intros [= <-].
    unfold closed, write. run. rewrite Hb. repeat split.
Qed.

(** The constructor probes the bucket: a client error of the probe is
    raised as [ValueError], any other exception as it is, and only when the
    probe is answered is there a writer, open and empty. *)
Theorem init_probes_bucket (n : Net W) :
  @__init__ W be (tt, n)
  = (match fst (head_bucket be (world n)) with
     | Ok _ => Ok (mk (Some BytesIO_new) 0)
     | Raise e => Raise (close_error e)
     end,
     (tt, {| world := snd (head_bucket be (world n)); trace := trace n |})).
Proof.
  unfold __init__, probe, close_error. run.
  destruct (head_bucket be (world n)) as [[[] | e] w1]; cbn; [reflexivity | ].
  destruct e; reflexivity.
Qed.

End Generic.

Lemma close_again_resends_witness :
  let st := snd (write hello (mk (Some BytesIO_new) 0, net0 Sim.vacant)) in
  let st1 := snd (close forbidden st) in
  closed st1 = (Ok false, st1)
  /\ trace (snd st1) = [EvPut hello]
  /\ trace (snd (snd (close forbidden st1))) = [EvPut hello; EvPut hello]
  /\ fst (tell st1) = Ok 7.
Proof.
  exact (close_again_resends forbidden
           (fst (snd (write hello (mk (Some BytesIO_new) 0, net0 Sim.vacant))))
           (net0 Sim.vacant) _ ValueError _ eq_refl eq_refl).
Defined.

Lemma closed_for_good_witness :
  let st := snd (write hello (mk (Some BytesIO_new) 0, net0 Sim.vacant)) in
  let st1 := snd (close store st) in
  Sim.object (world (snd st1)) = Some hello
  /\ closed st1 = (Ok true, st1)
  /\ close store st1 = (Ok tt, st1)
  /\ (forall b, write b st1 = (Raise AttributeError, st1))
  /\ fst (tell st1) = Ok 7.
Proof.
  split; [reflexivity | ].
  exact (closed_for_good store
           (snd (write hello (mk (Some BytesIO_new) 0, net0 Sim.vacant))) _ eq_refl).
Defined.

End SinglepartProps.

Module RetryEvents.

Section Generic.
Context {Obj W A : Type}.
Variable partial : M (St Obj W) A.
Variable sleep_seconds : Z.
Variable exceptions : list ExnClass.
Variable J : Obj -> Prop.
Variable P : Event -> Prop.

(** What holds of the object and of everything sent, for one invocation,
    holds for the retried operation. *)
Lemma _retry_loop_emits (n : nat) (st : St Obj W) :
  P (EvSleep sleep_seconds) ->
  (forall s, J (fst s) ->
     J (fst (snd (partial s)))
     /\ exists evs, trace (snd (snd (partial s))) = trace (snd s) ++ evs /\ Forall P evs) ->
  J (fst st) ->
  J (fst (snd (_retry_loop partial sleep_seconds exceptions n st)))
  /\ exists evs,
       trace (snd (snd (_retry_loop partial sleep_seconds exceptions n st)))
       = trace (snd st) ++ evs /\ Forall P evs.
Proof.
  intros Hs Hp. revert st. induction n as [ | n IH]; intros st Hj; cbn [_retry_loop].
  - cbn. split; [exact Hj | ]. exists []. split; [symmetry; apply app_nil_r | constructor].
  - unfold try_except. destruct (Hp st Hj) as (Hj1 & evs & Hevs & Hall).
    destruct (partial st) as [[a | e] st1]; cbn [fst snd] in *.
    + split; [exact Hj1 | ]. exists evs. split; assumption.
    + destruct (isinstance_any e exceptions).
      2:{ split; [exact Hj1 | ]. exists evs. split; assumption. }
      unfold bind, time_sleep. destruct (sleep_seconds <? 0); cbn [raise fst snd].
      { split; [exact Hj1 | ]. exists evs. split; assumption. }
      cbn.
      destruct (IH (fst st1, {| world := world (snd st1);
                                trace := trace (snd st1) ++ [EvSleep sleep_seconds] |}) Hj1)
        as (Hj2 & evs' & Hevs' & Hall').
      split; [exact Hj2 | ].
      exists (evs ++ [EvSleep sleep_seconds] ++ evs').
      cbn [fst snd trace] in Hevs'. rewrite Hevs', Hevs, <- !app_assoc. split; [reflexivity | ].
      apply Forall_app. split; [exact Hall | ]. apply Forall_app. split; [ | exact Hall'].
      constructor; [exact Hs | constructor].
Qed.

End Generic.
End RetryEvents.

Module UploadProps.
Import MultipartWriter UploadSpec.

Section Generic.
Context {W MP : Type} (be : WriterBackend W MP).

(** [write] in two steps: the bytes are staged, then flushed if the buffer
    has reached the minimum part size. *)
Lemma write_eq (b : bytes) (st : St (t MP) W) :
  let buf' := snd (bio_write (_buf (fst st)) b) in
  let st1 := (with_total_bytes (with_buf (fst st) buf')
                (_total_bytes (fst st) + Z.of_nat (length b)), snd st) in
  write be b st
  = if bio_tell buf' >=? _min_part_size (fst st) then
      match _upload_next_part be st1 with
      | (Ok _, s) => (Ok (Z.of_nat (length b)), s)
      | (Raise e, s) => (Raise e, s)
      end
    else (Ok (Z.of_nat (length b)), st1).
Proof.
  cbv zeta. unfold write. run. cbn [with_total_bytes with_buf _buf _total_bytes _min_part_size].
  change (fst (bio_write (_buf (fst st)) b)) with (Z.of_nat (length b)).
  destruct (bio_tell (snd (bio_write (_buf (fst st)) b)) >=? _min_part_size (fst st)).
  - match goal with
    | |- context [_upload_next_part be ?s] => destruct (_upload_next_part be s) as [[[] | e] s1]
    end; reflexivity.
  - reflexivity.
Qed.

(** Without a multipart session [_upload_next_part] fails before anything
    is sent. *)
Lemma _upload_next_part_closed (st : St (t MP) W) :
  _mp (fst st) = None ->
  _upload_next_part be st
  = (Raise AttributeError, (with_buf (fst st) (bio_seek0 (_buf (fst st))), snd st)).
Proof.
  intros H. unfold _upload_next_part. run. rewrite H. reflexivity.
Qed.

Lemma perform_closed (c : Call) (st : St (t MP) W) :
  _mp (fst st) = None ->
  exists r self', perform be c st = (r, (self', snd st)) /\ _mp self' = None.
Proof.
  intros H. destruct c as [b | | ]; cbn [perform].
  - unfold bind. rewrite write_eq. cbv zeta.
    destruct (bio_tell _ >=? _).
    + rewrite _upload_next_part_closed by exact H. eexists _, _. split; [reflexivity | exact H].
    + eexists _, _. split; [reflexivity | exact H].
  - rewrite WriterProps.close_eq. unfold bind at 1.
    destruct (negb (bio_tell (_buf (fst st)) =? 0)).
    + rewrite _upload_next_part_closed by exact H. eexists _, _. split; [reflexivity | exact H].
    + run. unfold WriterSpec.finish. rewrite H. cbn. eexists _, _. split; reflexivity.
  - unfold terminate. run. rewrite H. destruct st. eexists _, _. split; [reflexivity | exact H].
Qed.

Lemma session_closed (calls : list Call) (st : St (t MP) W) :
  _mp (fst st) = None ->
  snd (session be calls st) = snd st /\ _mp (fst (session be calls st)) = None.
Proof.
  revert st. induction calls as [ | c rest IH]; intros st H; cbn [session].
  - split; [reflexivity | exact H].
  - destruct (perform_closed c st H) as (r & self' & E & Hm). rewrite E. cbn [snd].
    destruct (IH (self', snd st) Hm) as [Hn' Hm']. split; [exact Hn' | exact Hm'].
Qed.

Lemma close_ok_closed (st st1 : St (t MP) W) :
  close be st = (Ok tt, st1) -> _mp (fst st1) = None.
Proof.
  rewrite WriterProps.close_eq. unfold bind at 1.
  destruct ((if negb (bio_tell (_buf (fst st)) =? 0) then _upload_next_part be else ret tt) st)
    as [[[] | e] s1]; [ | discriminate].
  unfold bind at 1. unfold get_self at 1. cbn [fst snd].
  unfold bind at 1.
  destruct (WriterSpec.finish be (fst s1) s1) as [[[] | e] s2]; [ | discriminate].
  run. intros [= <-]. reflexivity.
Qed.

Lemma terminate_eq (self : t MP) (n : Net W) :
  terminate be (self, n)
  = match _mp self with
    | None => (Raise AssertionError, (self, n))
    | Some mp =>
        match mp_abort be mp (world n) with
        | (Ok _, w1) => (Ok tt, (with_mp self None, logged n w1 [EvAbort]))
        | (Raise e, w1) => (Raise e, (self, logged n w1 [EvAbort]))
        end
    end.
Proof.
  unfold terminate. run. destruct (_mp self) as [mp | ]; [ | reflexivity].
  unfold logged. cbn [fst snd]. destruct (mp_abort be mp (world n)) as [[[] | e] w1]; reflexivity.
Qed.

(** Once a writer is closed, by [close] or by [terminate], it never
    contacts the store again: whatever calls follow, in whatever order, and
    whether or not they raise, the network is left exactly as it was, and the
    writer stays closed.  [terminate] itself sends one abort and nothing
    else. *)
Theorem closed_writer_stays_silent (st st1 : St (t MP) W) (calls : list Call) :
  close be st = (Ok tt, st1) \/ terminate be st = (Ok tt, st1) ->
  snd (session be calls st1) = snd st1
  /\ fst (closed (session be calls st1)) = Ok true
  /\ (terminate be st = (Ok tt, st1) ->
      exists w1, snd st1 = logged (snd st) w1 [EvAbort]).
Proof.
  intros H.
  assert (Hm : _mp (fst st1) = None).
  { destruct H as [H | H]; [exact (close_ok_closed _ _ H) | ].
    destruct st as [self n]. rewrite terminate_eq in H.
    destruct (_mp self) as [mp | ]; [ | discriminate].
    destruct (mp_abort be mp (world n)) as [[[] | e] w1]; [ | discriminate].
    injection H as <-. reflexivity. }
  destruct (session_closed calls st1 Hm) as [Hn Hc]. repeat split.
  - exact Hn.
  - unfold closed. run. rewrite Hc. reflexivity.
  - clear H. intros H. destruct st as [self n]. rewrite terminate_eq in H.
    destruct (_mp self) as [mp | ]; [ | discriminate].
    destruct (mp_abort be mp (world n)) as [[[] | e] w1]; [ | discriminate].
    injection H as <-. exists w1. reflexivity.
Qed.

End Generic.
End UploadProps.

Module PartsProps.
Import MultipartWriter UploadSpec.

Section Generic.
Context {W MP : Type} (be : WriterBackend W MP).

Lemma in_sequence_snoc (parts : list PartDict) (etag : string) :
  in_sequence parts ->
  in_sequence (parts ++ [{| ETag := etag; PartNumber := Z.of_nat (length parts) + 1 |}]).
Proof.
  unfold in_sequence. intros H.
  rewrite map_app, length_app, H. cbn [length map PartNumber].
  rewrite Nat.add_1_r, seq_S, map_app. cbn [map]. do 2 f_equal. lia.
Qed.

Ltac retried_emits H :=
  match goal with
  | |- context [_retry_if_failed ?p ?a ?b ?c ?s] =>
      pose proof (RetryEvents._retry_loop_emits p b [C_EndpointConnectionError]
                    (fun o => o = fst s) complete_in_sequence (Z.to_nat a) s I) as H;
      change (_retry_loop p b [C_EndpointConnectionError] (Z.to_nat a) s)
        with (_retry_if_failed p a b c s) in H
  end.

Lemma _upload_next_part_orderly (st : St (t MP) W) :
  orderly st -> orderly (snd (_upload_next_part be st)).
Proof.
  intros [[Hseq Htot] Htr]. unfold orderly, numbered.
  destruct (_upload_next_part be st) as [r st'] eqn:E. cbn [snd]. revert E.
  unfold _upload_next_part.
  unfold bind at 1. unfold get_self at 1. cbn [fst snd].
  unfold bind at 1. unfold set_self at 1. cbn [fst snd].
  destruct (_mp (fst st)) as [mp | ]; [ | intros [= _ <-]; cbn; repeat split; assumption].
  unfold bind at 1. retried_emits H.
  assert (H' := H ltac:(intros s Hj; unfold bind, get_self, call; cbn [fst snd];
                        split; [exact Hj | eexists [_]; split; [reflexivity | ];
                                           repeat constructor]) eq_refl).
  clear H.
  match goal with
  | |- context [_retry_if_failed ?p ?a ?b ?c ?s] =>
      destruct (_retry_if_failed p a b c s) as [[[etag | ] | e] s1]
  end; cbn [fst snd] in H'; destruct H' as (Hself & evs & Hevs & Hall).
  - unfold bind, get_self, set_self, ret. cbn [fst snd]. intros [= _ <-]. cbn.
    rewrite Hself. cbn. repeat split.
    + rewrite Htot. apply in_sequence_snoc. exact Hseq.
    + rewrite length_app, Htot. cbn. lia.
    + rewrite Hevs. apply Forall_app. split; assumption.
  - unfold raise. intros [= _ <-]. rewrite Hself. cbn. repeat split; trivial.
    rewrite Hevs. apply Forall_app. split; assumption.
  - intros [= _ <-]. rewrite Hself. cbn. repeat split; trivial.
    rewrite Hevs. apply Forall_app. split; assumption.
Qed.

Lemma finish_orderly (st : St (t MP) W) :
  orderly st -> orderly (snd (WriterSpec.finish be (fst st) st)).
Proof.
  intros [[Hseq Htot] Htr]. unfold orderly, numbered, WriterSpec.finish.
  destruct (_mp (fst st)) as [mp | ]; [ | cbn; repeat split; assumption].
  destruct (negb (_total_bytes (fst st) =? 0)).
  - retried_emits H.
    assert (H' := H ltac:(intros s Hj; unfold bind, get_self, call; cbn [fst snd];
                          split; [exact Hj | eexists [_]; split; [reflexivity | ];
                                             constructor; [rewrite Hj; exact Hseq | constructor]])
                    eq_refl).
    clear H. destruct H' as (Hself & evs & Hevs & Hall). rewrite Hself, Hevs.
    repeat split; trivial. apply Forall_app. split; assumption.
  - unfold bind, call. cbn [fst snd].
    destruct (mp_abort be mp (world (snd st))) as [[[] | e] w1]; cbn;
      repeat split; trivial; repeat (apply Forall_app; split; trivial); repeat constructor.
Qed.

Lemma perform_orderly (c : Call) (st : St (t MP) W) :
  orderly st -> orderly (snd (perform be c st)).
Proof.
  intros H. destruct c as [b | | ]; cbn [perform].
  - unfold bind. rewrite UploadProps.write_eq. cbv zeta.
    set (st1 := (with_total_bytes _ _, snd st)).
    assert (H1 : orderly st1) by exact H.
    destruct (bio_tell _ >=? _); [ | exact H1].
    pose proof (_upload_next_part_orderly st1 H1) as H2.
    destruct (_upload_next_part be st1) as [[[] | e] s1]; exact H2.
  - rewrite WriterProps.close_eq. unfold bind at 1.
    assert (H1 : orderly (snd ((if negb (bio_tell (_buf (fst st)) =? 0)
                                then _upload_next_part be else ret tt) st))).
    { destruct (negb (bio_tell (_buf (fst st)) =? 0));
        [apply _upload_next_part_orderly; exact H | exact H]. }
    destruct ((if negb (bio_tell (_buf (fst st)) =? 0) then _upload_next_part be else ret tt) st)
      as [[[] | e] s1]; cbn [snd] in *; [ | exact H1].
    unfold bind at 1. unfold get_self at 1. cbn [fst snd].
    unfold bind at 1. pose proof (finish_orderly s1 H1) as H2.
    destruct (WriterSpec.finish be (fst s1) s1) as [[[] | e] s2]; cbn [snd] in *; [ | exact H2].
    run. exact H2.
  - destruct st as [self n]. rewrite UploadProps.terminate_eq.
    destruct H as [Hn Htr]. cbn [fst snd] in *.
    destruct (_mp self) as [mp | ]; [ | split; assumption].
    destruct (mp_abort be mp (world n)) as [[[] | e] w1]; cbn; split; trivial;
      apply Forall_app; split; trivial; repeat constructor.
Qed.

Lemma init_orderly (min_part_size : Z) (n : Net W) (self : t MP) (st0 : St unit W) :
  Forall complete_in_sequence (trace n) ->
  __init__ be min_part_size (tt, n) = (Ok self, st0) ->
  orderly (self, snd st0).
Proof.
  intros Htr. unfold __init__. unfold bind at 1. unfold try_except.
  unfold _retry_if_failed.
  pose proof (RetryEvents._retry_loop_emits
                (call EvInitiateMultipartUpload (initiate_multipart_upload be))
                _SLEEP_SECONDS [C_EndpointConnectionError] (fun _ : unit => True)
                complete_in_sequence (Z.to_nat _UPLOAD_ATTEMPTS) (tt, n) I) as H.
  destruct (_retry_loop _ _ _ _ (tt, n)) as [[mp | e] s1]; cbn [fst snd] in H.
  - unfold ret. intros [= <- <-]. destruct H as (_ & evs & Hevs & Hall).
    + intros s _. split; [exact I | ]. run. exists [EvInitiateMultipartUpload].
      split; [reflexivity | repeat constructor].
    + exact I.
    + split; [split; reflexivity | ]. cbn. rewrite Hevs. apply Forall_app. split; assumption.
  - destruct (isinstance e C_ClientError); discriminate.
Qed.

(** X.  Part numbers are assigned 1, 2, 3, ... in upload order and are never
    reused or skipped: for a writer made by the constructor, after any
    sequence of [write], [close] and [terminate] calls, failed ones
    included, the recorded parts are numbered in sequence and counted by
    [_total_parts], and every completion request that was sent lists parts
    numbered in sequence. *)
Theorem parts_stay_in_sequence (min_part_size : Z) (n : Net W) (self : t MP)
    (st0 : St unit W) (calls : list Call) :
  Forall complete_in_sequence (trace n) ->
  __init__ be min_part_size (tt, n) = (Ok self, st0) ->
  orderly (session be calls (self, snd st0)).
Proof.
  intros Htr Hi. pose proof (init_orderly _ _ _ _ Htr Hi) as H.
  generalize dependent (self, snd st0). clear. intros st H.
  revert st H. induction calls as [ | c rest IH]; intros st H; cbn [session].
  - exact H.
  - apply IH. apply perform_orderly. exact H.
Qed.

End Generic.
End PartsProps.

Module SimUploadProps.
Import MultipartWriter UploadSpec.

Lemma sim_parts_S (k : nat) :
  sim_parts (S k)
  = sim_parts k ++ [{| ETag := Sim.etag_of (Z.of_nat k + 1); PartNumber := Z.of_nat k + 1 |}].
Proof.
  unfold sim_parts. rewrite seq_S, map_app. cbn [map Nat.add].
  replace (Z.of_nat (S k)) with (Z.of_nat k + 1) by lia. reflexivity.
Qed.

Lemma sim_parts_below (k : nat) (p : PartDict) :
  In p (sim_parts k) -> 1 <= PartNumber p <= Z.of_nat k.
Proof.
  unfold sim_parts. rewrite in_map_iff. intros (i & <- & Hi).
  apply in_seq in Hi. cbn. lia.
Qed.

(** A part uploaded under a new number does not disturb the others. *)
Lemma assemble_fresh (u : list (Z * bytes)) (m : Z) (b : bytes) (parts : list PartDict) :
  (forall p, In p parts -> PartNumber p <> m) ->
  Sim.assemble ((m, b) :: u) parts = Sim.assemble u parts.
Proof.
  induction parts as [ | p ps IH]; intros H; cbn [Sim.assemble]; [reflexivity | ].
  rewrite IH by (intros q Hq; apply H; right; exact Hq).
  cbn [Sim.part_body].
  replace (m =? PartNumber p) with false
    by (symmetry; apply Z.eqb_neq; intros E; apply (H p (or_introl eq_refl)); congruence).
  reflexivity.
Qed.

Lemma assemble_snoc (u : list (Z * bytes)) (parts : list PartDict) (m : Z) (b data : bytes) :
  Sim.assemble u parts = Some data ->
  Sim.part_body u m = Some b ->
  Sim.assemble u (parts ++ [{| ETag := Sim.etag_of m; PartNumber := m |}]) = Some (data ++ b).
Proof.
  revert data. induction parts as [ | p ps IH]; intros data; cbn [Sim.assemble app].
  - intros [= <-] Hb. cbn [PartNumber ETag]. rewrite Hb, String.eqb_refl, app_nil_r. reflexivity.
  - destruct (Sim.part_body u (PartNumber p)) as [c | ]; [ | discriminate].
    destruct (Sim.assemble u ps) as [rest | ]; [ | discriminate].
    destruct (String.eqb (ETag p) (Sim.etag_of (PartNumber p))); [ | discriminate].
    intros [= <-] Hb. rewrite (IH rest eq_refl Hb), app_assoc. reflexivity.
Qed.

(** Flushing the staged bytes on the simulated store. *)
Lemma sim_flush (written : bytes) (st : St (t unit) Sim.World) :
  sim_inv written st ->
  exists st',
    _upload_next_part Sim.writer st = (Ok tt, st')
    /\ sim_inv written st'
    /\ bio_data (_buf (fst st')) = []
    /\ Sim.interruptions (world (snd st')) = Sim.interruptions (world (snd st)).
Proof.
  intros (Hmp & Hu & Hpos & Htot & k & flushed & Hparts & Hk & Hasm & Hw).
  destruct st as [self n]. cbn [fst snd] in *.
  eexists. split.
  - apply (WriterProps._upload_next_part_ok Sim.writer self n tt
             (Sim.etag_of (_total_parts self + 1))
             (Sim.with_uploads (world n)
                ((_total_parts self + 1, bio_data (_buf self)) :: Sim.uploads (world n))) Hmp).
    cbn. unfold Sim.connecting. rewrite Hu. reflexivity.
  - unfold sim_inv, WriterSpec.flushed. cbn. repeat split; trivial.
    + exists (S k), (flushed ++ bio_data (_buf self)). rewrite Hparts, Hk, sim_parts_S.
      repeat split.
      * lia.
      * apply assemble_snoc.
        -- rewrite assemble_fresh; [exact Hasm | ].
           intros p Hp. apply sim_parts_below in Hp. lia.
        -- cbn. rewrite Z.eqb_refl. reflexivity.
      * rewrite app_nil_r. exact Hw.
Qed.

Lemma sim_write (written b : bytes) (st : St (t unit) Sim.World) :
  sim_inv written st ->
  exists st',
    write Sim.writer b st = (Ok (Z.of_nat (length b)), st')
    /\ sim_inv (written ++ b) st'
    /\ Sim.interruptions (world (snd st')) = Sim.interruptions (world (snd st)).
Proof.
  intros Hinv. rewrite UploadProps.write_eq. cbv zeta.
  set (st1 := (with_total_bytes _ _, snd st)).
  assert (H1 : sim_inv (written ++ b) st1).
  { destruct Hinv as (Hmp & Hu & Hpos & Htot & k & flushed & Hparts & Hk & Hasm & Hw).
    unfold st1, sim_inv. cbn [fst snd with_total_bytes with_buf _mp _buf _total_bytes
                              _parts _total_parts].
    rewrite (BytesIOProps.bio_write_append _ b Hpos). cbn [snd bio_pos bio_data].
    repeat split; trivial.
    - rewrite Htot, length_app. lia.
    - exists k, flushed. repeat split; trivial. rewrite Hw, app_assoc. reflexivity. }
  destruct (bio_tell _ >=? _);
    [ | exists st1; split; [reflexivity | split; [exact H1 | reflexivity]]].
  destruct (sim_flush _ st1 H1) as (st' & E & H' & _ & Hi). rewrite E.
  exists st'. split; [reflexivity | split; [exact H' | exact Hi]].
Qed.

Lemma sim_write_all (chunks : list bytes) (written : bytes) (st : St (t unit) Sim.World) :
  sim_inv written st ->
  exists st',
    write_all Sim.writer chunks st = (Ok tt, st')
    /\ sim_inv (written ++ concat chunks) st'
    /\ Sim.interruptions (world (snd st')) = Sim.interruptions (world (snd st)).
Proof.
  revert written st. induction chunks as [ | b rest IH]; intros written st H;
    cbn [write_all concat].
  - exists st. rewrite app_nil_r. split; [reflexivity | split; [exact H | reflexivity]].
  - destruct (sim_write written b st H) as (st1 & E1 & H1 & Hi1).
    destruct (IH _ st1 H1) as (st2 & E2 & H2 & Hi2).
    exists st2. unfold bind. rewrite E1, E2, app_assoc.
    split; [reflexivity | split; [exact H2 | congruence]].
Qed.

Lemma sim_close (written : bytes) (st : St (t unit) Sim.World) :
  sim_inv written st ->
  exists st',
    close Sim.writer st = (Ok tt, st')
    /\ Sim.object (world (snd st')) = Some written
    /\ Sim.uploads (world (snd st')) = []
    /\ _mp (fst st') = None
    /\ _total_bytes (fst st') = Z.of_nat (length written)
    /\ Sim.unreachable (world (snd st')) = O
    /\ Sim.interruptions (world (snd st')) = Sim.interruptions (world (snd st)).
Proof.
  intros Hinv. rewrite WriterProps.close_eq. unfold bind at 1.
  assert (H1 : exists s1,
            (if negb (bio_tell (_buf (fst st)) =? 0) then _upload_next_part Sim.writer
             else ret tt) st = (Ok tt, s1)
            /\ sim_inv written s1 /\ bio_data (_buf (fst s1)) = []
            /\ Sim.interruptions (world (snd s1)) = Sim.interruptions (world (snd st))).
  { destruct (bio_tell (_buf (fst st)) =? 0) eqn:T; cbn [negb].
    - exists st. split; [reflexivity | ]. split; [exact Hinv | ]. split; [ | reflexivity].
      destruct Hinv as (_ & _ & Hpos & _). apply Z.eqb_eq in T. unfold bio_tell in T.
      destruct (bio_data (_buf (fst st))); [reflexivity | cbn in Hpos; lia].
    - destruct (sim_flush _ st Hinv) as (s1 & E & H' & Hb & Hi).
      exists s1. split; [exact E | split; [exact H' | split; [exact Hb | exact Hi]]]. }
  destruct H1 as (s1 & E & (Hmp & Hu & Hpos & Htot & k & flushed & Hparts & Hk & Hasm & Hw)
                  & Hb & Hi1).
  rewrite E. unfold bind at 1. unfold get_self at 1. cbn [fst snd].
  rewrite Hb, app_nil_r in Hw. subst flushed.
  unfold WriterSpec.finish. rewrite Hmp.
  destruct (_total_bytes (fst s1) =? 0) eqn:T; cbn [negb].
  - apply Z.eqb_eq in T. assert (written = []) by (destruct written; [reflexivity | cbn in *; lia]).
    subst written. unfold bind, call, get_self, set_self. cbn [fst snd].
    cbn [mp_abort object_put Sim.writer]. unfold Sim.connecting. rewrite Hu. cbn.
    rewrite Hu. cbn. eexists. split; [reflexivity | ]. cbn. rewrite T. repeat split; trivial.
  - apply Z.eqb_neq in T.
    destruct (sim_parts k) as [ | p l] eqn:P.
    { exfalso. cbn in Hasm. injection Hasm as <-. cbn in Htot. lia. }
    unfold bind at 1.
    erewrite WriterProps.retry_answered with (r := Ok tt); [ | | exact I]; cycle 1.
    + unfold bind, get_self, call. cbn [fst snd mp_complete Sim.writer].
      unfold Sim.connecting. rewrite Hu, Hparts, Hasm. reflexivity.
    + unfold bind, get_self, set_self. cbn. eexists. split; [reflexivity | ].
      cbn. repeat split; trivial.
Qed.

(** On the simulated store, while the endpoint can be reached: a writer
    made by the constructor, with any minimum part size, that is given any
    chunks and then closed leaves behind the object made of those chunks in
    order, whatever was stored before and however the chunks were cut into
    parts.  Nothing stays in the multipart session, [close] returns
    normally and [tell] is the number of bytes written.  With no bytes
    written the object is empty. *)
Theorem sim_upload_stores_concat (min_part_size : Z) (chunks : list bytes) (w : Sim.World) :
  Sim.unreachable w = O ->
  exists st',
    (write_all Sim.writer chunks ;; close Sim.writer)
      (WriterSpec.created min_part_size w) = (Ok tt, st')
    /\ Sim.object (world (snd st')) = Some (concat chunks)
    /\ Sim.uploads (world (snd st')) = []
    /\ tell st' = (Ok (Z.of_nat (length (concat chunks))), st').
Proof.
  intros Hu.
  assert (Hc : WriterSpec.created min_part_size w
               = (mk min_part_size (Some tt) BytesIO_new 0 0 [],
                  {| world := Sim.with_uploads w []; trace := [EvInitiateMultipartUpload] |})).
  { unfold WriterSpec.created, __init__. unfold bind at 1. unfold try_except at 1.
    erewrite WriterProps.retry_answered with (r := Ok tt); [ | | exact I]; cycle 1.
    - unfold call. cbn. unfold Sim.connecting. rewrite Hu. reflexivity.
    - reflexivity. }
  rewrite Hc.
  assert (H0 : sim_inv [] (mk min_part_size (Some tt) BytesIO_new 0 0 [],
                           {| world := Sim.with_uploads w [];
                              trace := [EvInitiateMultipartUpload] |})).
  { unfold sim_inv. cbn. repeat split; trivial. exists O, []. repeat split. }
  destruct (sim_write_all chunks [] _ H0) as (st1 & E1 & H1 & _). cbn [app] in H1.
  destruct (sim_close _ st1 H1) as (st2 & E2 & Ho & Hup & Hmp & Htot & _).
  exists st2. unfold bind at 1. rewrite E1, E2. repeat split; trivial.
  unfold tell. unfold bind, get_self, ret. cbn [fst snd]. rewrite Htot. reflexivity.
Qed.

Lemma sim_upload_stores_concat_witness :
  exists st',
    (write_all Sim.writer [WriterSpec.abc; []; WriterSpec.abc; WriterSpec.abc] ;;
     close Sim.writer) (WriterSpec.created 5 (Sim.holding RawReaderSpec.digits)) = (Ok tt, st')
    /\ Sim.object (world (snd st')) = Some (list_byte_of_string "abcabcabc")
    /\ Sim.uploads (world (snd st')) = []
    /\ tell st' = (Ok 9, st').
Proof.
  exact (sim_upload_stores_concat 5 [WriterSpec.abc; []; WriterSpec.abc; WriterSpec.abc]
           (Sim.holding RawReaderSpec.digits) eq_refl).
Defined.

End SimUploadProps.

Module BufferedProps.
Import Reader ReaderSpec.

Section Generic.
Context {W B : Type} (be : ReaderBackend W B).

(** Taking bytes out of the buffer is local. *)
Lemma _read_from_buffer_eq (size : Z) (st : St (t B) W) :
  let k := Z.to_nat (if size >=? 0 then size else ByteBuffer.len (_buffer (fst st))) in
  let part := firstn k (ByteBuffer._bytes (_buffer (fst st))) in
  @_read_from_buffer W B size st
  = (Ok part,
     (with_current_pos
        (with_buffer (fst st)
           (ByteBuffer.mk (skipn k (ByteBuffer._bytes (_buffer (fst st))))
              (ByteBuffer._chunk_size (_buffer (fst st)))))
        (_current_pos (fst st) + Z.of_nat (length part)),
      snd st)).
Proof.
  cbv zeta. unfold _read_from_buffer, set_buffer, set_current_pos. run. reflexivity.
Qed.

(** X.  A read of a positive size returns at most that many bytes, and the
    logical position advances by exactly the number of bytes returned.  When
    the buffer already holds [size] bytes, or the end of the stream has been
    seen, the bytes come from the buffer and nothing is sent. *)
Theorem read_at_most (size : Z) (st st' : St (t B) W) (out : bytes) :
  0 < size ->
  read be size st = (Ok out, st') ->
  Z.of_nat (length out) <= size
  /\ cursor st' = (_current_pos (fst st) + Z.of_nat (length out), _line_terminator (fst st))
  /\ (size <= ByteBuffer.len (_buffer (fst st)) \/ _eof (fst st) = true ->
      snd st' = snd st
      /\ out = firstn (Z.to_nat size) (ByteBuffer._bytes (_buffer (fst st)))).
Proof.
  intros Hs. unfold read.
  replace (size =? 0) with false by (symmetry; apply Z.eqb_neq; lia).
  replace (size <? 0) with false by (symmetry; apply Z.ltb_ge; lia).
  unfold bind at 1. unfold get_self at 1. cbn [fst snd].
  assert (Hge : (size >=? 0) = true) by (apply Z.geb_le; lia).
  destruct (ByteBuffer.len (_buffer (fst st)) >=? size) eqn:L.
  - rewrite _read_from_buffer_eq. cbv zeta. rewrite Hge. intros [= <- <-].
    cbn [fst snd]. repeat split; trivial.
    rewrite length_firstn. lia.
  - rewrite Z.geb_leb in L. apply Z.leb_gt in L.
    destruct (_eof (fst st)) eqn:Heof.
    + rewrite _read_from_buffer_eq. cbv zeta. cbn [Z.geb Z.compare].
      unfold ByteBuffer.len in *. rewrite Nat2Z.id, firstn_all.
      intros [= <- <-]. cbn [fst snd]. repeat split; trivial; try lia.
      symmetry. apply firstn_all2. lia.
    + unfold bind at 1. pose proof (ReaderProps._fill_buffer_cursor be size st) as Hc.
      destruct (_fill_buffer be size st) as [[[] | e] s1]; [ | discriminate].
      cbn [snd] in Hc. unfold cursor in Hc. injection Hc as Hc1 Hc2.
      rewrite _read_from_buffer_eq. cbv zeta. rewrite Hge. intros [= <- <-].
      unfold cursor.
      cbn [fst snd with_current_pos with_buffer _current_pos _line_terminator].
      rewrite Hc1, Hc2. split; [rewrite length_firstn; lia | ]. split; [reflexivity | ].
      intros [H | H]; [lia | discriminate].
Qed.

(** X.  [readinto] leaves the caller's buffer at its length: it returns a
    count between 0 and that length, overwrites that many bytes at the
    front with the bytes read and leaves the rest alone; the logical position
    advances by the count. *)
Theorem readinto_keeps_length (b b' : bytes) (n : Z) (st st' : St (t B) W) :
  readinto be b st = (Ok (n, b'), st') ->
  0 <= n <= Z.of_nat (length b)
  /\ length b' = length b
  /\ skipn (Z.to_nat n) b' = skipn (Z.to_nat n) b
  /\ read be (Z.of_nat (length b)) st = (Ok (firstn (Z.to_nat n) b'), st')
  /\ _current_pos (fst st') = _current_pos (fst st) + n.
Proof.
  unfold readinto. unfold bind at 1.
  destruct (read be (Z.of_nat (length b)) st) as [[data | e] s1] eqn:R; [ | discriminate].
  destruct b as [ | x b0].
  - (* an empty buffer: read(0) *)
    cbn in R. injection R as <- <-. unfold ret. intros [= <- <- <-]. cbn.
    repeat split; lia.
  - assert (Hpos : 0 < Z.of_nat (length (x :: b0))) by (cbn; lia).
    destruct (read_at_most _ _ _ _ Hpos R) as (Hlen & Hcur & _).
    unfold cursor in Hcur. injection Hcur as Hcur _.
    destruct data as [ | y data0].
    { unfold ret; intros [= <- <- <-]. cbn. repeat split; try lia. rewrite Hcur. cbn. lia. }
    remember (y :: data0) as data eqn:D. remember (x :: b0) as b eqn:Db.
    unfold ret. intros [= <- <- <-].
    rewrite Nat2Z.id.
    assert (Hl : (length data <= length b)%nat) by lia.
    split; [lia | ].
    split; [rewrite length_app, length_skipn; lia | ].
    split; [rewrite skipn_app, Nat.sub_diag, skipn_all; reflexivity | ].
    split; [ | exact Hcur].
    rewrite firstn_app, Nat.sub_diag, firstn_all. cbn [firstn]. rewrite app_nil_r.
    reflexivity.
Qed.

(** X.  A whence outside the three choices is refused with [ValueError]
    before anything happens: the buffer, the position, the open body and the
    network are as they were. *)
Theorem seek_invalid_whence (offset whence : Z) (st : St (t B) W) :
  ~ In whence WHENCE_CHOICES ->
  seek be offset whence st = (Raise ValueError, st).
Proof.
  intros H. unfold seek.
  assert (Hc : (whence =? WHENCE_CURRENT) = false).
  { apply Z.eqb_neq. intros ->. apply H. cbn. tauto. }
  assert (He : existsb (Z.eqb whence) WHENCE_CHOICES = false).
  { apply not_true_is_false. intros E. apply existsb_exists in E.
    destruct E as (x & Hx & E). apply Z.eqb_eq in E. subst x. exact (H Hx). }
  rewrite Hc. unfold _SeekableRawReader.seek. rewrite He. cbn [negb].
  unfold raw. run. destruct st as [[] n]. reflexivity.
Qed.

Ltac stage :=
  unfold bind at 1;
  match goal with
  | |- match ?m with pair _ _ => _ end = _ -> _ =>
      destruct m as [[? | ?] ?]; [ | discriminate]
  end.

(** The raw reader's [seek] returns its position. *)
Lemma raw_seek_position (offset whence q : Z)
    (rst rst' : St (_SeekableRawReader.t B) W) :
  _SeekableRawReader.seek be offset whence rst = (Ok q, rst') ->
  _SeekableRawReader._position (fst rst') = q.
Proof.
  unfold _SeekableRawReader.seek. destruct (negb _); [discriminate | ].
  unfold bind at 1. unfold get_self at 1. cbn [fst snd].
  stage. stage. cbv zeta. stage.
  unfold bind, get_self, ret. cbn [fst snd]. intros [= <- <-]. reflexivity.
Qed.

(** X.  After a seek that returned, the buffer is empty, the logical
    position is the position returned, which is the position of the raw
    reader, and the end-of-stream flag says whether that is the known length
    of the object.  A seek relative to the current position is the absolute
    seek to the logical position plus the offset: what was read ahead into
    the buffer does not count. *)
Theorem seek_resets_buffer (offset whence p : Z) (st st' : St (t B) W) :
  seek be offset whence st = (Ok p, st') ->
  _current_pos (fst st') = p
  /\ _SeekableRawReader._position (_raw_reader (fst st')) = p
  /\ ByteBuffer.len (_buffer (fst st')) = 0
  /\ (_eof (fst st') = true
      <-> _SeekableRawReader._content_length (_raw_reader (fst st')) = Some p)
  /\ seek be offset WHENCE_CURRENT st = seek be (offset + _current_pos (fst st)) WHENCE_START st.
Proof.
  unfold seek at 1.
  unfold bind at 1. unfold get_self at 1. cbn [fst snd].
  unfold bind at 1. unfold raw, lift_field.
  match goal with
  | |- context [_SeekableRawReader.seek be ?o ?w ?s] =>
      destruct (_SeekableRawReader.seek be o w s) as [[q | e] [raw' n']] eqn:E
  end; cbn [fst snd]; [ | discriminate].
  apply raw_seek_position in E. cbn [fst] in E.
  unfold set_current_pos, set_buffer, set_eof, bind, get_self, set_self, ret.
  cbn [fst snd]. intros [= <- <-]. cbn. repeat split; trivial.
  - destruct (_SeekableRawReader._content_length raw') as [cl | ]; [ | discriminate].
    intros H. apply Z.eqb_eq in H. congruence.
  - destruct (_SeekableRawReader._content_length raw') as [cl | ]; [ | discriminate].
    intros [= ->]. apply Z.eqb_refl.
Qed.

End Generic.
End BufferedProps.

Module RawAccessProps.
Import _SeekableRawReader AccessSpec.

Section Object.
Variable data : bytes.
Hypothesis nonempty : data <> [].

Local Abbreviation n := (Z.of_nat (length data)).

Lemma length_pos : 0 < n.
Proof. destruct data; [contradiction | cbn; lia]. Qed.

(** A range request from a start on the simulated store: the body from
    there on, or the end of the object. *)
Lemma sim_open_start (self : t bytes) (net : Net Sim.World) (s : Z) :
  Sim.object (world net) = Some data -> Sim.unreachable (world net) = O ->
  Sim.interruptions (world net) = [] -> 0 <= s ->
  exists rst',
    _open_body Sim.reader (Some s) None (self, net) = (Ok tt, rst')
    /\ tracking data rst' /\ _position (fst rst') = Z.min s n
    /\ _body (fst rst') <> None.
Proof.
  intros Ho Hu Hi Hs. pose proof length_pos as Hn.
  destruct net as [w tr]. cbn [world] in *.
  assert (Hget : forall v, Sim.get v (Some (make_range_string (Some s) None)) w
                 = if s >=? n then (Raise (Sim.not_satisfiable w n), w)
                   else (Ok (Sim.partial_content data s (n - 1)), w))
    by (intros v; unfold Sim.get; rewrite Hu, Ho; reflexivity).
  assert (Hall : forall v, Sim.get v None w
                 = (Ok {| ContentRange := None; Body := data; ContentLength := Some n |}, w))
    by (intros v; unfold Sim.get; rewrite Hu, Ho; reflexivity).
  unfold _open_body. unfold bind at 1. unfold get_self at 1. cbn [fst snd].
  rewrite RawReaderProps._get_eq. cbn [object_get Sim.reader world]. rewrite Hget.
  destruct (s >=? n) eqn:G.
  - apply Z.geb_le in G.
    cbn [fst snd RawReaderSpec.wrapped Sim.not_satisfiable isinstance _unwrap_ioerror Message
         opt_string_eqb].
    rewrite String.eqb_refl. cbn [negb ActualObjectSize].
    destruct (Sim.size_hint w).
    + unfold set_position, set_content_length, set_body, bind, get_self, set_self, ret.
      cbn. eexists. split; [reflexivity | ].
      unfold tracking. cbn. repeat split; trivial; try lia; discriminate.
    + unfold bind at 1. unfold bind at 1. rewrite RawReaderProps._get_eq.
      cbn [object_get Sim.reader world logged]. rewrite Hall.
      cbn [fst snd ContentLength].
      unfold set_position, set_content_length, set_body, bind, get_self, set_self, ret.
      cbn. eexists. split; [reflexivity | ].
      unfold tracking. cbn. repeat split; trivial; try lia; discriminate.
  - rewrite Z.geb_leb in G. apply Z.leb_gt in G.
    cbn [fst snd ContentRange Sim.partial_content parse_content_range lift_result].
    unfold set_position, set_content_length, set_body, bind, get_self, set_self, ret,
      lift_result.
    cbn. eexists. split; [reflexivity | ].
    unfold tracking. cbn. repeat split; trivial; try lia; try discriminate.
    apply RawReaderProps.slice_to_end. lia.
Qed.

(** A suffix request of [k] bytes. *)
Lemma sim_open_suffix (self : t bytes) (net : Net Sim.World) (k : Z) :
  Sim.object (world net) = Some data -> Sim.unreachable (world net) = O ->
  Sim.interruptions (world net) = [] -> 0 <= k ->
  exists rst',
    _open_body Sim.reader None (Some k) (self, net) = (Ok tt, rst')
    /\ tracking data rst'
    /\ _position (fst rst') = (if k =? 0 then n else Z.max 0 (n - k))
    /\ _body (fst rst') <> None.
Proof.
  intros Ho Hu Hi Hk. pose proof length_pos as Hn.
  destruct net as [w tr]. cbn [world] in *.
  assert (Hget : forall v, Sim.get v (Some (make_range_string None (Some k))) w
                 = if (k =? 0) || (n =? 0) then (Raise (Sim.not_satisfiable w n), w)
                   else (Ok (Sim.partial_content data (Z.max 0 (n - k)) (n - 1)), w))
    by (intros v; unfold Sim.get; rewrite Hu, Ho; reflexivity).
  assert (Hall : forall v, Sim.get v None w
                 = (Ok {| ContentRange := None; Body := data; ContentLength := Some n |}, w))
    by (intros v; unfold Sim.get; rewrite Hu, Ho; reflexivity).
  unfold _open_body. unfold bind at 1. unfold get_self at 1. cbn [fst snd].
  rewrite RawReaderProps._get_eq. cbn [object_get Sim.reader world]. rewrite Hget.
  replace (n =? 0) with false by (symmetry; apply Z.eqb_neq; lia). rewrite orb_false_r.
  destruct (k =? 0) eqn:G.
  - cbn [fst snd RawReaderSpec.wrapped Sim.not_satisfiable isinstance _unwrap_ioerror Message
         opt_string_eqb].
    rewrite String.eqb_refl. cbn [negb ActualObjectSize].
    destruct (Sim.size_hint w).
    + unfold set_position, set_content_length, set_body, bind, get_self, set_self, ret.
      cbn. eexists. split; [reflexivity | ].
      unfold tracking. cbn. repeat split; trivial; try lia; discriminate.
    + unfold bind at 1. unfold bind at 1. rewrite RawReaderProps._get_eq.
      cbn [object_get Sim.reader world logged]. rewrite Hall.
      cbn [fst snd ContentLength].
      unfold set_position, set_content_length, set_body, bind, get_self, set_self, ret.
      cbn. eexists. split; [reflexivity | ].
      unfold tracking. cbn. repeat split; trivial; try lia; discriminate.
  - apply Z.eqb_neq in G.
    cbn [fst snd ContentRange Sim.partial_content parse_content_range lift_result].
    unfold set_position, set_content_length, set_body, bind, get_self, set_self, ret,
      lift_result.
    cbn. eexists. split; [reflexivity | ].
    unfold tracking. cbn. repeat split; trivial; try lia; try discriminate.
    apply RawReaderProps.slice_to_end. lia.
Qed.

(** Opening a body at the current position does not move it. *)
Lemma sim_open_here (rst : St (t bytes) Sim.World) :
  tracking data rst ->
  exists rst',
    _open_body Sim.reader None None rst = (Ok tt, rst')
    /\ tracking data rst' /\ _position (fst rst') = _position (fst rst)
    /\ _body (fst rst') <> None.
Proof.
  intros (Ho & Hu & Hi & Hp & _). destruct rst as [self net]. cbn [fst snd] in *.
  destruct (sim_open_start self net (_position self) Ho Hu Hi (proj1 Hp))
    as (rst' & E & Ht & Hpos & Hb).
  exists rst'. split; [exact E | ]. split; [exact Ht | ]. split; [rewrite Hpos; lia | exact Hb].
Qed.

(** What a body holds once one is installed. *)
Lemma tracking_open (rst : St (t bytes) Sim.World) :
  tracking data rst -> _body (fst rst) <> None ->
  _content_length (fst rst) = Some n.
Proof.
  intros (_ & _ & _ & _ & Hb) Hne.
  destruct (_body (fst rst)) as [[bio | rem] | ]; [apply Hb | apply Hb | contradiction].
Qed.

Lemma sim_raw_read_open (size : Z) (rst : St (t bytes) Sim.World) :
  tracking data rst -> _body (fst rst) <> None ->
  exists rst',
    read Sim.reader size rst
    = (Ok (RawReaderSpec.requested data (_position (fst rst)) size), rst')
    /\ tracking data rst'
    /\ _position (fst rst')
       = _position (fst rst)
         + Z.of_nat (length (RawReaderSpec.requested data (_position (fst rst)) size))
    /\ _body (fst rst') <> None.
Proof.
  intros Ht Hne. pose proof length_pos as Hn.
  pose proof (tracking_open rst Ht Hne) as Hcl.
  destruct Ht as (Ho & Hu & Hi & Hp & Hb).
  destruct rst as [[cl v p body] [w tr]].
  cbn [fst snd world _position _body _content_length] in *. subst cl.
  assert (T : (n =? 0) = false) by (apply Z.eqb_neq; lia).
  assert (Hend : forall sz, RawReaderSpec.requested data n sz = []).
  { intros sz. unfold RawReaderSpec.requested. rewrite Nat2Z.id, skipn_all.
    destruct (sz <? 0); [reflexivity | apply firstn_nil]. }
  unfold read.
  unfold bind at 1. unfold get_self at 1. cbn [fst snd _body].
  assert (Hsome : exists b, body = Some b) by (destruct body; [eexists; reflexivity | contradiction]).
  destruct Hsome as [b0 ->].
  unfold bind at 1. unfold ret at 1.
  unfold bind at 1. unfold get_self at 1. cbn [fst snd _content_length _position truthy].
  rewrite T. cbn [negb assert_].
  unfold bind at 1. unfold ret at 1.
  destruct (p >=? n) eqn:G.
  { apply Z.geb_le in G. assert (p = n) by lia. subst p. rewrite Hend.
    eexists. split; [reflexivity | ].
    split; [ | cbn; split; [lia | discriminate]].
    unfold tracking. cbn [fst snd world _position _body _content_length].
    repeat split; trivial; lia. }
  rewrite Z.geb_leb in G. apply Z.leb_gt in G.
  destruct b0 as [bio | rem]; [destruct Hb as [_ Hb]; lia | ].
  destruct Hb as [_ ->].
  unfold bind at 1. unfold try_except.
  RawReaderProps.rewrite_body_read.
  cbn [body_read Sim.reader world fst snd]. unfold Sim.stream_read. rewrite Hi.
  unfold RawReaderSpec.requested.
  destruct (size =? -1) eqn:E1.
  - apply Z.eqb_eq in E1. subst size. cbn [fst snd Z.ltb Z.compare].
    unfold bind, get_self, set_position, set_self, ret. cbn [fst snd].
    eexists. split; [reflexivity | ].
    split; [ | split; [reflexivity | discriminate]].
    unfold tracking. cbn. rewrite length_skipn.
    repeat split; trivial; try lia.
    symmetry. apply skipn_all2. lia.
  - destruct (size <? 0) eqn:E2; cbn [fst snd].
    + unfold bind, get_self, set_position, set_self, ret. cbn [fst snd].
      eexists. split; [reflexivity | ].
      split; [ | split; [reflexivity | discriminate]].
      unfold tracking. cbn. rewrite length_skipn.
      repeat split; trivial; try lia.
      symmetry. apply skipn_all2. lia.
    + unfold bind, get_self, set_position, set_self, ret. cbn [fst snd].
      eexists. split; [reflexivity | ].
      split; [ | split; [reflexivity | discriminate]].
      pose proof (length_firstn (Z.to_nat size) (skipn (Z.to_nat p) data)) as L.
      rewrite length_skipn in L.
      unfold tracking. cbn. repeat split; trivial; try lia.
      rewrite <- (Z2Nat.id p) at 2 by lia. apply RawReaderProps.skipn_firstn_position.
Qed.

(** Reading from the raw reader on the simulated store returns the bytes
    asked for at its position and advances past them. *)
Lemma sim_raw_read (size : Z) (rst : St (t bytes) Sim.World) :
  tracking data rst ->
  exists rst',
    read Sim.reader size rst
    = (Ok (RawReaderSpec.requested data (_position (fst rst)) size), rst')
    /\ tracking data rst'
    /\ _position (fst rst')
       = _position (fst rst)
         + Z.of_nat (length (RawReaderSpec.requested data (_position (fst rst)) size))
    /\ _body (fst rst') <> None.
Proof.
  intros Ht. destruct (_body (fst rst)) as [b | ] eqn:Hb.
  - apply sim_raw_read_open; [exact Ht | congruence].
  - destruct (sim_open_here rst Ht) as (rst1 & E & Ht1 & Hp1 & Hb1).
    assert (R : read Sim.reader size rst = read Sim.reader size rst1).
    { unfold read at 1. unfold bind at 1. unfold get_self at 1. cbn [fst snd]. rewrite Hb.
      unfold bind at 1. rewrite E.
      destruct (_body (fst rst1)) as [b1 | ] eqn:Hb1'; [ | contradiction].
      symmetry. unfold read. unfold bind at 1. unfold get_self at 1. cbn [fst snd].
      rewrite Hb1'. unfold bind at 1. unfold ret at 1. reflexivity. }
    rewrite R, <- Hp1. apply sim_raw_read_open; assumption.
Qed.

End Object.
End RawAccessProps.

Module RawSeekProps.
Import _SeekableRawReader RawReaderSpec AccessSpec.

Section Generic.
Context {W B : Type} (be : ReaderBackend W B).

(** [seek] with a valid whence, in two steps: the old body is closed, then
    the new position is settled locally or a body is opened. *)
Lemma seek_eq (offset whence : Z) (self : t B) (n : Net W) :
  In whence WHENCE_CHOICES ->
  let start :=
    if whence =? WHENCE_START then Some (Z.max 0 offset)
    else if whence =? WHENCE_CURRENT then Some (Z.max 0 (offset + _position self))
    else None in
  let stop :=
    if whence =? WHENCE_START then None
    else if whence =? WHENCE_CURRENT then None
    else Some (Z.max 0 (- offset)) in
  let reached_eof :=
    match _content_length self with
    | None => false
    | Some cl =>
        if match start with Some s => s >=? cl | None => false end then true
        else if opt_Z_eqb stop 0 then true
        else false
    end in
  seek be offset whence (self, n)
  = if reached_eof then
      match _content_length self with
      | Some cl =>
          if cl =? 0
          then (Raise AssertionError,
                (with_body self (Some (BytesIOBody BytesIO_new)),
                 after_close be (_body self) n))
          else (Ok cl, (at_eof self cl, after_close be (_body self) n))
      | None => (Raise AssertionError,
                 (with_body self (Some (BytesIOBody BytesIO_new)),
                  after_close be (_body self) n))
      end
    else
      match _open_body be start stop (with_body self None, after_close be (_body self) n) with
      | (Ok _, s) => (Ok (_position (fst s)), s)
      | (Raise e, s) => (Raise e, s)
      end.
Proof.
  intros Hw. cbv zeta. unfold seek.
  assert (He : existsb (Z.eqb whence) WHENCE_CHOICES = true).
  { apply existsb_exists. exists whence. split; [exact Hw | apply Z.eqb_refl]. }
  rewrite He. cbn [negb].
  unfold bind at 1. unfold get_self at 1. cbn [fst snd].
  unfold bind at 1.
  assert (Hc : (match _body self with
                | Some b => close_body be b
                | None => ret tt
                end) (self, n) = (Ok tt, (self, after_close be (_body self) n))).
  { destruct (_body self) as [[bio | s] | ]; unfold close_body, ret, call, after_close;
      cbn [fst snd]; destruct n; reflexivity. }
  rewrite Hc. unfold bind at 1. unfold set_body at 1. unfold bind at 1.
  unfold get_self at 1, set_self at 1. cbn [fst snd].
  unfold bind at 1.
  match goal with
  | |- context [if ?c then _ else _open_body be ?a ?b] => destruct c eqn:R
  end.
  - destruct (_content_length self) as [cl | ] eqn:Hcl; [ | discriminate].
    unfold set_body, set_position, bind, get_self, set_self, assert_, ret, raise.
    cbn [fst snd truthy with_body _content_length].
    destruct (cl =? 0); cbn [negb]; [reflexivity | ].
    unfold at_eof. destruct self as [c v p b]. cbn in Hcl. subst c. reflexivity.
  - destruct (_open_body be _ _ _) as [[[] | e] s]; [ | reflexivity].
    unfold bind, get_self, ret. reflexivity.
Qed.

End Generic.

Section Object.
Variable data : bytes.
Hypothesis nonempty : data <> [].

Local Abbreviation n := (Z.of_nat (length data)).

(** On the simulated store a seek lands between the start and the end of
    the object. *)
Lemma sim_raw_seek (offset whence : Z) (rst : St (t bytes) Sim.World) :
  tracking data rst -> In whence WHENCE_CHOICES ->
  exists rst',
    seek Sim.reader offset whence rst
    = (Ok (clamp n (target n (_position (fst rst)) offset whence)), rst')
    /\ tracking data rst'
    /\ _position (fst rst') = clamp n (target n (_position (fst rst)) offset whence)
    /\ _body (fst rst') <> None.
Proof.
  intros Ht Hw. pose proof (RawAccessProps.length_pos data nonempty) as Hn.
  destruct rst as [self net]. rewrite (seek_eq Sim.reader offset whence self net Hw).
  cbv zeta. cbn [fst snd].
  assert (Hcl : _content_length self = None \/ _content_length self = Some n).
  { destruct Ht as (_ & _ & _ & _ & Hb). cbn [fst] in Hb.
    destruct (_body self) as [[bio | rem] | ]; [right; apply Hb | right; apply Hb | exact Hb]. }
  assert (Hworld : world (after_close Sim.reader (_body self) net) = world net)
    by (destruct (_body self) as [[bio | rem] | ]; reflexivity).
  destruct Ht as (Ho & Hu & Hi & Hp & _). cbn [fst snd] in *.
  assert (T : (n =? 0) = false) by (apply Z.eqb_neq; lia).
  assert (Heof : tracking data (at_eof self n, after_close Sim.reader (_body self) net)).
  { unfold tracking. cbn [fst snd at_eof _position _body _content_length].
    rewrite Hworld. repeat split; trivial; lia. }
  assert (Hopen : forall s, 0 <= s ->
            exists rst',
              _open_body Sim.reader (Some s) None
                (with_body self None, after_close Sim.reader (_body self) net) = (Ok tt, rst')
              /\ tracking data rst' /\ _position (fst rst') = Z.min s n
              /\ _body (fst rst') <> None).
  { intros s Hs. apply RawAccessProps.sim_open_start; trivial; rewrite Hworld; assumption. }
  assert (Hsuffix : forall k, 0 <= k ->
            exists rst',
              _open_body Sim.reader None (Some k)
                (with_body self None, after_close Sim.reader (_body self) net) = (Ok tt, rst')
              /\ tracking data rst'
              /\ _position (fst rst') = (if k =? 0 then n else Z.max 0 (n - k))
              /\ _body (fst rst') <> None).
  { intros k Hk. apply RawAccessProps.sim_open_suffix; trivial; rewrite Hworld; assumption. }
  assert (Hshort : forall p, p = n ->
            exists rst',
              (Ok n, (at_eof self n, after_close Sim.reader (_body self) net)) = (Ok p, rst')
              /\ tracking data rst' /\ _position (fst rst') = p /\ _body (fst rst') <> None).
  { intros p ->. eexists. split; [reflexivity | ]. split; [exact Heof | ].
    split; [reflexivity | discriminate]. }
  unfold clamp, target.
  cbn in Hw. destruct Hw as [<- | [<- | [<- | []]]].
  - (* from the start *)
    change (WHENCE_START =? WHENCE_START) with true. cbv iota.
    destruct (Hopen (Z.max 0 offset) ltac:(lia)) as (rst' & E & Ht' & Hpos & Hb').
    destruct Hcl as [Hcl | Hcl]; rewrite Hcl.
    + rewrite E. exists rst'. rewrite Hpos.
      split; [reflexivity | split; [exact Ht' | split; [reflexivity | exact Hb']]].
    + destruct (Z.max 0 offset >=? n) eqn:G.
      * apply Z.geb_le in G. rewrite T. apply Hshort. lia.
      * cbn [opt_Z_eqb]. rewrite E. exists rst'. rewrite Hpos.
        split; [reflexivity | split; [exact Ht' | split; [reflexivity | exact Hb']]].
  - (* from the current position *)
    change (WHENCE_CURRENT =? WHENCE_START) with false.
    change (WHENCE_CURRENT =? WHENCE_CURRENT) with true. cbv iota.
    rewrite (Z.add_comm (_position self) offset).
    destruct (Hopen (Z.max 0 (offset + _position self)) ltac:(lia))
      as (rst' & E & Ht' & Hpos & Hb').
    destruct Hcl as [Hcl | Hcl]; rewrite Hcl.
    + rewrite E. exists rst'. rewrite Hpos.
      split; [reflexivity | split; [exact Ht' | split; [reflexivity | exact Hb']]].
    + destruct (Z.max 0 (offset + _position self) >=? n) eqn:G.
      * apply Z.geb_le in G. rewrite T. apply Hshort. lia.
      * cbn [opt_Z_eqb]. rewrite E. exists rst'. rewrite Hpos.
        split; [reflexivity | split; [exact Ht' | split; [reflexivity | exact Hb']]].
  - (* from the end *)
    change (WHENCE_END =? WHENCE_START) with false.
    change (WHENCE_END =? WHENCE_CURRENT) with false. cbv iota.
    cbn [opt_Z_eqb].
    destruct (Hsuffix (Z.max 0 (- offset)) ltac:(lia)) as (rst' & E & Ht' & Hpos & Hb').
    assert (Hland : (if Z.max 0 (- offset) =? 0 then n else Z.max 0 (n - Z.max 0 (- offset)))
                    = Z.min (Z.max 0 (n + offset)) n).
    { destruct (Z.max 0 (- offset) =? 0) eqn:G;
        [apply Z.eqb_eq in G | apply Z.eqb_neq in G]; lia. }
    rewrite Hland in Hpos.
    destruct Hcl as [Hcl | Hcl]; rewrite Hcl.
    + rewrite E. exists rst'. rewrite Hpos.
      split; [reflexivity | split; [exact Ht' | split; [reflexivity | exact Hb']]].
    + destruct (Z.max 0 (- offset) =? 0) eqn:G.
      * apply Z.eqb_eq in G. rewrite T. apply Hshort. lia.
      * rewrite E. exists rst'. rewrite Hpos.
        split; [reflexivity | split; [exact Ht' | split; [reflexivity | exact Hb']]].
Qed.

End Object.
End RawSeekProps.

Module AccessProps.
Import Reader ReaderSpec AccessSpec.

Section Object.
Variable data : bytes.

Local Abbreviation n := (Z.of_nat (length data)).

Lemma firstn_then_rest {A : Type} (c : nat) (l : list A) :
  l = firstn c l ++ skipn (length (firstn c l)) l.
Proof.
  rewrite length_firstn. destruct (Nat.le_ge_cases c (length l)) as [H | H].
  - rewrite Nat.min_l by exact H. symmetry. apply firstn_skipn.
  - rewrite Nat.min_r by exact H. rewrite firstn_all2, skipn_all by exact H.
    symmetry. apply app_nil_r.
Qed.

Lemma requested_from_buffer (cp rp size : Z) (buf : bytes) :
  0 <= cp -> 0 < size ->
  skipn (Z.to_nat cp) data = buf ++ skipn (Z.to_nat rp) data ->
  size <= Z.of_nat (length buf) \/ rp = n ->
  firstn (Z.to_nat size) buf = RawReaderSpec.requested data cp size.
Proof.
  intros Hcp Hs Hd H. unfold RawReaderSpec.requested.
  replace (size <? 0) with false by (symmetry; apply Z.ltb_ge; lia).
  rewrite Hd. destruct H as [H | ->].
  - rewrite firstn_app. replace (Z.to_nat size - length buf)%nat with O by lia.
    cbn [firstn]. symmetry. apply app_nil_r.
  - rewrite Nat2Z.id, skipn_all, app_nil_r. reflexivity.
Qed.

(** Taking bytes out of the buffer keeps the reader in step. *)
Lemma sim_take (size : Z) (st : St (t bytes) Sim.World) :
  synced data st ->
  let k := Z.to_nat (if size >=? 0 then size else ByteBuffer.len (_buffer (fst st))) in
  let part := firstn k (ByteBuffer._bytes (_buffer (fst st))) in
  exists st',
    @_read_from_buffer Sim.World bytes size st = (Ok part, st')
    /\ synced data st'
    /\ _current_pos (fst st') = _current_pos (fst st) + Z.of_nat (length part)
    /\ _eof (fst st') = _eof (fst st)
    /\ ByteBuffer._bytes (_buffer (fst st')) = skipn k (ByteBuffer._bytes (_buffer (fst st))).
Proof.
  intros (Hne & Ht & Hc & Hcp & Hlen & Hd & He). cbv zeta.
  rewrite BufferedProps._read_from_buffer_eq. cbv zeta.
  set (k := Z.to_nat (if size >=? 0 then size else ByteBuffer.len (_buffer (fst st)))).
  set (buf := ByteBuffer._bytes (_buffer (fst st))) in *.
  eexists. split; [reflexivity | ].
  split; [ | cbn; repeat split; reflexivity].
  unfold synced. cbn [fst snd]. unfold raw_state, chunk in *.
  cbn [fst snd with_current_pos with_buffer _raw_reader _buffer _current_pos _eof
       ByteBuffer._bytes ByteBuffer._chunk_size].
  fold buf.
  assert (L : (length (firstn k buf) + length (skipn k buf) = length buf)%nat)
    by (rewrite <- length_app, firstn_skipn; reflexivity).
  split; [exact Hne | ]. split; [exact Ht | ]. split; [exact Hc | ].
  split; [lia | ]. split; [lia | ]. split; [ | exact He].
  replace (Z.to_nat (_current_pos (fst st) + Z.of_nat (length (firstn k buf))))
    with (length (firstn k buf) + Z.to_nat (_current_pos (fst st)))%nat by lia.
  rewrite <- skipn_skipn, Hd, skipn_app, length_firstn.
  destruct (Nat.le_ge_cases k (length buf)) as [Hk | Hk].
  - rewrite Nat.min_l by exact Hk. replace (k - length buf)%nat with O by lia. reflexivity.
  - rewrite Nat.min_r by exact Hk. rewrite Nat.sub_diag, skipn_all, (skipn_all2 buf) by lia.
    reflexivity.
Qed.

Hypothesis nonempty : data <> [].

(** One fill of the buffer from the raw reader. *)
Lemma sim_fill (st : St (t bytes) Sim.World) :
  synced data st ->
  exists st' (out : bytes),
    fill Sim.reader st = (Ok (Z.of_nat (length out)), st')
    /\ synced data st'
    /\ cursor st' = cursor st
    /\ _eof (fst st') = _eof (fst st)
    /\ (out = [] ->
        _SeekableRawReader._position (_raw_reader (fst st')) = n).
Proof.
  intros (Hne & Ht & Hc & Hcp & Hlen & Hd & He).
  destruct (RawAccessProps.sim_raw_read data nonempty (chunk st) (raw_state st) Ht)
    as (rst' & E & Ht' & Hpos & Hb').
  unfold fill. unfold bind at 1. unfold get_self at 1. cbn [fst snd].
  unfold bind at 1. unfold raw, lift_field. fold (chunk st).
  change (_raw_reader (fst st), snd st) with (raw_state st). rewrite E. cbn [fst snd].
  unfold set_buffer, bind, get_self, set_self, ret. cbn [fst snd].
  set (out := RawReaderSpec.requested data
                (_SeekableRawReader._position (fst (raw_state st))) (chunk st)) in *.
  eexists _, out. split; [reflexivity | ].
  assert (Hout : out = firstn (Z.to_nat (chunk st))
                         (skipn (Z.to_nat (_SeekableRawReader._position (_raw_reader (fst st))))
                            data)).
  { unfold out, RawReaderSpec.requested.
    replace (chunk st <? 0) with false by (symmetry; apply Z.ltb_ge; lia). reflexivity. }
  assert (Hrest : skipn (Z.to_nat (_SeekableRawReader._position (_raw_reader (fst st)))) data
                  = out ++ skipn (Z.to_nat (_SeekableRawReader._position (fst rst'))) data).
  { rewrite Hpos. unfold raw_state at 1. cbn [fst].
    replace (Z.to_nat (_SeekableRawReader._position (_raw_reader (fst st))
                       + Z.of_nat (length out)))
      with (length out + Z.to_nat (_SeekableRawReader._position (_raw_reader (fst st))))%nat
      by (destruct Ht as (_ & _ & _ & Hp & _); unfold raw_state in Hp; cbn [fst] in Hp; lia).
    rewrite <- skipn_skipn. rewrite Hout. apply firstn_then_rest. }
  assert (Hend : out = [] -> _SeekableRawReader._position (fst rst') = n).
  { intros H0. destruct Ht as (_ & _ & _ & Hp & _). unfold raw_state in Hp. cbn [fst] in Hp.
    rewrite Hpos, H0. unfold raw_state. cbn [fst length].
    rewrite H0 in Hout. symmetry in Hout.
    assert (L : length (firstn (Z.to_nat (chunk st))
                          (skipn (Z.to_nat (_SeekableRawReader._position
                                              (_raw_reader (fst st)))) data)) = O)
      by (rewrite Hout; reflexivity).
    rewrite length_firstn, length_skipn in L. lia. }
  split; [ | split; [reflexivity | split; [reflexivity | exact Hend]]].
  unfold synced, raw_state, chunk in *.
  cbn [fst snd with_buffer with_raw_reader _raw_reader _buffer _current_pos _eof
       ByteBuffer.append ByteBuffer._bytes ByteBuffer._chunk_size].
  destruct rst' as [raw' net']. cbn [fst snd] in *.
  split; [exact Hne | ]. split; [exact Ht' | ]. split; [exact Hc | ]. split; [exact Hcp | ].
  split; [rewrite length_app, Hpos; lia | ].
  split; [rewrite Hd, Hrest, app_assoc; reflexivity | ].
  intros Heof. specialize (He Heof). rewrite Hpos, He.
  assert (H0 : out = []) by (rewrite Hout, He, Nat2Z.id, skipn_all; apply firstn_nil).
  rewrite H0. cbn. lia.
Qed.

Lemma sim_fill_loop (fuel : nat) (size : Z) (st : St (t bytes) Sim.World) :
  synced data st ->
  exists st',
    _fill_buffer_loop Sim.reader fuel size st = (Ok tt, st')
    /\ synced data st' /\ cursor st' = cursor st /\ chunk st' = chunk st.
Proof.
  revert st. induction fuel as [ | fuel IH]; intros st Hs; cbn [_fill_buffer_loop].
  - exists st. split; [reflexivity | split; [exact Hs | split; reflexivity]].
  - unfold bind at 1. unfold get_self at 1. cbn [fst snd].
    destruct ((ByteBuffer.len (_buffer (fst st)) <? size) && negb (_eof (fst st)));
      [ | exists st; split; [reflexivity | split; [exact Hs | split; reflexivity]]].
    destruct (sim_fill st Hs) as (st1 & out & E & Hs1 & Hc1 & He1 & Hend).
    unfold bind at 1. rewrite E. unfold bind at 1.
    assert (Hk1 : chunk st1 = chunk st).
    { revert E. unfold fill, raw, lift_field, set_buffer, bind, get_self, set_self, ret.
      cbn [fst snd].
      destruct (_SeekableRawReader.read Sim.reader _ _) as [[nb | e] rst']; [ | discriminate].
      cbn [fst snd]. intros [= _ <-]. reflexivity. }
    destruct (Z.of_nat (length out) =? 0) eqn:Z0.
    + apply Z.eqb_eq in Z0. assert (out = []) by (destruct out; [reflexivity | cbn in Z0; lia]).
      specialize (Hend H).
      unfold set_eof, bind, get_self, set_self. cbn [fst snd].
      assert (Hs2 : synced data (with_eof (fst st1) true, snd st1)).
      { destruct Hs1 as (H1 & H2 & H3 & H4 & H5 & H6 & H7).
        unfold synced, raw_state, chunk in *. cbn [fst snd with_eof _raw_reader _buffer
                                                     _current_pos _eof] in *.
        split; [exact H1 | ]. split; [exact H2 | ]. split; [exact H3 | ].
        split; [exact H4 | ]. split; [exact H5 | ]. split; [exact H6 | ].
        intros _. exact Hend. }
      destruct (IH _ Hs2) as (st' & E' & Hs' & Hc' & Hk').
      exists st'. split; [exact E' | ]. split; [exact Hs' | ].
      split; [rewrite Hc', <- Hc1; reflexivity | rewrite Hk', <- Hk1; reflexivity].
    + unfold ret at 1.
      destruct (IH _ Hs1) as (st' & E' & Hs' & Hc' & Hk').
      exists st'. split; [exact E' | ]. split; [exact Hs' | ].
      split; [rewrite Hc', Hc1; reflexivity | rewrite Hk', Hk1; reflexivity].
Qed.

Lemma sim_fill_buffer (size : Z) (st : St (t bytes) Sim.World) :
  synced data st ->
  exists st',
    _fill_buffer Sim.reader size st = (Ok tt, st')
    /\ synced data st' /\ cursor st' = cursor st
    /\ (size <= ByteBuffer.len (_buffer (fst st')) \/ _eof (fst st') = true).
Proof.
  intros Hs. pose proof (ReaderProps._fill_buffer_exit Sim.reader size st) as Hx.
  unfold _fill_buffer in *. unfold bind, get_self in *. cbn [fst snd] in *.
  destruct (sim_fill_loop
              (Z.to_nat (Z.max size (ByteBuffer._chunk_size (_buffer (fst st)))
                         - ByteBuffer.len (_buffer (fst st))))
              (Z.max size (ByteBuffer._chunk_size (_buffer (fst st)))) st Hs)
    as (st' & E & Hs' & Hc' & _).
  exists st'. split; [exact E | ]. split; [exact Hs' | ]. split; [exact Hc' | ].
  specialize (Hx st' E). apply andb_false_iff in Hx. destruct Hx as [Hx | Hx].
  - left. apply Z.ltb_ge in Hx. lia.
  - right. destruct (_eof (fst st')); [reflexivity | discriminate].
Qed.

(** Reading through the buffered reader on the simulated store: a read
    returns exactly the bytes of the object from the logical position on, as
    many as were asked for or as are left (all that are left for a negative
    size), and the position advances past them. *)
Lemma sim_read (size : Z) (st : St (t bytes) Sim.World) :
  synced data st ->
  let out := RawReaderSpec.requested data (_current_pos (fst st)) size in
  exists st',
    read Sim.reader size st = (Ok out, st')
    /\ synced data st'
    /\ tell st' = (Ok (_current_pos (fst st) + Z.of_nat (length out)), st').
Proof.
  intros Hs. cbv zeta. unfold read.
  destruct (size =? 0) eqn:Z0.
  { apply Z.eqb_eq in Z0. subst size. exists st. unfold RawReaderSpec.requested. cbn.
    rewrite Z.add_0_r. split; [reflexivity | split; [exact Hs | reflexivity]]. }
  apply Z.eqb_neq in Z0.
  destruct (size <? 0) eqn:N0.
  - (* everything that is left *)
    destruct (sim_take (-1) st Hs) as (st1 & E1 & Hs1 & Hp1 & He1 & Hb1).
    cbv zeta in E1, Hp1, Hb1. cbn [Z.geb Z.compare] in E1, Hp1, Hb1.
    unfold ByteBuffer.len in E1, Hp1, Hb1. rewrite Nat2Z.id, firstn_all in E1, Hp1.
    rewrite Nat2Z.id, skipn_all in Hb1.
    unfold bind at 1. rewrite E1.
    destruct Hs1 as (Hne & Ht1 & Hc1 & Hcp1 & Hlen1 & Hd1 & Heof1).
    destruct (RawAccessProps.sim_raw_read data nonempty (-1) (raw_state st1) Ht1)
      as (rst' & E & Ht' & Hpos & Hb').
    unfold bind at 1. unfold raw, lift_field.
    change (_raw_reader (fst st1), snd st1) with (raw_state st1). rewrite E. cbn [fst snd].
    pose proof (RawAccessProps.tracking_open data rst' Ht' Hb') as Hcl.
    unfold bind at 1. unfold get_self at 1. cbn [fst snd with_raw_reader _raw_reader].
    rewrite Hcl. unfold set_current_pos, bind, get_self, set_self, ret. cbn [fst snd].
    rewrite Hb1 in Hlen1, Hd1. cbn [length app] in Hlen1, Hd1. rewrite Z.add_0_r in Hlen1.
    assert (Hreq : RawReaderSpec.requested data
                     (_SeekableRawReader._position (fst (raw_state st1))) (-1)
                   = skipn (Z.to_nat (_current_pos (fst st1))) data).
    { unfold raw_state. cbn [fst]. rewrite <- Hlen1. reflexivity. }
    rewrite Hreq in *.
    assert (Hout : RawReaderSpec.requested data (_current_pos (fst st)) size
                   = ByteBuffer._bytes (_buffer (fst st))
                     ++ skipn (Z.to_nat (_current_pos (fst st1))) data).
    { unfold RawReaderSpec.requested. rewrite N0.
      destruct Hs as (_ & _ & _ & _ & Hlen & Hd & _). rewrite Hd. f_equal. f_equal. lia. }
    rewrite Hout.
    assert (Hend : _SeekableRawReader._position (fst rst') = n).
    { rewrite Hpos, length_skipn. unfold raw_state. cbn [fst]. rewrite <- Hlen1.
      destruct Ht1 as (_ & _ & _ & Hp & _). unfold raw_state in Hp. cbn [fst] in Hp. lia. }
    eexists. split; [reflexivity | ]. split.
    + unfold synced, raw_state, chunk in *.
      cbn [fst snd with_current_pos with_raw_reader _raw_reader _buffer _current_pos _eof].
      destruct rst' as [raw' net']. cbn [fst snd] in *. rewrite Hb1. cbn [length app].
      split; [exact Hne | ]. split; [exact Ht' | ]. split; [exact Hc1 | ].
      split; [lia | ]. split; [lia | ]. split; [rewrite Hend; reflexivity | ].
      intros _. exact Hend.
    + unfold tell, bind, get_self, ret. cbn [fst snd with_current_pos _current_pos].
      f_equal. f_equal. rewrite length_app, length_skipn.
      destruct Hs as (_ & Ht & _ & Hcp & Hlen & _ & _).
      destruct Ht as (_ & _ & _ & Hp & _). unfold raw_state in Hp. cbn [fst] in Hp. lia.
  - apply Z.ltb_ge in N0. assert (Hpos : 0 < size) by lia.
    unfold bind at 1. unfold get_self at 1. cbn [fst snd].
    assert (Hfrom : forall s1 : St (t bytes) Sim.World,
              synced data s1 -> cursor s1 = cursor st ->
              size <= ByteBuffer.len (_buffer (fst s1)) \/ _eof (fst s1) = true ->
              forall sz, sz = size \/ (sz = -1 /\ ByteBuffer.len (_buffer (fst s1)) < size) ->
              exists st',
                @_read_from_buffer Sim.World bytes sz s1
                = (Ok (RawReaderSpec.requested data (_current_pos (fst st)) size), st')
                /\ synced data st'
                /\ tell st'
                   = (Ok (_current_pos (fst st)
                          + Z.of_nat (length (RawReaderSpec.requested data
                                                (_current_pos (fst st)) size))), st')).
    { intros s1 Hs1 Hcur Hcase sz Hsz.
      destruct (sim_take sz s1 Hs1) as (st' & E & Hs' & Hp' & _ & _). cbv zeta in E, Hp'.
      unfold cursor in Hcur. injection Hcur as Hcur _.
      assert (Hpart : firstn (Z.to_nat (if sz >=? 0 then sz
                                        else ByteBuffer.len (_buffer (fst s1))))
                        (ByteBuffer._bytes (_buffer (fst s1)))
                      = firstn (Z.to_nat size) (ByteBuffer._bytes (_buffer (fst s1)))).
      { destruct Hsz as [-> | [-> Hlt]].
        - replace (size >=? 0) with true by (symmetry; apply Z.geb_le; lia). reflexivity.
        - cbn [Z.geb Z.compare]. unfold ByteBuffer.len in *. rewrite Nat2Z.id, firstn_all.
          symmetry. apply firstn_all2. lia. }
      rewrite Hpart in E, Hp'.
      destruct Hs1 as (_ & Ht1 & _ & Hcp1 & Hlen1 & Hd1 & Heof1).
      assert (Hreq : firstn (Z.to_nat size) (ByteBuffer._bytes (_buffer (fst s1)))
                     = RawReaderSpec.requested data (_current_pos (fst st)) size).
      { rewrite <- Hcur.
        apply (requested_from_buffer _
                 (_SeekableRawReader._position (_raw_reader (fst s1)))); trivial.
        destruct Hcase as [H | H]; [left; exact H | right; apply Heof1; exact H]. }
      rewrite Hreq in E, Hp'. exists st'. split; [exact E | ]. split; [exact Hs' | ].
      unfold tell, bind, get_self, ret. cbn [fst snd]. rewrite Hp', Hcur. reflexivity. }
    destruct (ByteBuffer.len (_buffer (fst st)) >=? size) eqn:L.
    + apply Z.geb_le in L. apply (Hfrom st Hs eq_refl); [left; lia | left; reflexivity].
    + rewrite Z.geb_leb in L. apply Z.leb_gt in L.
      destruct (_eof (fst st)) eqn:Heof.
      * apply (Hfrom st Hs eq_refl); [right; exact Heof | right; split; [reflexivity | exact L]].
      * destruct (sim_fill_buffer size st Hs) as (s1 & E & Hs1 & Hc1 & Hcase).
        unfold bind at 1. rewrite E.
        apply (Hfrom s1 Hs1 Hc1 Hcase). left; reflexivity.
Qed.

(** Seeking through the buffered reader on the simulated store: the
    position returned, which [tell] reports from then on, is the target of
    the seek (the offset from the start, from the logical position or from
    the end) brought into the range from 0 to the length of the object. *)
Lemma sim_seek (offset whence : Z) (st : St (t bytes) Sim.World) :
  synced data st -> In whence WHENCE_CHOICES ->
  let p := clamp n (target n (_current_pos (fst st)) offset whence) in
  exists st',
    seek Sim.reader offset whence st = (Ok p, st')
    /\ synced data st'
    /\ tell st' = (Ok p, st').
Proof.
  intros (Hne & Ht & Hc & Hcp & Hlen & Hd & He) Hw. cbv zeta.
  set (whence' := if whence =? WHENCE_CURRENT then WHENCE_START else whence).
  set (offset' := if whence =? WHENCE_CURRENT then offset + _current_pos (fst st) else offset).
  assert (Hw' : In whence' WHENCE_CHOICES).
  { unfold whence'. destruct (whence =? WHENCE_CURRENT); [left; reflexivity | exact Hw]. }
  destruct (RawSeekProps.sim_raw_seek data nonempty offset' whence' (raw_state st) Ht Hw')
    as (rst' & E & Ht' & Hpos & Hb').
  assert (Htarget : clamp n (target n (_SeekableRawReader._position (fst (raw_state st)))
                               offset' whence')
                    = clamp n (target n (_current_pos (fst st)) offset whence)).
  { unfold whence', offset', target. cbn in Hw.
    destruct Hw as [<- | [<- | [<- | []]]]; cbn; f_equal; lia. }
  rewrite Htarget in *.
  set (p := clamp n (target n (_current_pos (fst st)) offset whence)) in *.
  pose proof (RawAccessProps.tracking_open data rst' Ht' Hb') as Hcl.
  unfold seek. unfold bind at 1. unfold get_self at 1. cbn [fst snd].
  fold whence' offset'. unfold bind at 1. unfold raw, lift_field.
  change (_raw_reader (fst st), snd st) with (raw_state st). rewrite E. cbn [fst snd].
  unfold set_current_pos, set_buffer, set_eof, bind, get_self, set_self, ret.
  cbn [fst snd with_raw_reader with_current_pos with_buffer with_eof _raw_reader _buffer].
  rewrite Hcl. eexists. split; [reflexivity | ]. split; [ | reflexivity].
  unfold synced, raw_state, chunk in *.
  cbn [fst snd with_raw_reader with_current_pos with_buffer with_eof _raw_reader _buffer
       _current_pos _eof ByteBuffer.empty ByteBuffer._bytes ByteBuffer._chunk_size length app].
  destruct rst' as [raw' net']. cbn [fst snd] in *.
  assert (0 <= p <= n) by (unfold p, clamp; lia).
  split; [exact Hne | ]. split; [exact Ht' | ]. split; [exact Hc | ].
  split; [lia | ]. split; [lia | ]. split; [rewrite Hpos; reflexivity | ].
  intros Heof. apply Z.eqb_eq in Heof. lia.
Qed.

End Object.
End AccessProps.

Module FileProps.
Import Reader ReaderSpec AccessSpec.

Section Object.
Variable data : bytes.
Hypothesis nonempty : data <> [].

(** A reader constructed with [defer_seek] has sent nothing and is in
    step with the object. *)
Lemma sim_deferred (w : Sim.World) (buffer_size : Z) :
  serving data w -> 0 < buffer_size ->
  exists self,
    constructed w buffer_size true = (Ok self, (tt, net0 w))
    /\ synced data (self, net0 w) /\ _current_pos self = 0.
Proof.
  intros (Ho & Hu & Hi) Hb. eexists. split; [reflexivity | ]. split; [ | reflexivity].
  unfold synced, raw_state, chunk, tracking. cbn.
  repeat split; trivial; try lia. left; reflexivity.
Qed.

(** Without [defer_seek] the constructor seeks to the start. *)
Lemma sim_constructed (w : Sim.World) (buffer_size : Z) (defer_seek : bool) :
  serving data w -> 0 < buffer_size ->
  exists self st0,
    constructed w buffer_size defer_seek = (Ok self, st0)
    /\ synced data (self, snd st0) /\ _current_pos self = 0.
Proof.
  intros Hw Hb. destruct (sim_deferred w buffer_size Hw Hb) as (self0 & E0 & Hs0 & Hp0).
  destruct defer_seek.
  - exists self0, (tt, net0 w). split; [exact E0 | split; [exact Hs0 | exact Hp0]].
  - destruct (AccessProps.sim_seek data nonempty 0 WHENCE_START (self0, net0 w) Hs0
                ltac:(left; reflexivity)) as (st' & E & Hs' & Ht').
    cbv zeta in E.
    assert (Hz : clamp (Z.of_nat (length data))
                   (target (Z.of_nat (length data)) (_current_pos (fst (self0, net0 w))) 0
                      WHENCE_START) = 0).
    { unfold clamp, target. cbn. destruct data; [contradiction | cbn; lia]. }
    rewrite Hz in E, Ht'.
    unfold constructed, __init__ in E0. cbn [negb] in E0. injection E0 as <-.
    unfold constructed, __init__. cbn [negb snd].
    cbv zeta. rewrite E. cbn [fst snd]. exists (fst st'), (tt, snd st').
    split; [reflexivity | ]. cbn [snd]. split; [destruct st'; exact Hs' | ].
    revert Ht'. unfold tell, bind, get_self, ret. cbn [fst snd]. intros [= ->]. reflexivity.
Qed.

Lemma reader_run_synced (ops : list Op) (st : St (t bytes) Sim.World) :
  synced data st -> Forall well_formed ops ->
  reader_run ops st = Ok (file_run data (_current_pos (fst st)) ops).
Proof.
  revert st. induction ops as [ | op rest IH]; intros st Hs Hops; [reflexivity | ].
  inversion Hops as [ | ? ? Hop Hrest]; subst.
  cbn [reader_run file_run]. destruct op as [offset whence | size]; cbn [reader_step file_step].
  - destruct (AccessProps.sim_seek data nonempty offset whence st Hs Hop) as (st' & E & Hs' & Ht').
    cbv zeta in E. unfold bind at 1. rewrite E. unfold ret at 1. cbv zeta. cbn [fst snd].
    rewrite (IH st' Hs' Hrest). f_equal. f_equal. f_equal.
    revert Ht'. unfold tell, bind, get_self, ret. cbn [fst snd]. intros [= ->]. reflexivity.
  - destruct (AccessProps.sim_read data nonempty size st Hs) as (st' & E & Hs' & Ht').
    cbv zeta in E. unfold bind at 1. rewrite E. unfold ret at 1. cbv zeta. cbn [fst snd].
    rewrite (IH st' Hs' Hrest). f_equal. f_equal. f_equal.
    revert Ht'. unfold tell, bind, get_self, ret. cbn [fst snd]. intros [= ->]. reflexivity.
Qed.

End Object.

(** X.  On the simulated store the buffered reader is a file.  Let the
    store hold a non-empty object and answer without faults, and let a reader
    be constructed with a positive buffer size, with or without [defer_seek].
    Then the construction succeeds, and whatever sequence of [seek] and
    [read] calls follows (every whence one of the three choices, any offsets
    and sizes), no call raises and the answers are those of a file in memory
    holding the same bytes: a seek returns its target brought into the range
    from 0 to the length, where the target is counted from the start, from
    the logical position or from the end; a read returns the bytes from the
    position on, as many as asked for or as are left (all of them for a
    negative size), and moves the position past them.  Buffering, read-ahead
    and the choice of range requests do not show. *)
Theorem reader_is_a_file (data : bytes) (w : Sim.World) (buffer_size : Z)
    (defer_seek : bool) (ops : list Op) :
  data <> [] -> serving data w -> 0 < buffer_size -> Forall well_formed ops ->
  exists self st0,
    constructed w buffer_size defer_seek = (Ok self, st0)
    /\ reader_run ops (self, snd st0) = Ok (file_run data 0 ops).
Proof.
  intros Hne Hw Hb Hops.
  destruct (sim_constructed data Hne w buffer_size defer_seek Hw Hb)
    as (self & st0 & E & Hs & Hp).
  exists self, st0. split; [exact E | ].
  rewrite (reader_run_synced data Hne ops _ Hs Hops). cbn [fst]. rewrite Hp. reflexivity.
Qed.

Lemma reader_is_a_file_witness :
  exists self st0,
    constructed (Sim.holding RawReaderSpec.digits) 4 false = (Ok self, st0)
    /\ reader_run [Read 3; Seek (-2) WHENCE_CURRENT; Read 6; Seek (-3) WHENCE_END;
                   Read (-1); Read 5; Seek 42 WHENCE_START; Seek 7 WHENCE_START; Read 1]
         (self, snd st0)
       = Ok [Bytes (list_byte_of_string "012"); Position 1;
             Bytes (list_byte_of_string "123456"); Position 7;
             Bytes (list_byte_of_string "789"); Bytes []; Position 10; Position 7;
             Bytes (list_byte_of_string "7")].
Proof.
  exact (reader_is_a_file RawReaderSpec.digits (Sim.holding RawReaderSpec.digits) 4 false
           [Read 3; Seek (-2) WHENCE_CURRENT; Read 6; Seek (-3) WHENCE_END;
            Read (-1); Read 5; Seek 42 WHENCE_START; Seek 7 WHENCE_START; Read 1]
           ltac:(discriminate) (conj eq_refl (conj eq_refl eq_refl)) eq_refl
           ltac:(repeat constructor; cbn; tauto)).
Defined.

(** X.  What was written is what is read.  On the simulated store without
    faults, a multipart writer with any minimum part size is given chunks
    that are not all empty and is closed; a reader with any positive buffer
    size constructed afterwards reads, to the end, exactly the chunks put
    together in order. *)
Theorem written_then_read_back (min_part_size buffer_size : Z) (chunks : list bytes)
    (w : Sim.World) :
  Sim.unreachable w = O -> Sim.interruptions w = [] ->
  concat chunks <> [] -> 0 < buffer_size ->
  exists stw self st0 str,
    (UploadSpec.write_all Sim.writer chunks ;; MultipartWriter.close Sim.writer)
      (WriterSpec.created min_part_size w) = (Ok tt, stw)
    /\ constructed (world (snd stw)) buffer_size false = (Ok self, st0)
    /\ read Sim.reader (-1) (self, snd st0) = (Ok (concat chunks), str).
Proof.
  intros Hu Hi Hne Hb.
  assert (Hc : WriterSpec.created min_part_size w
               = (MultipartWriter.mk min_part_size (Some tt) BytesIO_new 0 0 [],
                  {| world := Sim.with_uploads w []; trace := [EvInitiateMultipartUpload] |})).
  { unfold WriterSpec.created, MultipartWriter.__init__.
    unfold bind at 1. unfold try_except at 1.
    erewrite WriterProps.retry_answered with (r := Ok tt); [ | | exact I]; cycle 1.
    - unfold call. cbn. unfold Sim.connecting. rewrite Hu. reflexivity.
    - reflexivity. }
  rewrite Hc.
  assert (H0 : UploadSpec.sim_inv []
                 (MultipartWriter.mk min_part_size (Some tt) BytesIO_new 0 0 [],
                  {| world := Sim.with_uploads w [];
                     trace := [EvInitiateMultipartUpload] |})).
  { unfold UploadSpec.sim_inv. cbn. repeat split; trivial. exists O, []. repeat split. }
  destruct (SimUploadProps.sim_write_all chunks [] _ H0) as (st1 & E1 & H1 & Hi1).
  cbn [app] in H1.
  destruct (SimUploadProps.sim_close _ st1 H1) as (st2 & E2 & Ho & _ & _ & _ & Hu2 & Hi2).
  assert (Hw : serving (concat chunks) (world (snd st2))).
  { split; [exact Ho | ]. split; [exact Hu2 | ]. rewrite Hi2, Hi1. exact Hi. }
  destruct (sim_constructed _ Hne _ buffer_size false Hw Hb) as (self & st0 & E & Hs & Hp).
  destruct (AccessProps.sim_read _ Hne (-1) _ Hs) as (str & Er & _).
  cbv zeta in Er. cbn [fst] in Er. rewrite Hp in Er.
  exists st2, self, st0, str. unfold bind at 1. rewrite E1, E2.
  split; [reflexivity | ]. split; [exact E | ]. exact Er.
Qed.

Lemma written_then_read_back_witness :
  exists stw self st0 str,
    (UploadSpec.write_all Sim.writer [WriterSpec.abc; WriterSpec.abc; WriterSpec.abc] ;;
     MultipartWriter.close Sim.writer) (WriterSpec.created 5 Sim.vacant) = (Ok tt, stw)
    /\ constructed (world (snd stw)) 2 false = (Ok self, st0)
    /\ read Sim.reader (-1) (self, snd st0) = (Ok (list_byte_of_string "abcabcabc"), str).
Proof.
  exact (written_then_read_back 5 2 [WriterSpec.abc; WriterSpec.abc; WriterSpec.abc]
           Sim.vacant eq_refl eq_refl ltac:(discriminate) eq_refl).
Defined.

End FileProps.

Module DownloadProps.
Import ListingSpec.

Section Generic.
Context {W : Type} (be : BucketBackend W).

Lemma _download_key_loop_failing (key : string) (retries : Z) (k : nat) (w wk : W) :
  failing be key k w wk ->
  forall (n : nat) (x : Z) (tr : list Event),
    x + Z.of_nat k <= retries -> (k <= n)%nat ->
    _download_key_loop be n x key retries (tt, {| world := w; trace := tr |})
    = _download_key_loop be (n - k) (x + Z.of_nat k) key retries
        (tt, {| world := wk; trace := tr ++ repeat (EvDownload key) k |}).
Proof.
  induction 1 as [w | k w w1 wk r Hd Hf IH]; intros n x tr Hx Hn.
  - cbn [repeat]. rewrite Nat.sub_0_r, Z.add_0_r, app_nil_r. reflexivity.
  - destruct n as [ | n]; [lia | ]. cbn [_download_key_loop Nat.sub].
    unfold try_except, _download_fileobj, bind, call, ret. cbn [fst snd world trace].
    rewrite Hd. cbn [fst snd isinstance].
    replace (x =? retries) with false by (symmetry; apply Z.eqb_neq; lia).
    rewrite IH by lia. cbn [repeat]. rewrite <- app_assoc. cbn [app].
    replace (x + 1 + Z.of_nat k) with (x + Z.of_nat (S k)) by lia. reflexivity.
Qed.

(** X.  [_download_key] tries a download at most [retries] + 1 times.  After
    [k] attempts in a row that the store refused with a client error, [k] not
    more than [retries], the next attempt decides: its content is returned
    with the key; an exception that is not a client error is raised at once;
    and a client error is raised only when it is the last attempt allowed ([k]
    = [retries]).  Exactly [k] + 1 downloads of this key were requested.
    With a negative [retries] nothing is requested and there is no result
    ([None]); without a bucket name [ValueError] is raised before anything
    is requested. *)
Theorem download_key_retries (key bucket_name : string) (retries : Z) (k : nat)
    (n : Net W) (wk w' : W) (r : Result bytes) :
  failing be key k (world n) wk ->
  Z.of_nat k <= retries ->
  download_fileobj be key wk = (r, w') ->
  match r with
  | Ok _ => True
  | Raise e => isinstance e C_ClientError = false \/ Z.of_nat k = retries
  end ->
  _download_key be key (Some bucket_name) retries (tt, n)
  = (match r with
     | Ok content => Ok (Some (key, content))
     | Raise e => Raise e
     end,
     (tt, logged n w' (repeat (EvDownload key) (S k))))
  /\ (forall st negative, negative < 0 ->
        _download_key be key (Some bucket_name) negative st = (Ok None, st))
  /\ (forall st, _download_key be key None retries st = (Raise ValueError, st)).
Proof.
  intros Hf Hk Hd Hr. split; [ | split].
  - unfold _download_key. destruct n as [w tr]. cbn [world] in *.
    rewrite (_download_key_loop_failing key retries k w wk Hf) by lia.
    destruct (Z.to_nat (retries + 1) - k)%nat as [ | m] eqn:E; [lia | ].
    cbn [_download_key_loop]. unfold try_except, _download_fileobj, bind, call, ret, logged.
    cbn [fst snd world trace]. rewrite Hd. cbn [fst snd].
    replace (repeat (EvDownload key) (S k)) with (repeat (EvDownload key) k ++ [EvDownload key])
      by (rewrite <- repeat_cons; reflexivity).
    rewrite app_assoc.
    destruct r as [content | e]; [reflexivity | ].
    destruct (isinstance e C_ClientError) eqn:C; [ | reflexivity].
    destruct Hr as [Hr | Hr]; [discriminate | ].
    replace (0 + Z.of_nat k =? retries) with true by (symmetry; apply Z.eqb_eq; lia).
    reflexivity.
  - intros st negative Hneg. unfold _download_key.
    replace (Z.to_nat (negative + 1)) with O by lia. reflexivity.
  - reflexivity.
Qed.

(** One download that the store serves. *)
Lemma _download_key_held (good : W -> Prop) (content_of : string -> bytes)
    (keys : list string) (key bucket_name : string) (retries : Z) (st : St unit W) :
  holds be good content_of keys -> In key keys -> good (world (snd st)) -> 0 <= retries ->
  exists st',
    _download_key be key (Some bucket_name) retries st = (Ok (Some (key, content_of key)), st')
    /\ good (world (snd st')).
Proof.
  intros Hs Hin Hg Hr. unfold _download_key.
  destruct (Z.to_nat (retries + 1)) as [ | n] eqn:E; [lia | ].
  cbn [_download_key_loop]. unfold try_except, _download_fileobj, bind, call, ret.
  cbn [fst snd].
  destruct (Hs key (world (snd st)) Hin Hg) as (w' & Hd & Hg').
  rewrite Hd. cbn [fst snd]. eexists. split; [reflexivity | exact Hg'].
Qed.

Lemma iter_results_yield (good : W -> Prop) (content_of : string -> bytes)
    (keys : list string) (bucket_name : string) (key_limit : option Z) (retries : Z)
    (pending : list string) :
  holds be good content_of keys -> 0 <= retries ->
  forall (key_no : Z) (st : St unit W),
    incl pending keys -> good (world (snd st)) ->
    exists st',
      iter_results be pending key_no bucket_name key_limit retries st
      = (Ok (map (fun k => (k, content_of k))
               (firstn (match key_limit with
                        | None => length pending
                        | Some limit => Z.to_nat (Z.max 1 (limit - key_no))
                        end) pending)), st')
      /\ good (world (snd st')).
Proof.
  intros Hs Hr. induction pending as [ | key rest IH]; intros key_no st Hincl Hg.
  - exists st. rewrite firstn_nil. split; [reflexivity | exact Hg].
  - cbn [iter_results]. unfold bind at 1. unfold emit at 1. cbn [fst snd].
    set (st0 := (fst st, {| world := world (snd st);
                            trace := trace (snd st) ++ [EvNextResult] |})).
    destruct (_download_key_held good content_of keys key bucket_name retries st0 Hs
                (Hincl key (or_introl eq_refl)) Hg Hr) as (st1 & Hd & Hg1).
    unfold bind at 1. rewrite Hd.
    destruct (IH (key_no + 1) st1 (fun k Hk => Hincl k (or_intror Hk)) Hg1)
      as (st2 & Hi & Hg2).
    destruct key_limit as [limit | ].
    + destruct (key_no + 1 >=? limit) eqn:L.
      * apply Z.geb_le in L. exists st1. unfold ret.
        replace (Z.to_nat (Z.max 1 (limit - key_no))) with 1%nat by lia.
        split; [reflexivity | exact Hg1].
      * rewrite Z.geb_leb in L. apply Z.leb_gt in L.
        exists st2. unfold bind. rewrite Hi. unfold ret.
        replace (Z.to_nat (Z.max 1 (limit - key_no)))
          with (S (Z.to_nat (Z.max 1 (limit - (key_no + 1))))) by lia.
        split; [reflexivity | exact Hg2].
    + exists st2. unfold bind. rewrite Hi. unfold ret. split; [reflexivity | exact Hg2].
Qed.

(** X.  How many pairs [iter_bucket] yields, and which.  Let the listing
    give the keys [keys] and the store serve the download of each.  Then
    the pairs yielded are the first results the pool delivers, each key
    with its content: all of them without a limit; with a limit, as many as
    the limit says, but never fewer than one when there is a result at all,
    so that a limit of zero or below still yields one pair.  The pool is
    created first and torn down last. *)
Theorem iter_bucket_yields (order : list string -> list string) (pages : nat)
    (bucket_name prefix : string) (accept_key : option (string -> bool))
    (key_limit : option Z) (workers retries : Z) (good : W -> Prop)
    (content_of : string -> bytes) (keys : list string) (st st1 : St unit W) :
  0 <= retries ->
  _list_bucket be pages prefix
    (match accept_key with None => _accept_all | Some f => f end) None
    (snd (emit (EvPoolCreate workers) st)) = Some (Ok keys, st1) ->
  incl (order keys) keys ->
  holds be good content_of keys -> good (world (snd st1)) ->
  exists st',
    iter_bucket be order pages bucket_name prefix accept_key key_limit workers retries st
    = Some (Ok (map (fun k => (k, content_of k))
                  (firstn (yielded key_limit (length (order keys))) (order keys))), st')
    /\ last (trace (snd st')) EvNextResult = EvPoolTerminate.
Proof.
  intros Hr Hlist Hincl Hs Hg. unfold iter_bucket. rewrite Hlist.
  destruct (iter_results_yield good content_of keys bucket_name key_limit retries
              (order keys) Hs Hr 0 st1 Hincl Hg) as (st2 & Hi & _).
  assert (E : firstn (yielded key_limit (length (order keys))) (order keys)
              = firstn (match key_limit with
                        | None => length (order keys)
                        | Some limit => Z.to_nat (Z.max 1 (limit - 0))
                        end) (order keys)).
  { unfold yielded. destruct key_limit as [limit | ]; [ | reflexivity].
    rewrite Z.sub_0_r.
    destruct (Nat.le_ge_cases (length (order keys)) (Z.to_nat (Z.max 1 limit))) as [H | H].
    - rewrite Nat.min_l by exact H. rewrite !firstn_all2; trivial.
    - rewrite Nat.min_r by exact H. reflexivity. }
  rewrite E.
  eexists. unfold bind at 1. rewrite Hi. unfold bind, emit, ret. cbn [fst snd].
  split; [reflexivity | apply last_last].
Qed.

(** X.  What [_list_bucket] yields and asks for, on any store: every key
    it yields passed [accept_key]; the first listing request carries no
    continuation token, and every later one carries a token that is not
    empty. *)
Theorem list_bucket_accepts (pages : nat) (prefix : string) (accept_key : string -> bool)
    (ctoken : option string) (st st' : St unit W) (keys : list string) :
  _list_bucket be pages prefix accept_key ctoken st = Some (Ok keys, st') ->
  Forall (fun key => accept_key key = true) keys
  /\ exists evs tokens,
       trace (snd st') = trace (snd st) ++ evs
       /\ listings evs = (if token_truthy ctoken then ctoken else None) :: map Some tokens
       /\ Forall (fun t => t <> ""%string) tokens.
Proof.
  revert ctoken st st' keys. induction pages as [ | pages IH]; intros ctoken st st' keys;
    cbn [_list_bucket]; [discriminate | ].
  unfold call. cbn [fst snd].
  destruct (list_objects_v2 be prefix _ (world (snd st))) as [[response | e] w1] eqn:L;
    cbn [fst snd]; [ | discriminate].
  assert (Hf : Forall (fun key => accept_key key = true)
                 match Contents response with
                 | Some content => filter accept_key content
                 | None => []
                 end).
  { destruct (Contents response) as [content | ]; [ | constructor].
    apply Forall_forall. intros key Hk. apply filter_In in Hk. apply Hk. }
  destruct (token_truthy (NextContinuationToken response)) eqn:T; cbn [negb].
  - match goal with
    | |- context [_list_bucket be pages prefix accept_key ?c ?s] =>
        specialize (IH c s);
        destruct (_list_bucket be pages prefix accept_key c s) as [[[more | e] st2] | ]
    end; try discriminate.
    intros [= <- <-]. destruct (IH _ _ eq_refl) as (Hm & evs & tokens & Hevs & Hl & Ht).
    split; [apply Forall_app; split; assumption | ].
    rewrite T in Hl.
    destruct (NextContinuationToken response) as [t | ] eqn:N; [ | discriminate].
    eexists (_ :: evs), (t :: tokens). cbn [trace snd] in Hevs.
    split; [rewrite Hevs, <- app_assoc; reflexivity | ].
    split; [cbn [listings map]; rewrite Hl; reflexivity | ].
    constructor; [ | exact Ht].
    intros ->. discriminate.
  - intros [= <- <-]. split; [exact Hf | ].
    eexists [_], []. cbn [trace snd]. split; [reflexivity | ].
    split; [reflexivity | constructor].
Qed.

End Generic.
End DownloadProps.

Module SimListingProps.
Import ListingSpec BucketSpec.

Lemma after_split (t : string) (pre post : list string) :
  NoDup (pre ++ t :: post) -> Sim.after t (pre ++ t :: post) = post.
Proof.
  induction pre as [ | p pre IH]; intros Hnd; cbn [app Sim.after].
  - rewrite String.eqb_refl. reflexivity.
  - inversion Hnd as [ | ? ? Hp Hnd']; subst.
    destruct (String.eqb_spec p t) as [-> | _].
    + exfalso. apply Hp. apply in_or_app. right. left. reflexivity.
    + apply IH. exact Hnd'.
Qed.

Lemma sim_keys_proper (prefix : string) (w : Sim.Bucket) :
  proper w -> NoDup (sim_keys prefix w) /\ ~ In ""%string (sim_keys prefix w).
Proof.
  intros (Hnd & Hne & _). unfold sim_keys. split.
  - apply NoDup_filter. exact Hnd.
  - intros H. apply filter_In in H. apply Hne, H.
Qed.

(** The listing loop on a simulated bucket, from any page on: [seen] are the
    keys of the pages before, [ahead] the keys still to come. *)
Lemma sim_list_from (w : Sim.Bucket) (prefix : string) (accept_key : string -> bool) :
  proper w ->
  forall (fuel : nat) (seen ahead : list string) (ctoken : option string) (st : St unit Sim.Bucket),
    sim_keys prefix w = seen ++ ahead ->
    (ctoken = None /\ seen = []) \/ (exists d t, seen = d ++ [t] /\ ctoken = Some t) ->
    (length ahead < fuel)%nat ->
    world (snd st) = w ->
    exists st',
      _list_bucket Sim.bucket fuel prefix accept_key ctoken st
      = Some (Ok (filter accept_key ahead), st')
      /\ world (snd st') = w.
Proof.
  intros Hp. destruct (sim_keys_proper prefix w Hp) as (Hnd & Hne).
  destruct Hp as (_ & _ & Hps).
  induction fuel as [ | fuel IH]; intros seen ahead ctoken st Hall Htok Hfuel Hw; [lia | ].
  cbn [_list_bucket].
  assert (Ht : (if token_truthy ctoken then ctoken else None) = ctoken).
  { destruct Htok as [(-> & _) | (d & t & -> & ->)]; [reflexivity | ].
    cbn [token_truthy]. destruct (String.eqb_spec t "") as [-> | _]; [ | reflexivity].
    exfalso. apply Hne. rewrite Hall. apply in_or_app. left. apply in_or_app. right.
    left. reflexivity. }
  rewrite Ht. unfold call. cbn [fst snd Sim.bucket list_objects_v2]. rewrite Hw.
  unfold Sim.list_page. fold (sim_keys prefix w).
  assert (Hrest : match ctoken with
                  | Some t => Sim.after t (sim_keys prefix w)
                  | None => sim_keys prefix w
                  end = ahead).
  { destruct Htok as [(-> & ->) | (d & t & -> & ->)]; [exact Hall | ].
    rewrite Hall, <- app_assoc. cbn [app]. apply after_split.
    rewrite Hall, <- app_assoc in Hnd. exact Hnd. }
  rewrite Hrest. cbn [fst snd Contents NextContinuationToken].
  destruct (skipn (Sim.page_size w) ahead) as [ | y ys] eqn:Hskip.
  - cbn [token_truthy negb].
    assert (Hfirst : firstn (Sim.page_size w) ahead = ahead).
    { rewrite <- (firstn_skipn (Sim.page_size w) ahead) at 2. rewrite Hskip, app_nil_r.
      reflexivity. }
    rewrite Hfirst.
    assert (Hkeys : match match ahead with [] => None | _ :: _ => Some ahead end with
                    | Some content => filter accept_key content
                    | None => []
                    end = filter accept_key ahead) by (destruct ahead; reflexivity).
    rewrite Hkeys. eexists. split; reflexivity.
  - set (page := firstn (Sim.page_size w) ahead) in *.
    assert (Hsplit : ahead = page ++ y :: ys)
      by (rewrite <- Hskip; symmetry; apply firstn_skipn).
    assert (Hpage : page <> []).
    { unfold page. destruct ahead as [ | a ahead']; [rewrite skipn_nil in Hskip; discriminate | ].
      destruct (Sim.page_size w); [lia | discriminate]. }
    pose proof (app_removelast_last ""%string Hpage) as Hlast.
    set (t := last page ""%string) in *.
    assert (Htne : t <> ""%string).
    { intros E. apply Hne. rewrite Hall, Hsplit, Hlast, E.
      apply in_or_app. right. apply in_or_app. left. apply in_or_app. right. left.
      reflexivity. }
    assert (Htt : token_truthy (Some t) = true).
    { cbn [token_truthy]. destruct (String.eqb_spec t ""); [contradiction | reflexivity]. }
    rewrite Htt. cbn [negb].
    match goal with
    | |- context [_list_bucket Sim.bucket fuel prefix accept_key (Some t) ?s] =>
        destruct (IH (seen ++ page) (y :: ys) (Some t) s) as (st' & Hrec & Hw')
    end.
    + rewrite Hall, Hsplit, <- app_assoc. reflexivity.
    + right. exists (seen ++ removelast page), t. split; [ | reflexivity].
      rewrite <- app_assoc. f_equal. exact Hlast.
    + rewrite Hsplit, length_app in Hfuel. destruct page; [contradiction | ].
      cbn [length] in Hfuel |- *. lia.
    + reflexivity.
    + rewrite Hrec. exists st'. split; [ | exact Hw'].
      rewrite Hsplit, filter_app. destruct page; [contradiction | reflexivity].
Qed.

(** X.  Listing loses nothing to pagination.  On a simulated bucket whose
    keys are distinct and not empty, [_list_bucket] yields every key under
    the prefix that passes [accept_key], each once and in the order of the
    bucket, whatever the page size; the bucket is left as it was. *)
Theorem sim_list_bucket_complete (w : Sim.Bucket) (prefix : string)
    (accept_key : string -> bool) (pages : nat) (st : St unit Sim.Bucket) :
  proper w ->
  (length (sim_keys prefix w) < pages)%nat ->
  world (snd st) = w ->
  exists st',
    _list_bucket Sim.bucket pages prefix accept_key None st
    = Some (Ok (filter accept_key (sim_keys prefix w)), st')
    /\ world (snd st') = w.
Proof.
  intros Hp Hpages Hw.
  apply (sim_list_from w prefix accept_key Hp pages [] (sim_keys prefix w) None st);
    [reflexivity | left; split; reflexivity | exact Hpages | exact Hw].
Qed.

Lemma ten_proper : proper ten.
Proof.
  split; [exact BucketProps.ten_keys_NoDup | ].
  split; [ | cbn; lia].
  cbn. intuition discriminate.
Qed.

Lemma flaky_proper : proper flaky.
Proof.
  split; [exact BucketProps.ten_keys_NoDup | ].
  split; [ | cbn; lia].
  cbn. intuition discriminate.
Qed.

(** The keys that end in an even digit, listed three to a page. *)
Lemma sim_list_bucket_complete_witness :
  exists st',
    _list_bucket Sim.bucket 11 "k"
      (fun key => existsb (String.eqb key) ["k0"; "k2"; "k4"; "k6"; "k8"]%string) None
      (tt, net0 flaky)
    = Some (Ok ["k0"; "k2"; "k4"; "k6"; "k8"]%string, st')
    /\ world (snd st') = flaky.
Proof.
  exact (sim_list_bucket_complete flaky "k"
           (fun key => existsb (String.eqb key) ["k0"; "k2"; "k4"; "k6"; "k8"]%string) 11
           (tt, net0 flaky) flaky_proper ltac:(cbn; lia) eq_refl).
Defined.

Lemma flaky_failing :
  failing Sim.bucket "k0" 2 flaky
    {| Sim.entries := Sim.entries ten; Sim.page_size := 3; Sim.transient := [] |}.
Proof.
  eapply failing_again; [reflexivity | ].
  eapply failing_again; [reflexivity | ].
  apply failing_none.
Qed.

(** Two timeouts, two retries allowed: the third attempt is served.  With
    one retry allowed the second timeout is raised. *)
Lemma download_key_retries_witness :
  _download_key Sim.bucket "k0" (Some "bucket"%string) 2 (tt, net0 flaky)
  = (Ok (Some ("k0"%string, list_byte_of_string "k0")),
     (tt, {| world := {| Sim.entries := Sim.entries ten; Sim.page_size := 3;
                         Sim.transient := [] |};
             trace := [EvDownload "k0"; EvDownload "k0"; EvDownload "k0"] |}))
  /\ (forall st negative, negative < 0 ->
        _download_key Sim.bucket "k0" (Some "bucket"%string) negative st = (Ok None, st))
  /\ (forall st, _download_key Sim.bucket "k0" None 2 st = (Raise ValueError, st)).
Proof.
  exact (DownloadProps.download_key_retries Sim.bucket "k0" "bucket" 2 2 (net0 flaky)
           _ _ (Ok (list_byte_of_string "k0")) flaky_failing ltac:(lia) eq_refl I).
Defined.

Lemma ten_holds : holds Sim.bucket (fun w => w = ten) list_byte_of_string ten_keys.
Proof.
  intros key w Hin ->. cbn in Hin.
  repeat (destruct Hin as [<- | Hin]; [eexists; split; reflexivity | ]).
  destruct Hin.
Qed.

(** A limit of zero still yields one pair: the result delivered first. *)
Lemma iter_bucket_yields_witness :
  exists st',
    iter_bucket Sim.bucket (@rev string) 5 "bucket" "" None (Some 0) 16 3 (tt, net0 ten)
    = Some (Ok [("k9"%string, list_byte_of_string "k9")], st')
    /\ last (trace (snd st')) EvNextResult = EvPoolTerminate.
Proof.
  exact (DownloadProps.iter_bucket_yields Sim.bucket (@rev string) 5 "bucket" "" None
           (Some 0) 16 3 (fun w => w = ten) list_byte_of_string ten_keys (tt, net0 ten)
           (tt, {| world := ten;
                   trace := [EvPoolCreate 16;
                             EvListObjects "" None;
                             EvListObjects "" (Some "k3"%string);
                             EvListObjects "" (Some "k7"%string)] |})
           ltac:(discriminate) eq_refl
           (fun k Hk => proj2 (in_rev ten_keys k) Hk) ten_holds eq_refl).
Defined.

Lemma list_bucket_accepts_witness :
  Forall (fun key => String.prefix "k" key = true) ten_keys
  /\ exists evs tokens,
       [EvListObjects "" None; EvListObjects "" (Some "k3"%string);
        EvListObjects "" (Some "k7"%string)] = [] ++ evs
       /\ listings evs = None :: map Some tokens
       /\ Forall (fun t => t <> ""%string) tokens.
Proof.
  exact (DownloadProps.list_bucket_accepts Sim.bucket 5 "" (String.prefix "k") None
           (tt, net0 ten) _ ten_keys eq_refl).
Defined.

End SimListingProps.

Module StrProps.
Import Str.

Lemma contains_app (c : ascii) (a b : string) :
  contains c (a ++ b) = contains c a || contains c b.
Proof.
  induction a as [ | d a IH]; cbn [append contains]; [reflexivity | ].
  rewrite IH, orb_assoc. reflexivity.
Qed.

Lemma append_assoc (a b c : string) : ((a ++ b) ++ c = a ++ (b ++ c))%string.
Proof.
  induction a as [ | d a IH]; cbn [append]; [reflexivity | ]. rewrite IH. reflexivity.
Qed.

Lemma split_not_nil (c : ascii) (s : string) : split c s <> [].
Proof.
  destruct s as [ | d s]; cbn [split]; [discriminate | ].
  destruct (Ascii.eqb d c); [discriminate | ]. destruct (split c s); discriminate.
Qed.

Lemma split1_none (c : ascii) (s : string) : contains c s = false -> split1 c s = [s].
Proof.
  induction s as [ | d s IH]; cbn [contains split1]; [reflexivity | ].
  intros H. apply orb_false_iff in H. destruct H as (Hd & Hs).
  rewrite Hd, (IH Hs). reflexivity.
Qed.

Lemma split1_at (c : ascii) (a b : string) :
  contains c a = false -> split1 c (a ++ String c b) = [a; b].
Proof.
  induction a as [ | d a IH]; cbn [append contains split1].
  - rewrite Ascii.eqb_refl. reflexivity.
  - intros H. apply orb_false_iff in H. destruct H as (Hd & Ha).
    rewrite Hd, (IH Ha). reflexivity.
Qed.

Lemma split_none (c : ascii) (s : string) : contains c s = false -> split c s = [s].
Proof.
  induction s as [ | d s IH]; cbn [contains split]; [reflexivity | ].
  intros H. apply orb_false_iff in H. destruct H as (Hd & Hs).
  rewrite Hd, (IH Hs). reflexivity.
Qed.

Lemma split_at (c : ascii) (a b : string) :
  contains c a = false -> split c (a ++ String c b) = a :: split c b.
Proof.
  induction a as [ | d a IH]; cbn [append contains split].
  - rewrite Ascii.eqb_refl. reflexivity.
  - intros H. apply orb_false_iff in H. destruct H as (Hd & Ha).
    rewrite Hd, (IH Ha). reflexivity.
Qed.

(** The first occurrence of a character that occurs. *)
Lemma contains_first (c : ascii) (s : string) :
  contains c s = true ->
  exists a b, s = (a ++ String c b)%string /\ contains c a = false.
Proof.
  induction s as [ | d s IH]; cbn [contains]; [discriminate | ].
  destruct (Ascii.eqb_spec d c) as [-> | Hd]; cbn [orb].
  - intros _. exists EmptyString, s. split; reflexivity.
  - intros H. destruct (IH H) as (a & b & -> & Ha).
    exists (String d a), b. split; [reflexivity | ].
    cbn [contains]. rewrite Ha. destruct (Ascii.eqb_spec d c); [contradiction | reflexivity].
Qed.

Lemma unpack2_split1 (c : ascii) (s a b : string) :
  unpack2 (split1 c s) = Ok (a, b) ->
  s = (a ++ String c b)%string /\ contains c a = false.
Proof.
  destruct (contains c s) eqn:H.
  - destruct (contains_first c s H) as (a' & b' & -> & Ha).
    rewrite (split1_at c a' b' Ha). intros [= <- <-]. split; [reflexivity | exact Ha].
  - rewrite (split1_none c s H). discriminate.
Qed.

Lemma unpack2_split (c : ascii) (s a b : string) :
  unpack2 (split c s) = Ok (a, b) ->
  s = (a ++ String c b)%string /\ contains c a = false /\ contains c b = false.
Proof.
  destruct (contains c s) eqn:H.
  - destruct (contains_first c s H) as (a' & b' & -> & Ha).
    rewrite (split_at c a' b' Ha).
    destruct (contains c b') eqn:Hb.
    + destruct (contains_first c b' Hb) as (x & y & -> & Hx).
      rewrite (split_at c x y Hx). pose proof (split_not_nil c y).
      destruct (split c y); [contradiction | discriminate].
    + rewrite (split_none c b' Hb). intros [= <- <-]. repeat split; assumption.
  - rewrite (split_none c s H). discriminate.
Qed.

Lemma unpack2_raises (parts : list string) (e : Exn) :
  unpack2 parts = Raise e -> e = ValueError.
Proof.
  destruct parts as [ | a [ | b [ | ? ?]]]; cbn; congruence.
Qed.

Lemma hd_split_at (c : ascii) (a b : string) :
  contains c a = false -> hd EmptyString (split c (a ++ String c b)) = a.
Proof. intros H. rewrite (split_at c a b H). reflexivity. Qed.

End StrProps.

Module UriProps.
Import Str StrProps UriSpec.

Lemma free_cons (c : ascii) (chars : list ascii) (s : string) :
  free (c :: chars) s = true <-> contains c s = false /\ free chars s = true.
Proof.
  unfold free. cbn [forallb]. rewrite andb_true_iff, negb_true_iff. reflexivity.
Qed.

Lemma scheme_known (s : string) :
  In s SCHEMES <-> existsb (String.eqb s) SCHEMES = true.
Proof.
  rewrite existsb_exists. split.
  - intros H. exists s. split; [exact H | apply String.eqb_refl].
  - intros (x & Hx & E). apply String.eqb_eq in E. subst x. exact Hx.
Qed.

(** Take a boolean fact about the characters of a string apart. *)
Ltac chars :=
  repeat match goal with
  | H : _ && _ = true |- _ => apply andb_true_iff in H; destruct H
  | H : free (_ :: _) _ = true |- _ => apply free_cons in H; destruct H
  | H : free [] _ = true |- _ => clear H
  | H : _ || _ = false |- _ => apply orb_false_iff in H; destruct H
  | H : negb _ = true |- _ => apply negb_true_iff in H
  end.

(** Decide a test of [parse_uri] on a location put together from parts
    whose characters are known. *)
Ltac test :=
  cbn [append contains]; rewrite ?contains_app; cbn [contains Ascii.eqb Bool.eqb];
  repeat match goal with
  | H : contains _ _ = _ |- _ => rewrite H
  end;
  cbn [orb andb negb].

Ltac side := solve [assumption | test; reflexivity].

Lemma split_two (c : ascii) (a b : string) :
  contains c a = false -> contains c b = false -> split c (a ++ String c b) = [a; b].
Proof. intros Ha Hb. rewrite (split_at c a b Ha), (split_none c b Hb). reflexivity. Qed.

Ltac cut_at :=
  first [ rewrite hd_split_at by side
        | rewrite split1_at by side
        | rewrite split_two by side
        | rewrite split_none by side
        | rewrite split1_none by side ];
  cbn [unpack2 and_then hd].

Lemma append_mid (a b d : string) (c : ascii) :
  (a ++ String c (b ++ d) = (a ++ String c b) ++ d)%string.
Proof. rewrite append_assoc. reflexivity. Qed.

Section Generic.
Context (safe_urlsplit : string -> Result SplitResult.t) (int : string -> Result Z).

(** X.  [parse_uri] reads the template [[id:secret@][host[:port]@]bucket/key]
    back.  Let the URL split into a scheme among [SCHEMES] and a location
    that is the template filled in, with parts that obey [grammar].  Then
    the result has exactly these parts: the credentials if given, the host
    and the ordinary calling format if a server is given, the default host
    and port otherwise, and as port what [int] makes of the port text (its
    exception, if it raises).  The key is taken as it is, slashes, colons
    and at signs included. *)
Theorem parse_uri_reads_template (uri_as_string : string) (split_uri : SplitResult.t)
    (credentials : option (string * string)) (server : option (string * option string))
    (bucket key : string) :
  safe_urlsplit uri_as_string = Ok split_uri ->
  In (SplitResult.scheme split_uri) SCHEMES ->
  (SplitResult.netloc split_uri ++ SplitResult.path split_uri)%string
  = location credentials server bucket key ->
  grammar credentials server bucket key = true ->
  parse_uri safe_urlsplit int uri_as_string
  = and_then (port_of int server) (fun port =>
      Ok (parsed (SplitResult.scheme split_uri) credentials server port bucket key)).
Proof.
  intros Hsplit Hscheme Hloc Hg. unfold parse_uri. rewrite Hsplit. cbn [and_then].
  apply scheme_known in Hscheme. rewrite Hscheme. cbn [negb]. rewrite Hloc. clear Hloc.
  unfold grammar in Hg. unfold location, parsed, port_of.
  destruct credentials as [[id secret] | ]; destruct server as [[h [p | ]] | ];
    chars; try discriminate.
  - (* id:secret@host:port@bucket/key *)
    test. cut_at. test. cut_at. cut_at.
    rewrite (append_mid _ bucket). cut_at. test. cut_at. cut_at.
    destruct (int p); reflexivity.
  - (* id:secret@host@bucket/key *)
    test. cut_at. test. cut_at. cut_at.
    rewrite (append_mid _ bucket). cut_at. test. cut_at. reflexivity.
  - (* id:secret@bucket/key *)
    test. cut_at. test. cut_at. cut_at. cut_at. test. reflexivity.
  - (* host@bucket/key *)
    test. cut_at. test. cbn [and_then].
    rewrite (append_mid _ bucket). cut_at. test. cut_at. reflexivity.
  - (* bucket/key *)
    assert (Hplain : contains "@" (bucket ++ String "/" key)
                     && contains ":" (hd EmptyString (split "@" (bucket ++ String "/" key)))
                     = false).
    { destruct (contains "@" key) eqn:K.
      - cbn [negb orb] in *. chars.
        destruct (contains_first "@" key K) as (a & b & -> & Ha).
        rewrite (hd_split_at "@" a b Ha) in *.
        rewrite (append_mid bucket a). cut_at. test. reflexivity.
      - test. reflexivity. }
    cbn [append]. rewrite Hplain. cbn [and_then]. cut_at. test. reflexivity.
Qed.

(** What is known of the characters of a string put together from parts. *)
Ltac parts :=
  repeat match goal with
  | H : contains _ (_ ++ _) = _ |- _ => rewrite contains_app in H
  | H : contains _ (String _ _) = _ |- _ => cbn [contains Ascii.eqb Bool.eqb orb] in H
  | H : _ || _ = false |- _ => apply orb_false_iff in H; destruct H
  | H : _ && _ = true |- _ => apply andb_true_iff in H; destruct H
  end.

Ltac same_location :=
  match goal with
  | l := _ : string, H : ?l = _ |- _ => subst l; rewrite H
  end;
  unfold UriSpec.location;
  repeat first [rewrite append_assoc | progress cbn [append]]; reflexivity.

Ltac obeys :=
  parts; unfold grammar, free; cbn [forallb];
  repeat match goal with H : contains _ _ = false |- _ => rewrite H end;
  reflexivity.

(** The second half of [parse_uri], read backwards: the head of the
    location, before the first slash, is a server and a bucket. *)
Lemma head_in_template (head key : string) (ocf : bool) (h : string) (n : Z)
    (bucket : string) :
  contains "/" head = false ->
  (if contains "@" head && contains ":" head then
     and_then (unpack2 (split "@" head)) (fun '(host_port, bucket_id) =>
     and_then (unpack2 (split1 ":" host_port)) (fun '(host, port_str) =>
     and_then (int port_str) (fun port => Ok (true, host, port, bucket_id))))
   else if contains "@" head then
     and_then (unpack2 (split "@" head)) (fun '(host, bucket_id) =>
     Ok (true, host, DEFAULT_PORT, bucket_id))
   else Ok (false, DEFAULT_HOST, DEFAULT_PORT, head))
  = Ok (ocf, h, n, bucket) ->
  exists server,
    (head ++ String "/" key)%string = location None server bucket key
    /\ port_of int server = Ok n
    /\ ocf = match server with Some _ => true | None => false end
    /\ h = match server with Some (h, _) => h | None => DEFAULT_HOST end
    /\ free ["/"; "@"]%char bucket = true
    /\ match server with
       | Some (h, Some p) => free ["@"; ":"; "/"]%char h && free ["@"; "/"]%char p = true
       | Some (h, None) => free ["@"; ":"; "/"]%char h && free [":"]%char bucket = true
       | None => True
       end.
Proof.
  intros Hhead. destruct (contains "@" head && contains ":" head) eqn:Hserver.
  - destruct (unpack2 (split "@" head)) as [[host_port b] | e] eqn:Hhp; [ | discriminate].
    cbn [and_then].
    destruct (unpack2 (split1 ":" host_port)) as [[h' p] | e] eqn:Hh; [ | discriminate].
    cbn [and_then].
    destruct (int p) as [n' | e] eqn:Hint; [ | discriminate].
    cbn [and_then]. intros [= <- <- <- <-].
    apply unpack2_split in Hhp. destruct Hhp as (-> & Hhp & Hbucket).
    apply unpack2_split1 in Hh. destruct Hh as (-> & Hh).
    exists (Some (h', Some p)).
    split; [unfold location; repeat first [rewrite append_assoc | progress cbn [append]];
            reflexivity | ].
    split; [exact Hint | ]. split; [reflexivity | ]. split; [reflexivity | ].
    parts. unfold free. cbn [forallb].
    repeat match goal with H : contains _ _ = false |- _ => rewrite H end.
    split; reflexivity.
  - destruct (contains "@" head) eqn:Hat.
    + destruct (unpack2 (split "@" head)) as [[h' b] | e] eqn:Hhp; [ | discriminate].
      cbn [and_then]. intros [= <- <- <- <-].
      apply unpack2_split in Hhp. destruct Hhp as (-> & Hh & Hbucket).
      cbn [andb] in Hserver.
      exists (Some (h', None)).
      split; [unfold location; repeat first [rewrite append_assoc | progress cbn [append]];
              reflexivity | ].
      split; [reflexivity | ]. split; [reflexivity | ]. split; [reflexivity | ].
      parts. unfold free. cbn [forallb].
      repeat match goal with H : contains _ _ = false |- _ => rewrite H end.
      split; reflexivity.
    + intros [= <- <- <- <-]. exists None.
      split; [reflexivity | ]. split; [reflexivity | ]. split; [reflexivity | ].
      split; [reflexivity | ].
      unfold free. cbn [forallb]. rewrite Hhead, Hat. split; [reflexivity | exact I].
Qed.

(** X.  Whatever [parse_uri] returns was in the URL in this very form: the
    URL split into a scheme among [SCHEMES] and a location that is the
    template [[id:secret@][host[:port]@]bucket/key] filled in with the
    parts of the result, which obey [grammar]; the port is what [int] made
    of the port text, and without a server the host and the port are the
    default ones. *)
Theorem parse_uri_result_in_template (uri_as_string : string) (uri : Uri) :
  parse_uri safe_urlsplit int uri_as_string = Ok uri ->
  exists split_uri credentials server,
    safe_urlsplit uri_as_string = Ok split_uri
    /\ In (SplitResult.scheme split_uri) SCHEMES
    /\ (SplitResult.netloc split_uri ++ SplitResult.path split_uri)%string
       = location credentials server (bucket_id uri) (key_id uri)
    /\ grammar credentials server (bucket_id uri) (key_id uri) = true
    /\ port_of int server = Ok (port uri)
    /\ uri = parsed (SplitResult.scheme split_uri) credentials server (port uri)
               (bucket_id uri) (key_id uri).
Proof.
  unfold parse_uri.
  destruct (safe_urlsplit uri_as_string) as [split_uri | e] eqn:Hsplit; [ | discriminate].
  cbn [and_then].
  destruct (existsb (String.eqb (SplitResult.scheme split_uri)) SCHEMES) eqn:Hscheme;
    [ | discriminate].
  apply scheme_known in Hscheme. cbn [negb].
  set (loc := (SplitResult.netloc split_uri ++ SplitResult.path split_uri)%string).
  destruct (contains "@" loc && contains ":" (hd EmptyString (split "@" loc))) eqn:Hcred.
  - destruct (unpack2 (split1 "@" loc)) as [[auth rest] | e] eqn:Hauth; [ | discriminate].
    cbn [and_then].
    destruct (unpack2 (split ":" auth)) as [[id secret] | e] eqn:Hpair; [ | discriminate].
    cbn [and_then].
    apply unpack2_split1 in Hauth. destruct Hauth as (Hloc & Hauth).
    apply unpack2_split in Hpair. destruct Hpair as (-> & Hid & Hsecret).
    destruct (unpack2 (split1 "/" rest)) as [[head key] | e] eqn:Hhead; [ | discriminate].
    cbn [and_then].
    apply unpack2_split1 in Hhead. destruct Hhead as (-> & Hhead).
    match goal with
    | |- and_then ?m _ = _ -> _ => destruct m as [[[[ocf h] n] bucket] | e] eqn:Hm
    end; [ | discriminate].
    cbn [and_then]. intros [= <-]. cbn [bucket_id key_id port].
    destruct (head_in_template head key ocf h n bucket Hhead Hm)
      as (server & Hrest & Hport & -> & -> & Hb & Hs).
    exists split_uri, (Some (id, secret)), server.
    split; [reflexivity | ]. split; [exact Hscheme | ].
    split; [subst loc; rewrite Hloc, Hrest; destruct server as [[? [? | ]] | ]; reflexivity | ].
    split; [ | split; [exact Hport | reflexivity]].
    parts. unfold grammar. rewrite Hb. unfold free at 1 2. cbn [forallb].
    rewrite Hid, Hsecret, H, H0. cbn [negb andb].
    destruct server as [[? [? | ]] | ]; [exact Hs | exact Hs | reflexivity].
  - cbn [and_then].
    destruct (unpack2 (split1 "/" loc)) as [[head key] | e] eqn:Hhead; [ | discriminate].
    cbn [and_then].
    apply unpack2_split1 in Hhead. destruct Hhead as (Hloc & Hhead).
    match goal with
    | |- and_then ?m _ = _ -> _ => destruct m as [[[[ocf h] n] bucket] | e] eqn:Hm
    end; [ | discriminate].
    cbn [and_then]. intros [= <-]. cbn [bucket_id key_id port].
    destruct (head_in_template head key ocf h n bucket Hhead Hm)
      as (server & Hrest & Hport & -> & -> & Hb & Hs).
    exists split_uri, None, server.
    split; [reflexivity | ]. split; [exact Hscheme | ].
    split; [subst loc; rewrite Hloc, Hrest; reflexivity | ].
    split; [ | split; [exact Hport | reflexivity]].
    rewrite Hloc, Hrest in Hcred. unfold grammar. rewrite Hb. cbn [andb].
    destruct server as [[h' [p | ]] | ].
    + exfalso. unfold location in Hcred. cbn [append] in Hcred. chars.
      rewrite hd_split_at in Hcred by side. revert Hcred. test. discriminate.
    + exact Hs.
    + unfold location in Hcred. cbn [append] in Hcred. chars.
      destruct (contains "@" key) eqn:K; [ | reflexivity]. cbn [negb orb].
      destruct (contains_first "@" key K) as (a & b & -> & Ha).
      rewrite (hd_split_at "@" a b Ha).
      rewrite (append_mid bucket a) in Hcred.
      rewrite hd_split_at in Hcred by side.
      revert Hcred. test. unfold free. cbn [forallb].
      destruct (contains ":" bucket), (contains ":" a); cbn; congruence.
Qed.

(** X.  What [parse_uri] rejects.  A scheme that is not among [SCHEMES]
    fails the assertion.  A location without a slash, a bucket with no key
    after it, raises [ValueError].  And whatever [parse_uri] raises is the
    exception of [safe_urlsplit], [AssertionError], [ValueError], or the
    exception [int] raised for a port text. *)
Theorem parse_uri_rejects (uri_as_string : string) :
  (forall split_uri,
      safe_urlsplit uri_as_string = Ok split_uri ->
      ~ In (SplitResult.scheme split_uri) SCHEMES ->
      parse_uri safe_urlsplit int uri_as_string = Raise AssertionError)
  /\ (forall split_uri,
        safe_urlsplit uri_as_string = Ok split_uri ->
        In (SplitResult.scheme split_uri) SCHEMES ->
        contains "/" (SplitResult.netloc split_uri ++ SplitResult.path split_uri) = false ->
        parse_uri safe_urlsplit int uri_as_string = Raise ValueError)
  /\ (forall e,
        parse_uri safe_urlsplit int uri_as_string = Raise e ->
        safe_urlsplit uri_as_string = Raise e
        \/ e = AssertionError \/ e = ValueError
        \/ exists port_str, int port_str = Raise e).
Proof.
  split; [ | split].
  - intros split_uri Hsplit Hscheme. unfold parse_uri. rewrite Hsplit. cbn [and_then].
    destruct (existsb (String.eqb (SplitResult.scheme split_uri)) SCHEMES) eqn:E;
      [ | reflexivity].
    exfalso. apply Hscheme, scheme_known, E.
  - intros split_uri Hsplit Hscheme Hslash. unfold parse_uri. rewrite Hsplit.
    cbn [and_then]. apply scheme_known in Hscheme. rewrite Hscheme. cbn [negb].
    set (loc := (SplitResult.netloc split_uri ++ SplitResult.path split_uri)%string) in *.
    destruct (contains "@" loc && contains ":" (hd EmptyString (split "@" loc))).
    + destruct (unpack2 (split1 "@" loc)) as [[auth rest] | e] eqn:Hauth; cbn [and_then];
        [ | rewrite (unpack2_raises _ _ Hauth); reflexivity].
      apply unpack2_split1 in Hauth. destruct Hauth as (Hloc & _).
      rewrite Hloc in Hslash. parts.
      destruct (unpack2 (split ":" auth)) as [[id secret] | e] eqn:Hpair; cbn [and_then];
        [ | rewrite (unpack2_raises _ _ Hpair); reflexivity].
      rewrite split1_none by assumption. reflexivity.
    + cbn [and_then]. rewrite split1_none by assumption. reflexivity.
  - intros e. unfold parse_uri.
    destruct (safe_urlsplit uri_as_string) as [split_uri | e0]; cbn [and_then];
      [ | intros [= <-]; left; reflexivity].
    destruct (negb (existsb (String.eqb (SplitResult.scheme split_uri)) SCHEMES));
      [intros [= <-]; right; left; reflexivity | ].
    right. right. revert H.
    repeat match goal with
    | |- and_then (if ?c then _ else _) _ = _ -> _ => destruct c
    | |- and_then (unpack2 ?l) _ = _ -> _ =>
        let E := fresh "E" in
        destruct (unpack2 l) as [[? ?] | ?] eqn:E; cbn [and_then];
        [ | apply unpack2_raises in E; subst; intros [= <-]; left; reflexivity]
    | |- and_then (and_then (unpack2 ?l) _) _ = _ -> _ =>
        let E := fresh "E" in
        destruct (unpack2 l) as [[? ?] | ?] eqn:E; cbn [and_then];
        [ | apply unpack2_raises in E; subst; intros [= <-]; left; reflexivity]
    | |- and_then (int ?p) _ = _ -> _ =>
        let E := fresh "E" in
        destruct (int p) eqn:E; cbn [and_then];
        [ | intros [= <-]; right; exists p; exact E]
    | |- and_then (and_then (int ?p) _) _ = _ -> _ =>
        let E := fresh "E" in
        destruct (int p) eqn:E; cbn [and_then];
        [ | intros [= <-]; right; exists p; exact E]
    | |- and_then (Ok _) _ = _ -> _ => cbn [and_then]
    | |- Ok _ = Raise _ -> _ => discriminate
    end.
Qed.

End Generic.

(** The full template, the key with a slash of its own. *)
Lemma parse_uri_reads_template_witness :
  parse_uri plain_urlsplit decimal
    "s3://my_key:my_secret@my_server:8080@my_bucket/my_dir/my_key"
  = Ok {| scheme := "s3";
          bucket_id := "my_bucket";
          key_id := "my_dir/my_key";
          port := 8080;
          host := "my_server";
          ordinary_calling_format := true;
          access_id := Some "my_key"%string;
          access_secret := Some "my_secret"%string |}.
Proof.
  exact (parse_uri_reads_template plain_urlsplit decimal
           "s3://my_key:my_secret@my_server:8080@my_bucket/my_dir/my_key"
           (SplitResult.mk "s3" "my_key:my_secret@my_server:8080@my_bucket" "/my_dir/my_key")
           (Some ("my_key", "my_secret")%string) (Some ("my_server", Some "8080")%string)
           "my_bucket" "my_dir/my_key" eq_refl (or_introl eq_refl) eq_refl eq_refl).
Defined.

(** A server with a port and no credentials before it: the server is taken
    for the credentials. *)
Lemma parse_uri_result_in_template_witness :
  exists split_uri credentials server,
    plain_urlsplit "s3://my_server:8080@my_bucket/my_key" = Ok split_uri
    /\ In (SplitResult.scheme split_uri) SCHEMES
    /\ (SplitResult.netloc split_uri ++ SplitResult.path split_uri)%string
       = location credentials server "my_bucket" "my_key"
    /\ grammar credentials server "my_bucket" "my_key" = true
    /\ port_of decimal server = Ok 443
    /\ {| scheme := "s3";
          bucket_id := "my_bucket";
          key_id := "my_key";
          port := 443;
          host := "s3.amazonaws.com";
          ordinary_calling_format := false;
          access_id := Some "my_server"%string;
          access_secret := Some "8080"%string |}
       = parsed (SplitResult.scheme split_uri) credentials server 443 "my_bucket" "my_key".
Proof.
  exact (parse_uri_result_in_template plain_urlsplit decimal
           "s3://my_server:8080@my_bucket/my_key" _ eq_refl).
Defined.

(** A bucket without a key; a scheme that is not one of S3. *)
Lemma parse_uri_rejects_witness :
  parse_uri plain_urlsplit decimal "s3://my_bucket" = Raise ValueError
  /\ parse_uri plain_urlsplit decimal "gs://my_bucket/my_key" = Raise AssertionError.
Proof.
  split.
  - exact (proj1 (proj2 (parse_uri_rejects plain_urlsplit decimal "s3://my_bucket")) _
             eq_refl (or_introl eq_refl) eq_refl).
  - refine (proj1 (parse_uri_rejects plain_urlsplit decimal "gs://my_bucket/my_key") _
              eq_refl _).
    cbn. intuition discriminate.
Defined.

End UriProps.
